(** * Archetypal pattern generators: a shallow embedding and its properties

  The development embeds the three scripts of the repository

    - [generate_archetypal_patterns.py]      (module [Uia]),
    - [generate_apl_archetypal_variants.py]  (module [Apl]),
    - [analyze_variations.py]                (module [Analyze]),

  together with the part of Python's [str] and [re] that they use
  (modules [PyStr] and [Re]).

  Scope of the model.  A Python [str] is modelled as a list of 8-bit
  characters.  The character classes of [re] ([\b], [\d], [\s], case
  folding) are the ASCII ones: a character above 127 is in no class
  and folds to itself.  For ASCII text this is what CPython does;
  Unicode letters outside ASCII are outside the model.  Reading a
  file either yields its content or raises.  The first generator
  creates its output directory with its parents; the second creates
  it without them, which raises when [markdown/] is absent.  Writing
  a file is assumed to succeed, and so is printing, except in
  [Uia.extract_template_content_on], which follows the [print] of the
  exception handler. *)

From Stdlib Require Import Ascii String DecimalString Bool Arith Lia List.
Import ListNotations.
Local Open Scope list_scope.
Local Open Scope bool_scope.

(* ================================================================== *)
(** * Python strings *)
(* ================================================================== *)

Module PyStr.

Definition str := list ascii.

(** A string literal. *)
Definition lit (x : string) : str := list_ascii_of_string x.

(** ['\n'] *)
Definition nl : ascii := ascii_of_nat 10.

Definition code (c : ascii) : nat := nat_of_ascii c.

Definition between (lo hi : nat) (c : ascii) : bool :=
  (lo <=? code c) && (code c <=? hi).

Definition is_upper (c : ascii) : bool := between 65 90 c.
Definition is_lower (c : ascii) : bool := between 97 122 c.
Definition is_digit (c : ascii) : bool := between 48 57 c.

(** [\w]: letters, digits and the underscore. *)
Definition is_word (c : ascii) : bool :=
  is_upper c || is_lower c || is_digit c || (code c =? 95).

(** [\s] and [str.strip()]: TAB, LF, VT, FF, CR, FS, GS, RS, US, SPACE. *)
Definition is_space (c : ascii) : bool :=
  between 9 13 c || between 28 31 c || (code c =? 32).

(** Case folding of one character, as [re.IGNORECASE] and
    [str.lower()] do on ASCII. *)
Definition lower (c : ascii) : ascii :=
  if is_upper c then ascii_of_nat (code c + 32) else c.

Definition str_lower (s : str) : str := map lower s.

Definition eqc (a b : ascii) : bool := Ascii.eqb a b.

Fixpoint str_eqb (a b : str) : bool :=
  match a, b with
  | [], [] => true
  | x :: a', y :: b' => eqc x y && str_eqb a' b'
  | _, _ => false
  end.

Fixpoint drop_while (p : ascii -> bool) (s : str) : str :=
  match s with
  | [] => []
  | x :: s' => if p x then drop_while p s' else s
  end.

Definition lstrip (s : str) : str := drop_while is_space s.
Definition rstrip (s : str) : str := rev (drop_while is_space (rev s)).

(** [s.strip()] *)
Definition strip (s : str) : str := lstrip (rstrip s).

(** [s.startswith(p)] *)
Fixpoint starts_with (p s : str) : bool :=
  match p, s with
  | [], _ => true
  | x :: p', y :: s' => eqc x y && starts_with p' s'
  | _ :: _, [] => false
  end.

(** [p in s] *)
Fixpoint contains (p s : str) : bool :=
  starts_with p s ||
  match s with
  | [] => false
  | _ :: s' => contains p s'
  end.

(** The double quote. *)
Definition dq : ascii := ascii_of_nat 34.

(** [dir / name] for a [Path], as the string of the path. *)
Definition join (dir name : str) : str := dir ++ lit "/" ++ name.

(** Truthiness of a value that is [None] or a string. *)
Definition truthy (v : option str) : bool :=
  match v with
  | Some (_ :: _) => true
  | _ => false
  end.

End PyStr.

Import PyStr.

(* ================================================================== *)
(** * The fragment of [re] used by the scripts *)
(* ================================================================== *)

Module Re.

Record flags := mk_flags {
  IGNORECASE : bool;
  MULTILINE : bool;
  DOTALL : bool
}.

Definition no_flags : flags := mk_flags false false false.

(** One-character classes: [\d], [\s] and [.]. *)
Inductive cls := Digit | Space | Dot.

(** Patterns.  [Rep k lo greedy] is a repetition of a one-character
    class: [k*] is [Rep k 0 true], [k+] is [Rep k 1 true], [k*?] is
    [Rep k 0 false] and [k+?] is [Rep k 1 false]. *)
Inductive regex :=
| Str (l : str)                         (* a run of literal characters *)
| Cls (k : cls)
| Bound                                 (* \b *)
| Bol                                   (* ^ *)
| Eol                                   (* $ *)
| Seq (r1 r2 : regex)
| Alt (r1 r2 : regex)                   (* r1|r2 *)
| Rep (k : cls) (lo : nat) (greedy : bool)
| Group (n : nat) (r : regex)           (* (r), the n-th group *)
| Ahead (r : regex).                    (* (?=r) *)

(** A position in the subject: the character just before it (if any),
    the text from it on, and the groups captured so far. *)
Record cursor := mk_cursor {
  before : option ascii;
  rest : str;
  groups : list (nat * str)
}.

Definition advance (n : nat) (c : cursor) : cursor :=
  {| before := fold_left (fun _ x => Some x) (firstn n (rest c)) (before c);
     rest := skipn n (rest c);
     groups := groups c |}.

(** Number of characters between two cursors on the same subject. *)
Definition consumed (c c' : cursor) : nat :=
  length (rest c) - length (rest c').

Definition capture (n : nat) (c c' : cursor) : cursor :=
  {| before := before c';
     rest := rest c';
     groups := (n, firstn (consumed c c') (rest c)) :: groups c' |}.

Definition in_cls (f : flags) (k : cls) (x : ascii) : bool :=
  match k with
  | Digit => is_digit x
  | Space => is_space x
  | Dot => DOTALL f || negb (eqc x nl)
  end.

Definition eq_char (f : flags) (p x : ascii) : bool :=
  if IGNORECASE f then eqc (lower p) (lower x) else eqc p x.

(** Does the literal run [l] match at the head of [s]? *)
Fixpoint lit_match (f : flags) (l s : str) : bool :=
  match l, s with
  | [], _ => true
  | p :: l', x :: s' => eq_char f p x && lit_match f l' s'
  | _ :: _, [] => false
  end.

Definition word_opt (o : option ascii) : bool :=
  match o with
  | Some x => is_word x
  | None => false
  end.

(** [\b]: exactly one side of the position is a word character. *)
Definition at_boundary (c : cursor) : bool :=
  xorb (word_opt (before c)) (word_opt (hd_error (rest c))).

(** [^]: start of the subject; with MULTILINE, also after a newline. *)
Definition at_bol (f : flags) (c : cursor) : bool :=
  match before c with
  | None => true
  | Some x => MULTILINE f && eqc x nl
  end.

(** [$]: end of the subject or before its last newline; with MULTILINE,
    before any newline. *)
Definition at_eol (f : flags) (c : cursor) : bool :=
  match rest c with
  | [] => true
  | x :: s' => eqc x nl && (MULTILINE f || match s' with [] => true | _ => false end)
  end.

(** Length of the longest run of [p] at the head of [s]. *)
Fixpoint run (p : ascii -> bool) (s : str) : nat :=
  match s with
  | x :: s' => if p x then S (run p s') else 0
  | [] => 0
  end.

(** The repetition counts tried, in order, by a repetition that can
    take between [lo] and [hi] characters. *)
Definition counts (lo hi : nat) (greedy : bool) : list nat :=
  let up := seq lo (S hi - lo) in
  if greedy then rev up else up.

(** All the ways [r] matches at [c], in the order in which the
    backtracking matcher finds them; a call of the matcher returns the
    first. *)
Fixpoint m (f : flags) (r : regex) (c : cursor) : list cursor :=
  match r with
  | Str l => if lit_match f l (rest c) then [advance (length l) c] else []
  | Cls k =>
      match rest c with
      | x :: _ => if in_cls f k x then [advance 1 c] else []
      | [] => []
      end
  | Bound => if at_boundary c then [c] else []
  | Bol => if at_bol f c then [c] else []
  | Eol => if at_eol f c then [c] else []
  | Seq r1 r2 => flat_map (m f r2) (m f r1 c)
  | Alt r1 r2 => m f r1 c ++ m f r2 c
  | Rep k lo greedy =>
      map (fun n => advance n c)
          (counts lo (run (in_cls f k) (rest c)) greedy)
  | Group n r => map (capture n c) (m f r c)
  | Ahead r =>
      match m f r c with
      | [] => []
      | c' :: _ => [ {| before := before c; rest := rest c; groups := groups c' |} ]
      end
  end.

(** A match object: where the match starts, how long it is, its groups. *)
Record match_obj := mk_match {
  m_start : nat;
  m_len : nat;
  m_groups : list (nat * str)
}.

(** [mo.group(n)] for a group that took part in the match. *)
Fixpoint lookup (n : nat) (gs : list (nat * str)) : option str :=
  match gs with
  | [] => None
  | (k, v) :: gs' => if k =? n then Some v else lookup n gs'
  end.

Definition group (mo : match_obj) (n : nat) : str :=
  match lookup n (m_groups mo) with
  | Some v => v
  | None => []
  end.

(** The first match at exactly this position.  [must_advance] refuses
    an empty match (used by [sub] right after an empty match). *)
Definition match_here (f : flags) (r : regex) (must_advance : bool)
           (c : cursor) : option cursor :=
  hd_error
    (filter (fun c' => negb (must_advance && (consumed c c' =? 0)))
            (m f r c)).

(** [re.search]: leftmost position with a match, every position
    from the start to the end of the subject being tried. *)
Fixpoint search_from (f : flags) (r : regex) (b : option ascii) (s : str)
  : option match_obj :=
  let c := mk_cursor b s [] in
  match match_here f r false c with
  | Some c' => Some (mk_match 0 (consumed c c') (groups c'))
  | None =>
      match s with
      | [] => None
      | x :: s' =>
          match search_from f r (Some x) s' with
          | Some mo => Some (mk_match (S (m_start mo)) (m_len mo) (m_groups mo))
          | None => None
          end
      end
  end.

Definition search (r : regex) (s : str) (f : flags) : option match_obj :=
  search_from f r None s.

(** The loop of [re.sub] (CPython 3.7 and later) for a replacement
    without backslash escapes: at each position the first match is
    replaced and the scan resumes at its end; where nothing matches
    the character is copied. *)
Fixpoint sub_loop (fuel : nat) (f : flags) (r : regex) (repl : str)
         (must_advance : bool) (b : option ascii) (s : str) : str :=
  match fuel with
  | 0 => s
  | S fuel' =>
      let c := mk_cursor b s [] in
      match match_here f r must_advance c with
      | Some c' =>
          repl ++ sub_loop fuel' f r repl (consumed c c' =? 0) (before c') (rest c')
      | None =>
          match s with
          | [] => []
          | x :: s' => x :: sub_loop fuel' f r repl false (Some x) s'
          end
      end
  end.

(** [re.sub(r, repl, s, flags=f)]; two steps per character are enough. *)
Definition sub (r : regex) (repl : str) (s : str) (f : flags) : str :=
  sub_loop (2 * length s + 2) f r repl false None s.

(** [re.escape(t)] followed by compilation: [t] as a literal run. *)
Definition escape (t : str) : regex := Str t.

(** [a|b1|...|bn] for literal alternatives. *)
Fixpoint alts (a : str) (l : list str) : regex :=
  match l with
  | [] => Str a
  | b :: l' => Alt (Str a) (alts b l')
  end.

End Re.

Import Re.

(* ================================================================== *)
(** * generate_archetypal_patterns.py *)
(* ================================================================== *)

Module Uia.

(** [replaceable_terms]; a [dict] iterates in insertion order. *)
Definition replaceable_terms : list (str * str) :=
  [ (lit "domains", lit "{{domains}}");
    (lit "frameworks", lit "{{frameworks}}");
    (lit "elements", lit "{{elements}}");
    (lit "resources", lit "{{resources}}");
    (lit "organization", lit "{{organization-type}}");
    (lit "influence", lit "{{influence-type}}");
    (lit "positions", lit "{{positions}}");
    (lit "areas", lit "{{areas}}");
    (lit "modes", lit "{{modes}}");
    (lit "patterns", lit "{{patterns}}");
    (lit "established patterns", lit "{{established-patterns}}");
    (lit "major patterns", lit "{{major-patterns}}") ].

(** [r'\b' + re.escape(term) + r'\b'] *)
Definition term_pattern (term : str) : regex :=
  Seq Bound (Seq (escape term) Bound).

(** One turn of the loop of [identify_domain_specific_terms]. *)
Definition replace_term (archetypal_text : str) (rule : str * str) : str :=
  sub (term_pattern (fst rule)) (snd rule) archetypal_text
      (mk_flags true false false).

(** The list [generic_terms] of the source is never read. *)
Definition identify_domain_specific_terms (template_text : str) : str :=
  fold_left replace_term replaceable_terms template_text.

(** [r'^# (\d+) - (.+)$'] *)
Definition title_re : regex :=
  Seq Bol (Seq (Str (lit "# ")) (Seq (Group 1 (Rep Digit 1 true))
    (Seq (Str (lit " - ")) (Seq (Group 2 (Rep Dot 1 true)) Eol)))).

(** [r'## Template\s*\n\n(.+?)(?=\n\n##|\n\n$)'] *)
Definition template_re : regex :=
  Seq (Str (lit "## Template")) (Seq (Rep Space 0 true)
    (Seq (Str [nl; nl]) (Seq (Group 1 (Rep Dot 1 false))
      (Ahead (Alt (Str ([nl; nl] ++ lit "##")) (Seq (Str [nl; nl]) Eol)))))).

(** What opening and reading a file gives: its content, or an
    exception with its message. *)
Inductive file :=
| Unreadable (e : str)
| Readable (content : str).

(** A value that is [None] or a string, three times. *)
Definition triple : Type := option str * option str * option str.

Definition none3 : triple := (None, None, None).

(** The statements of the [try] block once the file is read. *)
Definition extract_from_content (content : str) : triple :=
  match search title_re content (mk_flags false true false) with
  | None => none3
  | Some title_match =>
      let pattern_id := group title_match 1 in
      let pattern_name := group title_match 2 in
      match search template_re content (mk_flags false false true) with
      | None => none3
      | Some template_match =>
          let template_content := strip (group template_match 1) in
          (Some pattern_id, Some pattern_name, Some template_content)
      end
  end.

(** [extract_template_content]: the value returned and the lines
    printed.  The handler [except Exception] turns the failure of the
    read into a message and three [None]. *)
Definition extract_template_content (file_path : str) (f : file)
  : triple * list str :=
  match f with
  | Readable content => (extract_from_content content, [])
  | Unreadable e =>
      (none3, [lit "Error processing " ++ file_path ++ lit ": " ++ e])
  end.

(** How a call of [extract_template_content] ends: it returns three
    values, having printed some lines, or an exception leaves it. *)
Inductive result :=
| Returned (values : triple) (printed : list str)
| Raised (unprinted : str).

(** [extract_template_content] with the [print] of its handler
    followed: [stdout_takes] tells whether the standard output accepts
    a line.  The [print] stands inside the [except] block, where
    nothing catches what it raises. *)
Definition extract_template_content_on (stdout_takes : str -> bool)
           (file_path : str) (f : file) : result :=
  match f with
  | Readable content => Returned (extract_from_content content) []
  | Unreadable e =>
      let line := lit "Error processing " ++ file_path ++ lit ": " ++ e in
      if stdout_takes line then Returned none3 [line] else Raised line
  end.

Definition pattern_head : str := lit " (Archetypal)

## Archetypal Pattern

".

Definition pattern_table : str := lit "

## Domain Placeholders

This archetypal pattern uses the following domain-specific placeholders:

- `{{domains}}` → Physical: regions/areas | Social: functional domains/communities | Conceptual: knowledge domains | Psychic: modes of awareness
- `{{frameworks}}` → Physical: cities/infrastructure | Social: institutions/systems | Conceptual: paradigms/theories | Psychic: mental structures
- `{{elements}}` → Physical: materials/spaces | Social: members/participants | Conceptual: concepts/ideas | Psychic: perceptions/insights
- `{{organization-type}}` → Physical: building/development | Social: institution/community | Conceptual: framework/theory | Psychic: structured awareness
- `{{resources}}` → Physical: land/agriculture | Social: social resources | Conceptual: creative resources | Psychic: psychic resources
- `{{influence-type}}` → Physical: influence | Social: influence | Conceptual: insight | Psychic: influence
- `{{areas}}` → Physical: land/regions | Social: functional areas | Conceptual: domains | Psychic: modes of awareness
- `{{positions}}` → Physical: central locations | Social: central organizations | Conceptual: central frameworks | Psychic: ordered modes
- `{{patterns}}` → Physical: urban environments | Social: organizational patterns | Conceptual: knowledge patterns | Psychic: awareness patterns
- `{{modes}}` → Physical: environments | Social: modes of organization | Conceptual: modes of organization | Psychic: modes of awareness

## Original Template

".

Definition pattern_foot : str := lit "

---
*Generated from UIA Pattern ".

Definition generate_archetypal_pattern
           (pattern_id pattern_name template_content : str) : str :=
  let archetypal_content := identify_domain_specific_terms template_content in
  lit "# " ++ pattern_id ++ lit " - " ++ pattern_name ++ pattern_head
    ++ archetypal_content ++ pattern_table ++ template_content
    ++ pattern_foot ++ pattern_id ++ lit "*" ++ [nl].

(** The state of [main]: the two counters, the files written (name
    and content, oldest first) and the lines printed. *)
Record run := mk_run {
  generated_count : nat;
  no_template_count : nat;
  written : list (str * str);
  stdout : list str
}.

Definition start : run := mk_run 0 0 [] [].

Definition some_or_empty (v : option str) : str :=
  match v with
  | Some x => x
  | None => []
  end.

Definition decimal (n : nat) : str :=
  lit (NilEmpty.string_of_uint (Nat.to_uint n)).

Definition arc_dir : str := lit "/home/runner/work/p235/p235/markdown/arc".

(** The body of the loop of [main] for one file of the corpus. *)
Definition process_file (st : run) (entry : str * file) : run :=
  let '(file_path, f) := entry in
  let '((pattern_id, pattern_name, template_content), printed) :=
    extract_template_content file_path f in
  let out := stdout st ++ printed in
  if truthy pattern_id && truthy pattern_name && truthy template_content then
    let id := some_or_empty pattern_id in
    let name := some_or_empty pattern_name in
    let archetypal_pattern :=
      generate_archetypal_pattern id name (some_or_empty template_content) in
    let output_file := join arc_dir (lit "arc_" ++ id ++ lit ".md") in
    mk_run (S (generated_count st)) (no_template_count st)
           (written st ++ [(output_file, archetypal_pattern)])
           (out ++ [lit "Generated: arc_" ++ id ++ lit ".md - " ++ name])
  else if truthy pattern_id && truthy pattern_name then
    let id := some_or_empty pattern_id in
    let name := some_or_empty pattern_name in
    mk_run (generated_count st) (S (no_template_count st)) (written st)
           (out ++ [lit "Skipped (no Template section): " ++ id ++ lit " - " ++ name])
  else
    mk_run (generated_count st) (no_template_count st) (written st) out.

(** The three lines of the final summary. *)
Definition summary (st : run) : list str :=
  [ [nl] ++ lit "Generated " ++ decimal (generated_count st)
      ++ lit " archetypal patterns in " ++ arc_dir;
    lit "Skipped " ++ decimal (no_template_count st)
      ++ lit " patterns without Template sections";
    lit "Total patterns processed: "
      ++ decimal (generated_count st + no_template_count st) ].

Definition readme_head : str :=
  lit "# Archetypal Patterns

This directory contains archetypal patterns generated from UIA templates using the format:
**" ++ dq :: lit "some-generic {{domain-specific}} more-generic" ++ dq :: lit "**

## What are Archetypal Patterns?

Archetypal patterns are abstracted versions of the UIA template patterns where domain-specific terms have been replaced with placeholders. This allows the same organizational principle to be applied across different domains (Physical, Social, Conceptual, Psychic) by substituting appropriate domain-specific vocabulary.

## Pattern Format

Each archetypal pattern includes:

1. **Archetypal Pattern**: The template text with domain-specific placeholders
2. **Domain Placeholders**: Explanation of how placeholders map to different domains  
3. **Original Template**: The original template text for reference

## Usage

To use an archetypal pattern:

1. Select the appropriate domain (Physical, Social, Conceptual, or Psychic)
2. Replace each `{{placeholder}}` with the corresponding domain-specific term
3. The result will be a domain-specific version of the organizational principle

## Generated Patterns

".

Definition readme_foot : str :=
  lit " archetypal patterns have been generated from the UIA template collection.

---
*Generated from analysis of 253 UIA patterns*
".

Definition readme_content (generated_count : nat) : str :=
  readme_head ++ decimal generated_count ++ readme_foot.

(** [main] on the sorted files of the corpus directory: the loop, the
    summary, the README. *)
Definition main (uia_files : list (str * file)) : run :=
  let st := fold_left process_file uia_files start in
  mk_run (generated_count st) (no_template_count st)
         (written st ++ [(join arc_dir (lit "README.md"),
                          readme_content (generated_count st))])
         (stdout st ++ summary st ++ [lit "Created README.md with documentation"]).

End Uia.

(* ================================================================== *)
(** * generate_apl_archetypal_variants.py *)
(* ================================================================== *)

Module Apl.

(** [r'\b(a|b1|...|bn)\b'] *)
Definition words (a : string) (l : list string) : regex :=
  Seq Bound (Seq (Group 1 (alts (lit a) (map lit l))) Bound).

(** [architectural_terms]; a [dict] iterates in insertion order. *)
Definition architectural_terms : list (regex * str) :=
  [ (words "region" ["regions"]%string, lit "{{regions}}");
    (words "town" ["towns"; "city"; "cities"; "village"; "villages"]%string,
     lit "{{settlements}}");
    (words "building" ["buildings"; "structure"; "structures"; "house"; "houses"]%string,
     lit "{{structures}}");
    (words "street" ["streets"; "road"; "roads"; "path"; "paths"]%string,
     lit "{{pathways}}");
    (words "space" ["spaces"; "room"; "rooms"; "area"; "areas"]%string,
     lit "{{spaces}}");
    (words "people" ["person"; "inhabitants"; "residents"; "users"]%string,
     lit "{{agents}}");
    (words "activities" ["activity"; "functions"; "function"]%string,
     lit "{{processes}}");
    (words "neighborhood" ["neighborhoods"; "community"; "communities"]%string,
     lit "{{localities}}");
    (words "construction" ["building process"; "development"]%string,
     lit "{{creation}}");
    (words "parking" ["transportation"; "traffic"]%string, lit "{{movement}}") ].

(** One turn of the loop of [identify_architectural_terms]. *)
Definition replace_pattern (archetypal_text : str) (rule : regex * str) : str :=
  sub (fst rule) (snd rule) archetypal_text (mk_flags true false false).

Definition identify_architectural_terms (text : str) : str :=
  fold_left replace_pattern architectural_terms text.

Definition variant_head : str := lit " (Archetypal Variant)

## Archetypal Pattern

".

Definition variant_table : str := lit "

## Domain Transformations

This archetypal variant uses the following domain-specific placeholders:

- `{{regions}}` → Physical: regions/territories | Social: communities/networks | Conceptual: domains/fields | Psychic: states/realms
- `{{settlements}}` → Physical: towns/cities | Social: organizations/institutions | Conceptual: systems/frameworks | Psychic: patterns/structures  
- `{{structures}}` → Physical: buildings/facilities | Social: institutions/entities | Conceptual: concepts/models | Psychic: patterns/forms
- `{{pathways}}` → Physical: streets/roads | Social: connections/networks | Conceptual: links/associations | Psychic: flows/channels
- `{{spaces}}` → Physical: spaces/places | Social: environments/contexts | Conceptual: realms/domains | Psychic: states/dimensions
- `{{agents}}` → Physical: people/inhabitants | Social: members/participants | Conceptual: elements/components | Psychic: aspects/facets
- `{{processes}}` → Physical: activities/functions | Social: interactions/communications | Conceptual: operations/processes | Psychic: experiences/activities
- `{{localities}}` → Physical: neighborhoods/communities | Social: groups/collectives | Conceptual: clusters/groupings | Psychic: formations/configurations
- `{{creation}}` → Physical: construction/development | Social: formation/establishment | Conceptual: development/creation | Psychic: emergence/formation
- `{{movement}}` → Physical: transportation/traffic | Social: communication/flow | Conceptual: information flow/exchange | Psychic: energy flow/circulation

## Usage Instructions

To use this archetypal variant:

1. **Select your domain**: Physical, Social, Conceptual, or Psychic
2. **Replace placeholders**: Substitute each `{{placeholder}}` with appropriate domain-specific terms
3. **Adapt context**: Modify surrounding text as needed to maintain coherence in your chosen domain

## Original Content

".

Definition variant_foot : str := lit "

---
*Generated as archetypal variant from APL organizational document*
".

(** The parameter [file_type] of the source is never read. *)
Definition generate_archetypal_variant (title content : str) : str :=
  let archetypal_content := identify_architectural_terms content in
  lit "# " ++ title ++ variant_head ++ archetypal_content
    ++ variant_table ++ content ++ variant_foot.

Record document := mk_document {
  source : str;
  output : str;
  title : str
}.

Definition documents : list document :=
  [ mk_document (lit "pattern/5-foldpatt.md")
      (lit "apl_arc_5-fold_pattern_language.md")
      (lit "5-fold Pattern Language");
    mk_document (lit "markdown/apl/aplsummary.md")
      (lit "apl_arc_apl_summary.md")
      (lit "APL Pattern Language Summary");
    mk_document (lit "markdown/apl/Hierarchies - No asterisks.md")
      (lit "apl_arc_hierarchies_no_asterisks.md")
      (lit "Pattern Hierarchies - No Asterisks");
    mk_document (lit "markdown/apl/Hierarchies - One Asterisk.md")
      (lit "apl_arc_hierarchies_one_asterisk.md")
      (lit "Pattern Hierarchies - One Asterisk");
    mk_document (lit "markdown/apl/Hierarchies - Two Asterisks.md")
      (lit "apl_arc_hierarchies_two_asterisks.md")
      (lit "Pattern Hierarchies - Two Asterisks");
    mk_document (lit "markdown/apl/aplbullets.md")
      (lit "apl_arc_patterns_list.md")
      (lit "Patterns List - APL") ].

(** A source path: no such file, a file whose reading raises, or a
    file with its content. *)
Inductive file :=
| Missing
| Unreadable (e : str)
| Readable (content : str).

Definition apl_arc_dir : str := lit "markdown/apl_arc".

(** What is found at [markdown/apl_arc] when the run starts: the
    parent [markdown/] is absent; the parent is there and the name is
    free; the directory is there; the name is taken by something that
    is not a directory. *)
Inductive place :=
| NoParent
| Free
| Directory
| NotDirectory.

(** [apl_arc_dir.mkdir(exist_ok=True)], without [parents]: the
    exception raised, if any. *)
Definition mkdir (p : place) : option str :=
  match p with
  | NoParent => Some (lit "[Errno 2] No such file or directory: 'markdown/apl_arc'")
  | NotDirectory => Some (lit "[Errno 17] File exists: 'markdown/apl_arc'")
  | Free | Directory => None
  end.

(** The state of [create_apl_archetypal_variants]: the list
    [created_files], the files written (path and content, oldest
    first), the lines printed, and the exception that ended the run,
    if any. *)
Record run := mk_run {
  created_files : list str;
  written : list (str * str);
  stdout : list str;
  raised : option str
}.

(** The text used in place of a source that is absent. *)
Definition placeholder_content (d : document) : str :=
  lit "# " ++ title d ++ [nl; nl] ++ lit "This document represents "
    ++ str_lower (title d) ++ lit " organizational principles.".

(** The text used in place of a source that is empty or is [list]. *)
Definition minimal_content (d : document) : str :=
  lit "# " ++ title d ++ [nl; nl] ++ lit "This document represents "
    ++ str_lower (title d) ++ lit " organizational principles and patterns.".

(** The body of the loop over [documents] for one document, from the
    test of [source_path.exists()] to the last [print]. *)
Definition process_document (fs : str -> file) (st : run) (d : document) : run :=
  let output_path := join apl_arc_dir (output d) in
  let finish (printed : list str) (content : str) : run :=
    let content :=
      if match content with [] => true | _ => false end
         || str_eqb content (lit "list")
      then minimal_content d else content in
    let variant_content := generate_archetypal_variant (title d) content in
    mk_run (created_files st ++ [output_path])
           (written st ++ [(output_path, variant_content)])
           (stdout st ++ printed ++ [lit "Created: " ++ output_path])
           None in
  match fs (source d) with
  | Readable c => finish [] (strip c)
  | Unreadable e => mk_run (created_files st) (written st) (stdout st) (Some e)
  | Missing =>
      finish [lit "Warning: Source file " ++ source d
                ++ lit " not found, creating placeholder"]
             (placeholder_content d)
  end.

(** The loop: an exception leaves it at once. *)
Fixpoint process_documents (fs : str -> file) (st : run) (ds : list document) : run :=
  match ds with
  | [] => st
  | d :: ds' =>
      let st' := process_document fs st d in
      match raised st' with
      | Some _ => st'
      | None => process_documents fs st' ds'
      end
  end.

Definition timeless_content : str := lit "# The Timeless Way of Building

The {{settlements}} that are alive are always grown from the inside, by the ordinary acts of {{agents}} who create {{structures}} and {{spaces}} which are adapted to their own nature and their own {{processes}}.

When {{agents}} have the freedom to act in response to the forces they feel directly, they will create {{structures}} which are perfectly adapted to those forces, and, through the repetition of this process, over many years, the whole {{settlement}} will develop into a totality which is at peace with itself, and beautiful.

The quality without a name is the most fundamental quality there is in anything. It is the quality that makes the difference between what is alive and what is dead. It is a quality which belongs to whole systems. It is the source of all real activity, all real freedom, all real life.

In the end, this quality cannot be made, but only generated, indirectly, by the ordinary {{agents}} of a place, doing everything which makes them feel alive.".

Definition readme_content : str :=
  lit "# APL Archetypal Variants

This directory contains archetypal variants of key APL (A Pattern Language) organizational documents.

## What are APL Archetypal Variants?

These are abstracted versions of Christopher Alexander's architectural and urban planning documents where domain-specific architectural terms have been replaced with generic placeholders. This allows the same organizational principles to be applied across different domains:

- **Physical**: Architecture, urban planning, spatial design
- **Social**: Organizations, communities, social systems  
- **Conceptual**: Knowledge systems, information architecture, conceptual frameworks
- **Psychic**: Mental structures, consciousness patterns, psychological organization

## Document Format

Each archetypal variant includes:

1. **Archetypal Pattern**: The document content with domain-specific placeholders
2. **Domain Transformations**: Explanation of how placeholders map to different domains
3. **Usage Instructions**: How to apply the archetypal variant to specific domains
4. **Original Content**: The original APL document for reference

## Generated Variants

The following APL archetypal variants have been generated:

- **apl_arc_5-fold_pattern_language.md**: 5-fold Pattern Language archetypal variant
- **apl_arc_apl_summary.md**: APL Pattern Language Summary archetypal variant
- **apl_arc_hierarchies_no_asterisks.md**: Pattern Hierarchies - No Asterisks archetypal variant
- **apl_arc_hierarchies_one_asterisk.md**: Pattern Hierarchies - One Asterisk archetypal variant
- **apl_arc_hierarchies_two_asterisks.md**: Pattern Hierarchies - Two Asterisks archetypal variant
- **apl_arc_patterns_list.md**: Patterns List - APL archetypal variant
- **apl_arc_timeless_way_of_building.md**: The Timeless Way of Building archetypal variant

## Usage Examples

### Physical Domain Application
Replace `{{settlements}}` with " ++ dq :: lit "towns/cities" ++ dq :: lit ", `{{structures}}` with " ++ dq :: lit "buildings" ++ dq :: lit ", `{{pathways}}` with " ++ dq :: lit "streets" ++ dq :: lit "

### Social Domain Application  
Replace `{{settlements}}` with " ++ dq :: lit "organizations" ++ dq :: lit ", `{{structures}}` with " ++ dq :: lit "institutions" ++ dq :: lit ", `{{pathways}}` with " ++ dq :: lit "communications" ++ dq :: lit "

### Conceptual Domain Application
Replace `{{settlements}}` with " ++ dq :: lit "systems" ++ dq :: lit ", `{{structures}}` with " ++ dq :: lit "concepts" ++ dq :: lit ", `{{pathways}}` with " ++ dq :: lit "associations" ++ dq :: lit "

### Psychic Domain Application
Replace `{{settlements}}` with " ++ dq :: lit "patterns" ++ dq :: lit ", `{{structures}}` with " ++ dq :: lit "mental forms" ++ dq :: lit ", `{{pathways}}` with " ++ dq :: lit "flows" ++ dq :: lit "

## Transformation Principles

The archetypal variants follow these transformation principles:

1. **Spatial → Generic**: Physical spaces become generic spaces/realms
2. **Material → Abstract**: Physical materials become abstract elements  
3. **Human → Agent**: People become generic agents/actors
4. **Activity → Process**: Specific activities become generic processes
5. **Scale → Hierarchical**: Size relationships become hierarchical relationships

---
*Generated archetypal variants from Christopher Alexander's A Pattern Language*
".

(** [create_apl_archetypal_readme]; its second argument is never read. *)
Definition create_apl_archetypal_readme (output_dir : str) (st : run) : run :=
  let readme_path := join output_dir (lit "README.md") in
  mk_run (created_files st)
         (written st ++ [(readme_path, readme_content)])
         (stdout st ++ [lit "Created: " ++ readme_path])
         None.

(** [create_apl_archetypal_variants]; the value returned is
    [created_files].  The directory is created first: when that
    raises, no document is reached. *)
Definition create_apl_archetypal_variants (p : place) (fs : str -> file) : run :=
  match mkdir p with
  | Some e => mk_run [] [] [] (Some e)
  | None =>
      let st := process_documents fs (mk_run [] [] [] None) documents in
      match raised st with
      | Some _ => st
      | None =>
          let timeless_variant :=
            generate_archetypal_variant (lit "The Timeless Way of Building")
                                        timeless_content in
          let timeless_path :=
            join apl_arc_dir (lit "apl_arc_timeless_way_of_building.md") in
          create_apl_archetypal_readme apl_arc_dir
            (mk_run (created_files st ++ [timeless_path])
                    (written st ++ [(timeless_path, timeless_variant)])
                    (stdout st ++ [lit "Created: " ++ timeless_path])
                    None)
      end
  end.

(** The lines printed after the call by the block under
    [if __name__ == "__main__"]. *)
Definition report (created_files : list str) : list str :=
  [nl :: lit "Generated " ++ Uia.decimal (length created_files)
      ++ lit " archetypal variants:"]
    ++ map (fun file_path => lit "  - " ++ file_path) created_files
    ++ [nl :: lit "APL archetypal variants generation complete!"].

(** The script run as a program: what it prints, up to the exception
    if one is raised. *)
Definition script (p : place) (fs : str -> file) : list str :=
  let st := create_apl_archetypal_variants p fs in
  [lit "Generating APL archetypal variants..."] ++ stdout st
    ++ match raised st with
       | Some _ => []
       | None => report (created_files st)
       end.

End Apl.

(* ================================================================== *)
(** * analyze_variations.py *)
(* ================================================================== *)

Module Analyze.

(** [r'## NAME\s*\n\n(.*?)(?=\n## |$)'] *)
Definition section_pattern (name : string) : regex :=
  Seq (Str (lit "## " ++ lit name)) (Seq (Rep Space 0 true)
    (Seq (Str [nl; nl]) (Seq (Group 1 (Rep Dot 0 false))
      (Ahead (Alt (Str ([nl] ++ lit "## ")) Eol))))).

(** [section_patterns]; a [dict] iterates in insertion order. *)
Definition section_patterns : list (str * regex) :=
  map (fun name => (lit name, section_pattern name))
      ["Template"; "Physical"; "Social"; "Conceptual"; "Psychic"]%string.

(** The flags [re.DOTALL | re.MULTILINE]. *)
Definition section_flags : flags := mk_flags false true true.

Definition extract_section (content : str) (pattern : regex) : str :=
  match search pattern content section_flags with
  | Some mo => strip (group mo 1)
  | None => []
  end.

(** [extract_domain_sections]: the dictionary as the list of its
    items. *)
Definition extract_domain_sections (content : str) : list (str * str) :=
  map (fun dp => (fst dp, extract_section content (snd dp))) section_patterns.

(** [sections[domain]] for a key of the dictionary. *)
Fixpoint get (domain : str) (sections : list (str * str)) : str :=
  match sections with
  | [] => []
  | (k, v) :: sections' => if str_eqb k domain then v else get domain sections'
  end.

(** [r'# \d+ - (.+)'] *)
Definition title_re : regex :=
  Seq (Str (lit "# ")) (Seq (Rep Digit 1 true)
    (Seq (Str (lit " - ")) (Group 1 (Rep Dot 1 true)))).

(** The title of a pattern file: the group of the first match, or the
    file name. *)
Definition extract_title (pattern_file content : str) : str :=
  match search title_re content no_flags with
  | Some title_match => group title_match 1
  | None => pattern_file
  end.

Record example := mk_example {
  file : str;
  title : str;
  sections : list (str * str)
}.

Definition sample_patterns : list str :=
  map lit ["12610010.md"; "12610020.md"; "12610030.md"; "12610040.md";
           "12610050.md"]%string.

(** A sample file as [analyze_pattern_variations] meets it: absent,
    present and raising when opened or read, or present with its
    content. *)
Inductive sample :=
| Missing
| Unreadable (e : str)
| Readable (content : str).

(** How [analyze_pattern_variations] ends: it returns [examples], or
    the exception of a read leaves it, there being no handler. *)
Inductive analysis :=
| Examples (examples : list example)
| Raised (e : str).

(** The loop over [sample_patterns], with the list [examples] built
    so far. *)
Fixpoint analyze_samples (fs : str -> sample) (examples : list example)
         (pattern_files : list str) : analysis :=
  match pattern_files with
  | [] => Examples examples
  | pattern_file :: pattern_files' =>
      match fs pattern_file with
      | Missing => analyze_samples fs examples pattern_files'
      | Unreadable e => Raised e
      | Readable content =>
          let example :=
            mk_example pattern_file (extract_title pattern_file content)
                       (extract_domain_sections content) in
          analyze_samples fs (examples ++ [example]) pattern_files'
      end
  end.

Definition analyze_pattern_variations (fs : str -> sample) : analysis :=
  analyze_samples fs [] sample_patterns.

(** [d[key]] for a dictionary given by its items: [None] stands for
    the [KeyError] that the subscript raises. *)
Fixpoint item (key : str) (d : list (str * str)) : option str :=
  match d with
  | [] => None
  | (k, v) :: d' => if str_eqb k key then Some v else item key d'
  end.

(** How [create_variation_examples_report] ends: it returns, or a
    subscript raises [KeyError]; either way the file is closed with
    the text written so far. *)
Inductive report :=
| Written (text : str)
| KeyError (text : str) (key : str).

Definition bind (r : report) (k : str -> report) : report :=
  match r with
  | Written text => k text
  | KeyError _ _ => r
  end.

(** [if sections[key]:] and the two writes under it. *)
Definition write_section (heading key : str) (sections : list (str * str))
           (text : str) : report :=
  match item key sections with
  | None => KeyError text key
  | Some body =>
      if truthy (Some body)
      then Written (text ++ lit "### " ++ heading ++ [nl]
                         ++ lit "> " ++ body ++ [nl; nl])
      else Written text
  end.

Definition domains : list str :=
  map lit ["Physical"; "Social"; "Conceptual"; "Psychic"]%string.

(** The body of the loop over [examples]. *)
Definition write_example (text : str) (e : example) : report :=
  let text := text ++ lit "## " ++ title e ++ [nl; nl]
                   ++ lit "*Source: " ++ file e ++ lit "*" ++ [nl; nl] in
  bind (write_section (lit "Template (Generic)") (lit "Template") (sections e) text)
    (fun text =>
       bind (fold_left
               (fun r domain =>
                  bind r (write_section (domain ++ lit " Domain") domain (sections e)))
               domains (Written text))
         (fun text => Written (text ++ lit "---" ++ [nl; nl]))).

Definition report_head : str :=
  lit "# Domain Variation Examples" ++ [nl; nl]
    ++ lit "Examples showing how the same organizational pattern concept is expressed differently across the 5 domains."
    ++ [nl; nl].

(** [create_variation_examples_report]: what the output file holds. *)
Definition create_variation_examples_report (examples : list example) : report :=
  fold_left (fun r e => bind r (fun text => write_example text e))
            examples (Written report_head).

End Analyze.

(* ================================================================== *)
(** * Notions used in the statements *)
(* ================================================================== *)

Module Notions.

(** The character before a position that lies [w] after a position
    whose previous character is [b]. *)
Definition last_of (w : str) (b : option ascii) : option ascii :=
  fold_left (fun _ x => Some x) w b.

(** [c'] is the position of [c] moved over the text [w]. *)
Definition reaches (c c' : cursor) (w : str) : Prop :=
  rest c = w ++ rest c' /\ before c' = last_of w (before c).

(** The flags of both engines: [re.IGNORECASE]. *)
Definition ic : flags := mk_flags true false false.

(** Patterns made of literal runs, alternation and grouping only, and
    the literal runs they offer, in the order tried. *)
Fixpoint simple (r : regex) : bool :=
  match r with
  | Str _ => true
  | Alt r1 r2 => simple r1 && simple r2
  | Group _ r1 => simple r1
  | _ => false
  end.

Fixpoint forms (r : regex) : list str :=
  match r with
  | Str t => [t]
  | Alt r1 r2 => forms r1 ++ forms r2
  | Group _ r1 => forms r1
  | _ => []
  end.

(** The surface forms of a pattern [\b...\b]. *)
Definition surface_forms (r : regex) : list str :=
  match r with
  | Seq Bound (Seq x Bound) => forms x
  | _ => []
  end.

(** A surface form that starts and ends with a word character. *)
Definition wordy (t : str) : bool :=
  word_opt (hd_error t) && word_opt (hd_error (rev t)).

(** A pattern [\b(t1|...|tn)\b] whose alternatives are such forms. *)
Definition word_pattern (r : regex) : bool :=
  match r with
  | Seq Bound (Seq x Bound) => simple x && forallb wordy (forms x)
  | _ => false
  end.

(** The patterns of the two rule tables. *)
Definition apl_patterns : list regex := map fst Apl.architectural_terms.

Definition uia_patterns : list regex :=
  map (fun rule => Uia.term_pattern (fst rule)) Uia.replaceable_terms.

(** Equality up to case. *)
Definition same_word (a b : str) : Prop := str_lower a = str_lower b.

Definition all_word (s : str) : bool := forallb is_word s.

(** The two engines as rule lists: a pattern and its placeholder. *)
Definition apl_rules : list (regex * str) := Apl.architectural_terms.

Definition uia_rules : list (regex * str) :=
  map (fun rule => (Uia.term_pattern (fst rule), snd rule)) Uia.replaceable_terms.

(** The loop shared by the two engines: one [re.sub] per rule, each
    on the result of the one before. *)
Definition rewrite_all (rules : list (regex * str)) (text : str) : str :=
  fold_left (fun t rule => sub (fst rule) (snd rule) t ic) rules text.

Definition brace : ascii := "{"%char.

(** Number of opening braces in a text. *)
Definition braces (s : str) : nat := count_occ ascii_dec s brace.

(** A surface form without a brace. *)
Definition plain (t : str) : bool := forallb (fun p => negb (eqc p brace)) t.

(** A rule of the shape both tables use: a word pattern over plain
    forms, replaced by a text with a brace. *)
Definition placeholder_rule (rule : regex * str) : bool :=
  word_pattern (fst rule) && forallb plain (surface_forms (fst rule))
    && (0 <? braces (snd rule)).

(** A text given by its lines, joined by newlines. *)
Fixpoint joined (l : list string) : str :=
  match l with
  | [] => []
  | [x] => lit x
  | x :: l' => lit x ++ nl :: joined l'
  end.




(** The flags of the two searches of [extract_template_content]. *)
Definition multiline : flags := mk_flags false true false.
Definition dotall : flags := mk_flags false false true.

(** A pattern file with a title line and no Template section, and a
    complete one. *)
Definition untemplated : str :=
  joined ["# 7 - Untitled"; ""; "## Physical"; ""; "Some land."; ""]%string.

Definition complete : str :=
  joined ["# 12 - Independent domains"; ""; "## Template"; "";
          "Domains may overlap."; ""; "## Physical"; ""; "Regions."; ""]%string.

(** What [main] keeps besides the printed lines. *)
Definition outcome (st : Uia.run) : nat * nat * list (str * str) :=
  (Uia.generated_count st, Uia.no_template_count st, Uia.written st).

(** A character other than the newline. *)
Definition not_nl (x : ascii) : bool := negb (eqc x nl).

(** A title [# <id> - <name>] read at the head of a text: the marker
    and a blank, a run of digits, a dash between two blanks, and a
    name that runs up to the end of the line and is not empty. *)
Definition title_at (s : str) : option (str * str) :=
  if starts_with (lit "# ") s then
    let s1 := skipn 2 s in
    let n := run is_digit s1 in
    let s2 := skipn n s1 in
    if (1 <=? n) && starts_with (lit " - ") s2 then
      let s3 := skipn 3 s2 in
      let k := run not_nl s3 in
      if 1 <=? k then Some (firstn n s1, firstn k s3) else None
    else None
  else None.

(** The lines of a text, as [s.split('\n')]. *)
Fixpoint split_lines (s : str) : list str :=
  match s with
  | [] => [[]]
  | x :: s' =>
      if eqc x nl then [] :: split_lines s'
      else match split_lines s' with
           | l :: ls => (x :: l) :: ls
           | [] => [[x]]
           end
  end.

(** The title of the first line that is a title. *)
Fixpoint first_title_line (ls : list str) : option (str * str) :=
  match ls with
  | [] => None
  | l :: ls' =>
      match title_at l with
      | Some t => Some t
      | None => first_title_line ls'
      end
  end.

(** The title that starts earliest in a text, at any position. *)
Fixpoint first_title_anywhere (s : str) : option (str * str) :=
  match title_at s with
  | Some t => Some t
  | None =>
      match s with
      | [] => None
      | _ :: s' => first_title_anywhere s'
      end
  end.

(** The two groups of a match of a title pattern. *)
Definition id_and_name (mo : match_obj) : str * str := (group mo 1, group mo 2).

(** The first two groups at a cursor. *)
Definition groups_of (c : cursor) : option str * option str :=
  (lookup 1 (groups c), lookup 2 (groups c)).

(** What follows a line: nothing, or a newline. *)
Definition line_end (t : str) : Prop :=
  match t with
  | [] => True
  | x :: _ => x = nl
  end.

(** A position at the start of a line, by the character before it. *)
Definition line_start (b : option ascii) : bool :=
  match b with
  | None => true
  | Some x => eqc x nl
  end.

(** Patterns that capture nothing. *)
Fixpoint groupless (r : regex) : bool :=
  match r with
  | Seq r1 r2 | Alt r1 r2 => groupless r1 && groupless r2
  | Group _ _ => false
  | Ahead r1 => groupless r1
  | _ => true
  end.

(** The shape of the section patterns: a heading, [\s*], an empty
    line, a lazy body [(.+?)] or [(.*?)], and a lookahead. *)
Definition section_shape (head : str) (lo : nat) (stop : regex) : regex :=
  Seq (Str head) (Seq (Rep Space 0 true) (Seq (Str [nl; nl])
    (Seq (Group 1 (Rep Dot lo false)) (Ahead stop)))).

(** What ends the body of the Template section in the generator: an
    empty line followed by [##], or an empty line that ends the text
    (with or without one more newline). *)
Definition ends_template (t : str) : bool :=
  starts_with (nl :: nl :: lit "##") t
  || str_eqb t [nl; nl] || str_eqb t [nl; nl; nl].



(** The steps the loop of [re.sub] can still take: two for each
    character left, and one or two at the end. *)
Definition steps_left (must_advance : bool) (s : str) : nat :=
  2 * length s + (if must_advance then 1 else 2).

(** [Replaced r repl b s out]: [out] is the text [s], standing after the
    character [b], in which some spans are replaced by [repl]; each
    span reads a surface form of [r] and has no word character just
    before it nor just after it. *)
Inductive Replaced (r : regex) (repl : str) : option ascii -> str -> str -> Prop :=
| replaced_end (b : option ascii) : Replaced r repl b [] []
| replaced_copy (b : option ascii) (x : ascii) (s out : str) :
    Replaced r repl (Some x) s out -> Replaced r repl b (x :: s) (x :: out)
| replaced_span (b : option ascii) (t w s out : str) :
    In t (surface_forms r) -> same_word w t -> w <> [] ->
    word_opt b = false -> word_opt (hd_error s) = false ->
    Replaced r repl (last_of w b) s out ->
    Replaced r repl b (w ++ s) (repl ++ out).

(** The cursor [c] in the subject folded to lower case. *)
Definition low_cursor (c : cursor) : cursor :=
  mk_cursor (option_map lower (before c)) (str_lower (rest c))
            (map (fun g => (fst g, str_lower (snd g))) (groups c)).

(** A letter. *)
Definition is_alpha (x : ascii) : bool := is_upper x || is_lower x.

(** A letter or a blank. *)
Definition letter_or_blank (p : ascii) : bool := is_alpha p || eqc p " "%char.

(** Patterns made of [\b], literal runs of letters and blanks,
    sequence, alternation and grouping. *)
Fixpoint lettered (r : regex) : bool :=
  match r with
  | Str l => forallb letter_or_blank l
  | Bound => true
  | Seq r1 r2 | Alt r1 r2 => lettered r1 && lettered r2
  | Group _ r1 => lettered r1
  | _ => false
  end.

(** A rule whose pattern is a lettered word pattern. *)
Definition lettered_rule (rule : regex * str) : bool :=
  word_pattern (fst rule) && lettered (fst rule).

(** The cursor [c] in a subject that goes on with [x] and [t]. *)
Definition ext_cursor (x : ascii) (t : str) (c : cursor) : cursor :=
  mk_cursor (before c) (rest c ++ x :: t) (groups c).

(** Number of occurrences of a character in a text. *)
Definition occurrences (x : ascii) (s : str) : nat := count_occ ascii_dec s x.

(** The characters of the placeholders: letters, braces and the
    hyphen. *)
Definition token_char (q : ascii) : bool := is_alpha q || existsb (eqc q) (lit "{}-").

(** A character that is no letter and none of blank, braces and
    hyphen. *)
Definition inert (x : ascii) : bool :=
  negb (is_alpha x) && negb (existsb (eqc x) (lit " {}-")).

(** A placeholder with two opening and two closing braces. *)
Definition two_braces (repl : str) : bool :=
  (occurrences "{"%char repl =? 2) && (occurrences "}"%char repl =? 2).

(** A text without letters. *)
Definition letterless (s : str) : bool := forallb (fun x => negb (is_alpha x)) s.

(** The file that [main] writes for the pattern [pattern_id]. *)
Definition arc_file (pattern_id : str) : str :=
  join Uia.arc_dir (lit "arc_" ++ pattern_id ++ lit ".md").

(** The files that the loop of [main] writes, without the README. *)
Definition pattern_files (st : Uia.run) : list (str * str) := removelast (Uia.written st).

(** A text of white space only. *)
Definition blank (s : str) : bool := forallb is_space s.

(** The path of the file written for a document. *)
Definition output_path (d : Apl.document) : str := join Apl.apl_arc_dir (Apl.output d).

(** A source that exists and cannot be read. *)
Definition unreadable (fs : str -> Apl.file) (d : Apl.document) : bool :=
  match fs (Apl.source d) with
  | Apl.Unreadable _ => true
  | _ => false
  end.

(** The seven paths of a complete run. *)
Definition all_variants : list str :=
  map output_path Apl.documents
    ++ [join Apl.apl_arc_dir (lit "apl_arc_timeless_way_of_building.md")].

(** A closed Template section of a text: the heading [## Template]
    after [pre], white space [ws], an empty line, a body [g] that is
    not empty, and after it an empty line followed by [##] or an empty
    line that ends the text. *)
Definition template_section (content pre ws g post : str) : Prop :=
  content = pre ++ lit "## Template" ++ ws ++ [nl; nl] ++ g ++ post /\
  blank ws = true /\ g <> [] /\ ends_template post = true.

(** The way [pre1 ++ ## Template ++ ws1 ++ ...] of reading a closed
    Template section comes before the way [pre2 ++ ...]: its heading
    is further left; or it is the same heading, and more white space
    is taken after it; or that is the same too, and the body is not
    longer. *)
Definition reads_before (pre1 ws1 g1 pre2 ws2 g2 : str) : Prop :=
  length pre1 < length pre2 \/
  (length pre1 = length pre2 /\
   (length ws2 < length ws1 \/
    (length ws1 = length ws2 /\ length g1 <= length g2))).

(** The body of the first closed Template section of a text: [g] is
    the body of a closed Template section, read in the way that comes
    before every other. *)
Definition first_template_body (content g : str) : Prop :=
  exists pre ws post,
    template_section content pre ws g post /\
    forall pre' ws' g' post',
      template_section content pre' ws' g' post' ->
      reads_before pre ws g pre' ws' g'.

(** A text without closed Template section. *)
Definition no_template_section (content : str) : Prop :=
  forall pre ws g post, ~ template_section content pre ws g post.

(** A text without newline. *)
Definition one_line (s : str) : bool := forallb not_nl s.

(** The block of the report for a section: nothing when the body is
    empty. *)
Definition section_block (heading body : str) : str :=
  match body with
  | [] => []
  | _ => lit "### " ++ heading ++ [nl] ++ lit "> " ++ body ++ [nl; nl]
  end.

(** The part of the report for an example whose sections are all
    there. *)
Definition example_block (e : Analyze.example) : str :=
  lit "## " ++ Analyze.title e ++ [nl; nl]
    ++ lit "*Source: " ++ Analyze.file e ++ lit "*" ++ [nl; nl]
    ++ section_block (lit "Template (Generic)")
         (Analyze.get (lit "Template") (Analyze.sections e))
    ++ flat_map (fun domain =>
                   section_block (domain ++ lit " Domain")
                                 (Analyze.get domain (Analyze.sections e)))
                Analyze.domains
    ++ lit "---" ++ [nl; nl].

(** The first lines written for an example. *)
Definition example_head (e : Analyze.example) : str :=
  lit "## " ++ Analyze.title e ++ [nl; nl]
    ++ lit "*Source: " ++ Analyze.file e ++ lit "*" ++ [nl; nl].

(** An example whose sections have the five keys. *)
Definition complete_sections (e : Analyze.example) : bool :=
  forallb (fun key => match Analyze.item key (Analyze.sections e) with
                      | Some _ => true
                      | None => false
                      end)
          (lit "Template" :: Analyze.domains).

(** Does the sample file exist? *)
Definition exists_in (fs : str -> Analyze.sample) (pattern_file : str) : bool :=
  match fs pattern_file with
  | Analyze.Missing => false
  | _ => true
  end.

(** A sample file that exists and cannot be read. *)
Definition raises_in (fs : str -> Analyze.sample) (pattern_file : str) : bool :=
  match fs pattern_file with
  | Analyze.Unreadable _ => true
  | _ => false
  end.

(** The course of one [re.sub] with a word rule over the text [s],
    standing after the character [b], and its output: at each
    position the character is copied, the rule matching nothing
    there, or a span between two positions without word character is
    replaced. *)
Inductive Scanned (r : regex) (repl : str) : option ascii -> str -> str -> Prop :=
| scanned_end (b : option ascii) : Scanned r repl b [] []
| scanned_copy (b : option ascii) (x : ascii) (s out : str) :
    m ic r (mk_cursor b (x :: s) []) = [] ->
    Scanned r repl (Some x) s out -> Scanned r repl b (x :: s) (x :: out)
| scanned_span (b : option ascii) (w s out : str) :
    w <> [] -> word_opt b = false -> word_opt (last_of w b) = true ->
    word_opt (hd_error s) = false ->
    Scanned r repl (last_of w b) s out ->
    Scanned r repl b (w ++ s) (repl ++ out).

(** The pattern [r] matches at no position of the text [s], which
    stands after the character [b]. *)
Definition nowhere (r : regex) (b : option ascii) (s : str) : Prop :=
  forall p q, s = p ++ q -> m ic r (mk_cursor (last_of p b) q []) = [].

(** A placeholder that starts with an opening and ends with a closing
    brace. *)
Definition braced (repl : str) : bool :=
  match repl, rev repl with
  | x :: _, y :: _ => eqc x "{"%char && eqc y "}"%char
  | _, _ => false
  end.

(** The form [t] reads nowhere in the placeholder [repl]. *)
Definition absent (t repl : str) : bool :=
  forallb (fun j => negb (lit_match ic t (skipn j (removelast repl))))
          (seq 0 (length repl)).

(** The rules of the first generator without the last two. *)
Definition uia_live_rules : list (regex * str) := firstn 10 uia_rules.

(** The rules of the second generator, the ninth without its form
    [building process]. *)
Definition apl_live_rules : list (regex * str) :=
  firstn 8 apl_rules
    ++ [(Apl.words "construction" ["development"]%string, lit "{{creation}}")]
    ++ skipn 9 apl_rules.

(** The position after a span does not start a word, or the
    characters before the position are the same in the text and in
    the output. *)
Definition aligned (bs bo : option ascii) (s : str) : Prop :=
  bo = bs \/ word_opt (hd_error s) = false.

(** The form [t] reads as a whole word, up to case, in the text
    [p ++ q] at the end of [p]. *)
Definition whole_word_at (t p q : str) : Prop :=
  m ic (Uia.term_pattern t) (mk_cursor (last_of p None) q []) <> [].

(** The pattern [r] matches in the text [s], which stands after the
    character [b], only at positions whose previous character
    satisfies [ok]. *)
Definition only_after (r : regex) (ok : option ascii -> Prop)
           (b : option ascii) (s : str) : Prop :=
  forall p q, s = p ++ q -> m ic r (mk_cursor (last_of p b) q []) <> [] ->
              ok (last_of p b).

(** The previous character is an opening brace. *)
Definition after_brace (b : option ascii) : Prop := b = Some "{"%char.

(** The form [t] reads as a whole word in the placeholder [repl] at
    the offset [j]. *)
Definition word_reads (t repl : str) (j : nat) : bool :=
  lit_match ic t (skipn j (removelast repl))
  && negb (word_opt (hd_error (skipn (j + length t) repl))).

(** The form [t] is a whole word nowhere in the placeholder. *)
Definition absent_word (t repl : str) : bool :=
  forallb (fun j => negb (word_reads t repl j)) (seq 0 (length repl)).

(** The form [t] is a whole word in the placeholder only just after
    an opening brace. *)
Definition guarded_in (t repl : str) : bool :=
  forallb (fun j => negb (word_reads t repl j)
                    || match hd_error (rev (firstn j repl)) with
                       | Some x => eqc x "{"%char
                       | None => false
                       end)
          (seq 0 (length repl)).

(** A rule that can neither bring in nor uncover the whole word [t]:
    a word rule whose placeholder is braced and does not hold it. *)
Definition keeps_away (t : str) (rule : regex * str) : bool :=
  word_pattern (fst rule) && braced (snd rule) && absent_word t (snd rule).

(** The same for a placeholder that holds the word only just after an
    opening brace. *)
Definition keeps_guard (t : str) (rule : regex * str) : bool :=
  word_pattern (fst rule) && braced (snd rule) && guarded_in t (snd rule).

(** A form of letters and blanks that is a surface form of some rule,
    this rule and the later ones being kept by [keeps]. *)
Fixpoint settled (keeps : regex * str -> bool) (t : str)
         (rules : list (regex * str)) : bool :=
  match rules with
  | [] => false
  | rule :: rules' =>
      (existsb (str_eqb t) (surface_forms (fst rule)) && keeps rule
         && forallb keeps rules')
      || settled keeps t rules'
  end.

Definition word_form (t : str) : bool := wordy t && forallb letter_or_blank t.

(** The surface forms of a rule table. *)
Definition all_forms (rules : list (regex * str)) : list str :=
  flat_map (fun rule => surface_forms (fst rule)) rules.

(** The forms of the second generator that one of its placeholders
    holds. *)
Definition token_words : list str := map lit ["regions"; "structures"; "spaces"]%string.

(** [\b(a|t u|d)\b] and the same without its middle form. *)
Definition three_forms (a tu d : str) : regex :=
  Seq Bound (Seq (Group 1 (Alt (Str a) (Alt (Str tu) (Str d)))) Bound).

Definition two_forms (a d : str) : regex :=
  Seq Bound (Seq (Group 1 (Alt (Str a) (Str d))) Bound).

End Notions.

Import Notions.

(* ================================================================== *)
(** * Characters and strings: basic facts *)
(* ================================================================== *)

Section Characters.

Lemma eqc_eq (a b : ascii) : eqc a b = true <-> a = b.
Proof. apply Ascii.eqb_eq. Qed.

Lemma eqc_refl (a : ascii) : eqc a a = true.
Proof. apply Ascii.eqb_refl. Qed.

Lemma is_word_lower (x : ascii) : is_word (lower x) = is_word x.
Proof. destruct x as [[] [] [] [] [] [] [] []]; vm_compute; reflexivity. Qed.

Lemma is_space_not_word (x : ascii) : is_space x = true -> is_word x = false.
Proof. destruct x as [[] [] [] [] [] [] [] []]; vm_compute; congruence. Qed.

Lemma eq_char_word (f : flags) (p x : ascii) :
  eq_char f p x = true -> is_word x = is_word p.
Proof.
  unfold eq_char. destruct (IGNORECASE f); intros H; apply eqc_eq in H.
  - rewrite <- (is_word_lower x), <- (is_word_lower p). now rewrite H.
  - now subst.
Qed.

Lemma str_eqb_eq (a b : str) : str_eqb a b = true <-> a = b.
Proof.
  revert b. induction a as [|x a IH]; intros [|y b]; simpl; split;
    try congruence; try reflexivity.
  - intros H. apply andb_true_iff in H. destruct H as [H1 H2].
    apply eqc_eq in H1. apply IH in H2. congruence.
  - intros H. injection H as -> ->. rewrite eqc_refl. simpl. now apply IH.
Qed.

End Characters.

(* ================================================================== *)
(** * The matcher: how a match sits in the subject *)
(* ================================================================== *)

Section Matcher.

Variable f : flags.

Lemma last_of_app (w1 w2 : str) (b : option ascii) :
  last_of (w1 ++ w2) b = last_of w2 (last_of w1 b).
Proof. unfold last_of. now rewrite fold_left_app. Qed.

Lemma last_of_snoc (w : str) (x : ascii) (b : option ascii) :
  last_of (w ++ [x]) b = Some x.
Proof. now rewrite last_of_app. Qed.

Lemma reaches_refl (c : cursor) : reaches c c [].
Proof. now split. Qed.

Lemma reaches_trans (c1 c2 c3 : cursor) (w1 w2 : str) :
  reaches c1 c2 w1 -> reaches c2 c3 w2 -> reaches c1 c3 (w1 ++ w2).
Proof.
  intros [H1 H2] [H3 H4]. split.
  - now rewrite H1, H3, app_assoc.
  - now rewrite last_of_app, <- H2.
Qed.

Lemma reaches_advance (n : nat) (c : cursor) :
  reaches c (advance n c) (firstn n (rest c)).
Proof. split; simpl; [now rewrite firstn_skipn | reflexivity]. Qed.

Lemma reaches_length (c c' : cursor) (w : str) :
  reaches c c' w -> consumed c c' = length w.
Proof.
  intros [H _]. unfold consumed. rewrite H, length_app. lia.
Qed.

Lemma reaches_inj (c c' : cursor) (w1 w2 : str) :
  reaches c c' w1 -> reaches c c' w2 -> w1 = w2.
Proof.
  intros [H1 _] [H2 _]. rewrite H1 in H2. now apply app_inv_tail in H2.
Qed.

(** Every match ends at a position further in the same subject. *)
Lemma m_reaches (r : regex) :
  forall c c', In c' (m f r c) -> exists w, reaches c c' w.
Proof.
  induction r as [l|k| | | |r1 IH1 r2 IH2|r1 IH1 r2 IH2|k lo g|n r IH|r IH];
    intros c c' H; simpl in H.
  - destruct (lit_match f l (rest c)); [|easy].
    destruct H as [<-|[]]. eexists. apply reaches_advance.
  - destruct (rest c) as [|x s] eqn:E; [easy|].
    destruct (in_cls f k x); [|easy].
    destruct H as [<-|[]]. eexists. apply reaches_advance.
  - destruct (at_boundary c); [|easy]. destruct H as [<-|[]].
    exists []. apply reaches_refl.
  - destruct (at_bol f c); [|easy]. destruct H as [<-|[]].
    exists []. apply reaches_refl.
  - destruct (at_eol f c); [|easy]. destruct H as [<-|[]].
    exists []. apply reaches_refl.
  - apply in_flat_map in H. destruct H as (c1 & H1 & H2).
    destruct (IH1 _ _ H1) as [w1 R1]. destruct (IH2 _ _ H2) as [w2 R2].
    exists (w1 ++ w2). eapply reaches_trans; eauto.
  - apply in_app_or in H. destruct H as [H|H]; eauto.
  - apply in_map_iff in H. destruct H as (n & <- & _).
    eexists. apply reaches_advance.
  - apply in_map_iff in H. destruct H as (c1 & <- & H1).
    destruct (IH _ _ H1) as [w R]. exists w. exact R.
  - destruct (m f r c) as [|c1 l]; [easy|]. destruct H as [<-|[]].
    exists []. now split.
Qed.

Lemma match_here_in (r : regex) (adv : bool) (c c' : cursor) :
  match_here f r adv c = Some c' -> In c' (m f r c).
Proof.
  unfold match_here. intros H.
  assert (In c' (filter (fun c' => negb (adv && (consumed c c' =? 0))) (m f r c))) as H'.
  { destruct (filter _ _); simpl in H; [easy|]. injection H as ->. now left. }
  apply filter_In in H'. tauto.
Qed.

Lemma match_here_none (r : regex) (c : cursor) :
  match_here f r false c = None <-> m f r c = [].
Proof.
  unfold match_here. simpl.
  rewrite forallb_filter_id by now apply forallb_forall.
  destruct (m f r c); simpl; split; congruence.
Qed.

Lemma match_here_no_advance (r : regex) (c : cursor) :
  match_here f r false c = hd_error (m f r c).
Proof.
  unfold match_here. simpl.
  now rewrite forallb_filter_id by now apply forallb_forall.
Qed.

End Matcher.

(* ================================================================== *)
(** * Patterns of the form [\b(t1|...|tn)\b] *)
(* ================================================================== *)

Section WordPatterns.

Lemma lit_match_split (f : flags) (t s : str) :
  lit_match f t s = true ->
  exists w s', s = w ++ s' /\ length w = length t /\
               Forall2 (fun p x => eq_char f p x = true) t w.
Proof.
  revert s. induction t as [|p t IH]; intros s H.
  - exists [], s. repeat split. constructor.
  - destruct s as [|x s]; simpl in H; [easy|].
    apply andb_true_iff in H. destruct H as [H1 H2].
    destruct (IH _ H2) as (w & s' & -> & L & F).
    exists (x :: w), s'. repeat split; simpl; [congruence|].
    now constructor.
Qed.

Lemma lit_match_app (f : flags) (t w s' : str) :
  Forall2 (fun p x => eq_char f p x = true) t w -> lit_match f t (w ++ s') = true.
Proof.
  induction 1 as [|p x t w H F IH]; simpl; [reflexivity|].
  now rewrite H, IH.
Qed.

Lemma same_word_of_match (t w : str) :
  Forall2 (fun p x => eq_char ic p x = true) t w -> same_word w t.
Proof.
  unfold same_word. induction 1 as [|p x t w H F IH]; simpl; [reflexivity|].
  unfold eq_char in H. simpl in H. apply eqc_eq in H. congruence.
Qed.

Lemma match_of_same_word (t w : str) :
  same_word w t -> Forall2 (fun p x => eq_char ic p x = true) t w.
Proof.
  unfold same_word. revert w. induction t as [|p t IH]; intros [|x w] H;
    simpl in H; try discriminate; constructor.
  - injection H as H _. unfold eq_char. simpl. apply eqc_eq. congruence.
  - apply IH. now injection H.
Qed.

Lemma firstn_length_app (A : Type) (w s : list A) : firstn (length w) (w ++ s) = w.
Proof. now rewrite firstn_app, Nat.sub_diag, firstn_all, app_nil_r. Qed.

Lemma skipn_length_app (A : Type) (w s : list A) : skipn (length w) (w ++ s) = s.
Proof. now rewrite skipn_app, Nat.sub_diag, skipn_all. Qed.

(** What a match of a simple pattern is: one of its literal runs,
    read at the head of the text. *)
Lemma m_simple_sound (f : flags) (r : regex) :
  simple r = true ->
  forall c c', In c' (m f r c) ->
    exists t w, In t (forms r) /\ Forall2 (fun p x => eq_char f p x = true) t w /\
                reaches c c' w.
Proof.
  induction r as [l|k| | | |r1 IH1 r2 IH2|r1 IH1 r2 IH2|k lo g|n r IH|r IH];
    simpl; try discriminate; intros S c c' H.
  - destruct (lit_match f l (rest c)) eqn:E; [|easy].
    destruct H as [<-|[]]. destruct (lit_match_split _ _ _ E) as (w & s' & Hs & L & F).
    exists l, w. split; [now left|]. split; [exact F|].
    rewrite <- L. pose proof (reaches_advance (length w) c) as R.
    now rewrite Hs, firstn_length_app in R.
  - apply andb_true_iff in S. destruct S as [S1 S2].
    apply in_app_or in H. destruct H as [H|H].
    + destruct (IH1 S1 _ _ H) as (t & w & I & F & R).
      exists t, w. split; [apply in_or_app; now left|]. now split.
    + destruct (IH2 S2 _ _ H) as (t & w & I & F & R).
      exists t, w. split; [apply in_or_app; now right|]. now split.
  - apply in_map_iff in H. destruct H as (c1 & <- & H).
    destruct (IH S _ _ H) as (t & w & I & F & R).
    exists t, w. repeat split; try assumption; apply R.
Qed.

Lemma m_simple_complete (f : flags) (r : regex) :
  simple r = true ->
  forall c t w s', In t (forms r) -> Forall2 (fun p x => eq_char f p x = true) t w ->
    rest c = w ++ s' ->
    exists c', In c' (m f r c) /\ reaches c c' w.
Proof.
  induction r as [l|k| | | |r1 IH1 r2 IH2|r1 IH1 r2 IH2|k lo g|n r IH|r IH];
    simpl; try discriminate; intros S c t w s' I F E.
  - destruct I as [<-|[]]. rewrite E, (lit_match_app _ _ _ s' F).
    eexists. split; [now left|].
    rewrite (Forall2_length F). pose proof (reaches_advance (length w) c) as R.
    now rewrite E, firstn_length_app in R.
  - apply andb_true_iff in S. destruct S as [S1 S2].
    apply in_app_or in I. destruct I as [I|I].
    + destruct (IH1 S1 c _ _ _ I F E) as (c' & H & R).
      exists c'. split; [apply in_or_app; now left|assumption].
    + destruct (IH2 S2 c _ _ _ I F E) as (c' & H & R).
      exists c'. split; [apply in_or_app; now right|assumption].
  - destruct (IH S c _ _ _ I F E) as (c' & H & R).
    exists (capture n c c'). split; [now apply in_map|].
    split; apply R.
Qed.

Lemma word_pattern_inv (r : regex) :
  word_pattern r = true ->
  exists x, r = Seq Bound (Seq x Bound) /\ simple x = true /\
            forallb wordy (forms x) = true /\ surface_forms r = forms x.
Proof.
  destruct r as [| | | | |r1 r2| | | |]; try discriminate.
  destruct r1; try discriminate.
  destruct r2 as [| | | | |x r3| | | |]; try discriminate.
  destruct r3; try discriminate.
  simpl. intros H. apply andb_true_iff in H. exists x. tauto.
Qed.

Lemma Forall2_rev_both (A B : Type) (R : A -> B -> Prop) (l : list A) (l' : list B) :
  Forall2 R l l' -> Forall2 R (rev l) (rev l').
Proof.
  induction 1; simpl; [constructor|].
  apply Forall2_app; [assumption|]. now repeat constructor.
Qed.

Lemma last_of_rev (w : str) (b : option ascii) :
  w <> [] -> last_of w b = hd_error (rev w).
Proof.
  destruct w as [|x w] using rev_ind; [easy|]. intros _.
  now rewrite last_of_snoc, rev_app_distr.
Qed.

(** A text that reads as a wordy form starts and ends with a word
    character. *)
Lemma wordy_match (f : flags) (t w : str) :
  wordy t = true -> Forall2 (fun p x => eq_char f p x = true) t w ->
  w <> [] /\ word_opt (hd_error w) = true /\ word_opt (hd_error (rev w)) = true.
Proof.
  unfold wordy. intros H F. apply andb_true_iff in H. destruct H as [H1 H2].
  pose proof (Forall2_rev_both _ _ _ _ _ F) as F'.
  destruct F as [|p x t w E F]; [discriminate|].
  split; [discriminate|]. split.
  - simpl in *. now rewrite (eq_char_word _ _ _ E).
  - destruct F' as [|p' x' t' w' E' F']; [discriminate|].
    simpl in *. now rewrite (eq_char_word _ _ _ E').
Qed.

Lemma hd_error_app (A : Type) (w s : list A) :
  w <> [] -> hd_error (w ++ s) = hd_error w.
Proof. now destruct w. Qed.

(** Every match of a word pattern reads one of its surface forms and
    has no word character on either side. *)
Lemma word_match_sound (f : flags) (r : regex) (c c' : cursor) :
  word_pattern r = true -> In c' (m f r c) ->
  exists t w, In t (surface_forms r) /\
              Forall2 (fun p x => eq_char f p x = true) t w /\
              w <> [] /\ reaches c c' w /\
              word_opt (before c) = false /\
              word_opt (hd_error (rest c')) = false.
Proof.
  intros W H. destruct (word_pattern_inv _ W) as (x & -> & S & Wy & ->).
  simpl in H. destruct (at_boundary c) eqn:B1; simpl in H; [|easy].
  rewrite app_nil_r in H. apply in_flat_map in H. destruct H as (c1 & H1 & H2).
  destruct (at_boundary c1) eqn:B2; [|easy]. destruct H2 as [<-|[]].
  destruct (m_simple_sound _ _ S _ _ H1) as (t & w & I & F & R).
  assert (wordy t = true) as Wt by (eapply forallb_forall in Wy; eauto).
  destruct (wordy_match _ _ _ Wt F) as (N & Hh & Hl).
  exists t, w. repeat split; try assumption; try apply R.
  - unfold at_boundary in B1. destruct R as [R _]. rewrite R in B1.
    rewrite hd_error_app, Hh in B1 by assumption.
    now destruct (word_opt (before c)).
  - unfold at_boundary in B2. destruct R as [_ R]. rewrite R in B2.
    rewrite last_of_rev, Hl in B2 by assumption.
    now destruct (word_opt (hd_error (rest c1))).
Qed.

(** Conversely a surface form that stands between two non-word
    positions is matched. *)
Lemma word_match_complete (f : flags) (r : regex) (c : cursor) (t w s' : str) :
  word_pattern r = true -> In t (surface_forms r) ->
  Forall2 (fun p x => eq_char f p x = true) t w ->
  rest c = w ++ s' ->
  word_opt (before c) = false -> word_opt (hd_error s') = false ->
  m f r c <> [].
Proof.
  intros W I F E B1 B2. destruct (word_pattern_inv _ W) as (x & -> & S & Wy & Hs).
  rewrite Hs in I.
  assert (wordy t = true) as Wt by (eapply forallb_forall in Wy; eauto).
  destruct (wordy_match _ _ _ Wt F) as (N & Hh & Hl).
  destruct (m_simple_complete _ _ S c _ _ _ I F E) as (c1 & H1 & R).
  assert (In c1 (m f (Seq Bound (Seq x Bound)) c)) as H; [|intros Hn; rewrite Hn in H; exact H].
  assert (at_boundary c = true) as Bc.
  { unfold at_boundary. now rewrite E, hd_error_app, Hh, B1 by assumption. }
  simpl. rewrite Bc. simpl. rewrite app_nil_r. apply in_flat_map. exists c1. split; [assumption|].
  unfold at_boundary. destruct R as [R1 R2].
  rewrite R2, last_of_rev, Hl by assumption.
  rewrite E in R1. apply app_inv_head in R1. rewrite <- R1, B2. now left.
Qed.

End WordPatterns.

(* ================================================================== *)
(** * [re.search] and [re.sub] *)
(* ================================================================== *)

Section Substitution.

Variable f : flags.
Variable r : regex.

Lemma search_from_none (b : option ascii) (s : str) :
  search_from f r b s = None <->
  m f r (mk_cursor b s []) = [] /\
  match s with
  | [] => True
  | x :: s' => search_from f r (Some x) s' = None
  end.
Proof.
  destruct s as [|x s']; simpl; rewrite match_here_no_advance.
  - destruct (m f r _); simpl; split; [easy|tauto|easy|intros []; congruence].
  - destruct (m f r _); simpl.
    + destruct (search_from f r (Some x) s'); split; try easy; intros []; congruence.
    + split; [easy|intros []; congruence].
Qed.

(** Where the pattern matches nowhere, [re.sub] copies the text. *)
Lemma sub_loop_unmatched (repl : str) (fuel : nat) :
  forall b s, search_from f r b s = None ->
              sub_loop fuel f r repl false b s = s.
Proof.
  induction fuel as [|fuel IH]; intros b s H; [reflexivity|].
  apply search_from_none in H. destruct H as [H1 H2].
  simpl. rewrite (proj2 (match_here_none _ _ _) H1).
  destruct s as [|x s']; [reflexivity|]. now rewrite IH.
Qed.

Lemma sub_unmatched (repl s : str) :
  search r s f = None -> sub r repl s f = s.
Proof. apply sub_loop_unmatched. Qed.

End Substitution.

Section Fuel.

Variable f : flags.
Variable r : regex.
Variable repl : str.

(** With that many steps allowed the loop ends by itself: allowing more
    changes nothing. *)
Lemma sub_loop_enough (fuel1 : nat) :
  forall fuel2 adv b s,
    steps_left adv s <= fuel1 -> steps_left adv s <= fuel2 ->
    sub_loop fuel1 f r repl adv b s = sub_loop fuel2 f r repl adv b s.
Proof.
  induction fuel1 as [|fuel1 IH]; intros fuel2 adv b s L1 L2.
  - unfold steps_left in L1. destruct adv; lia.
  - destruct fuel2 as [|fuel2]; [unfold steps_left in L2; destruct adv; lia|].
    cbn [sub_loop].
    destruct (match_here f r adv (mk_cursor b s [])) as [c'|] eqn:E.
    + f_equal. pose proof (match_here_in _ _ _ _ _ E) as I.
      destruct (m_reaches _ _ _ _ I) as [w R].
      rewrite (reaches_length _ _ _ R).
      destruct R as [R _]. cbn [rest] in R.
      assert (adv = true -> w <> []) as N.
      { intros ->. unfold match_here in E.
        destruct (filter _ _) as [|c0 l] eqn:F; [discriminate|]. injection E as ->.
        assert (In c' (filter (fun c' => negb (true && (consumed (mk_cursor b s []) c' =? 0)))
                              (m f r (mk_cursor b s [])))) as I' by (rewrite F; now left).
        apply filter_In in I'. destruct I' as [I' T]. cbn [andb] in T.
        apply negb_true_iff, Nat.eqb_neq in T.
        destruct (m_reaches _ _ _ _ I') as [w' R'].
        rewrite (reaches_length _ _ _ R') in T. destruct R' as [R' _]. cbn [rest] in R'.
        rewrite R in R'. apply app_inv_tail in R'. subst w'. now destruct w. }
      apply IH; unfold steps_left in *; rewrite R, length_app in *;
        destruct w as [|x w]; cbn [length Nat.eqb] in *;
        destruct adv; try lia; now destruct N.
    + destruct s as [|x s']; [reflexivity|]. f_equal.
      apply IH; unfold steps_left in *; cbn [length] in *; destruct adv; lia.
Qed.

(** [re.sub] is the loop run to its end. *)
Lemma sub_enough (fuel : nat) (s : str) :
  steps_left false s <= fuel ->
  sub_loop fuel f r repl false None s = sub r repl s f.
Proof.
  intros L. apply sub_loop_enough; [assumption|].
  unfold steps_left. lia.
Qed.

End Fuel.

Section Braces.

Lemma braces_app (a b : str) : braces (a ++ b) = braces a + braces b.
Proof. apply count_occ_app. Qed.

Lemma lower_brace (p : ascii) : lower p = brace -> p = brace.
Proof. destruct p as [[] [] [] [] [] [] [] []]; vm_compute; congruence. Qed.

(** A text that reads as a plain form has no brace. *)
Lemma plain_match (t w : str) :
  plain t = true -> Forall2 (fun p x => eq_char ic p x = true) t w -> braces w = 0.
Proof.
  intros P F. induction F as [|p x t w E F IH]; [reflexivity|].
  simpl in P. apply andb_true_iff in P. destruct P as [P1 P2].
  unfold braces in *. simpl. destruct (ascii_dec x brace) as [->|_]; [|now apply IH].
  unfold eq_char in E. simpl in E. apply eqc_eq in E.
  apply lower_brace in E. subst p. now rewrite eqc_refl in P1.
Qed.

Variable rule : regex * str.
Hypothesis shape : placeholder_rule rule = true.

Lemma shape_inv :
  word_pattern (fst rule) = true /\
  forallb plain (surface_forms (fst rule)) = true /\ 0 < braces (snd rule).
Proof.
  unfold placeholder_rule in shape. apply andb_true_iff in shape.
  destruct shape as [H H3]. apply andb_true_iff in H. destruct H as [H1 H2].
  apply Nat.ltb_lt in H3. tauto.
Qed.

(** One step of [re.sub] over a match of the rule. *)
Lemma placeholder_match (adv : bool) (b : option ascii) (s : str) (c' : cursor) :
  match_here ic (fst rule) adv (mk_cursor b s []) = Some c' ->
  exists w, w <> [] /\ s = w ++ rest c' /\ braces w = 0 /\
            (consumed (mk_cursor b s []) c' =? 0) = false.
Proof.
  destruct shape_inv as (W & P & _). intros H. apply match_here_in in H.
  destruct (word_match_sound _ _ _ _ W H) as (t & w & I & F & N & R & _).
  exists w. split; [assumption|]. split; [apply R|]. split.
  - eapply plain_match; [|exact F]. eapply forallb_forall in P; eauto.
  - rewrite (reaches_length _ _ _ R). apply Nat.eqb_neq. destruct w; simpl; congruence.
Qed.

(** [re.sub] never removes a brace... *)
Lemma sub_loop_braces (fuel : nat) :
  forall b s, braces s <= braces (sub_loop fuel ic (fst rule) (snd rule) false b s).
Proof.
  induction fuel as [|fuel IH]; intros b s; simpl; [lia|].
  destruct (match_here ic (fst rule) false _) as [c'|] eqn:E.
  - destruct (placeholder_match _ _ _ _ E) as (w & _ & Hs & Hw & ->).
    rewrite braces_app. specialize (IH (before c') (rest c')).
    rewrite Hs at 1. rewrite braces_app. lia.
  - destruct s as [|x s']; [lia|]. specialize (IH (Some x) s').
    change (x :: s') with ([x] ++ s') at 1.
    change (x :: sub_loop fuel ic (fst rule) (snd rule) false (Some x) s')
      with ([x] ++ sub_loop fuel ic (fst rule) (snd rule) false (Some x) s').
    rewrite !braces_app. lia.
Qed.

(** ... and adds one where the pattern matches. *)
Lemma sub_loop_braces_lt (fuel : nat) :
  forall b s, length s < fuel -> search_from ic (fst rule) b s <> None ->
              braces s < braces (sub_loop fuel ic (fst rule) (snd rule) false b s).
Proof.
  destruct shape_inv as (_ & _ & Pos).
  induction fuel as [|fuel IH]; intros b s L H; [lia|]. simpl.
  destruct (match_here ic (fst rule) false _) as [c'|] eqn:E.
  - destruct (placeholder_match _ _ _ _ E) as (w & _ & Hs & Hw & ->).
    rewrite braces_app. pose proof (sub_loop_braces fuel (before c') (rest c')).
    rewrite Hs at 1. rewrite braces_app. lia.
  - destruct s as [|x s']; simpl in H; rewrite E in H; [easy|].
    assert (search_from ic (fst rule) (Some x) s' <> None) as H'
        by (destruct (search_from ic (fst rule) (Some x) s'); congruence).
    simpl in L. specialize (IH (Some x) s' ltac:(lia) H').
    change (x :: s') with ([x] ++ s') at 1.
    change (x :: sub_loop fuel ic (fst rule) (snd rule) false (Some x) s')
      with ([x] ++ sub_loop fuel ic (fst rule) (snd rule) false (Some x) s').
    rewrite !braces_app. lia.
Qed.

Lemma sub_braces (s : str) : braces s <= braces (sub (fst rule) (snd rule) s ic).
Proof. apply sub_loop_braces. Qed.

Lemma sub_braces_lt (s : str) :
  search (fst rule) s ic <> None -> braces s < braces (sub (fst rule) (snd rule) s ic).
Proof. apply sub_loop_braces_lt. lia. Qed.

End Braces.

Section Engines.

Lemma rewrite_all_braces (rules : list (regex * str)) :
  forallb placeholder_rule rules = true ->
  forall text, braces text <= braces (rewrite_all rules text).
Proof.
  unfold rewrite_all. induction rules as [|rule rs IH]; intros shapes text; simpl; [lia|].
  simpl in shapes. apply andb_true_iff in shapes. destruct shapes as [S1 S2].
  pose proof (sub_braces _ S1 text). specialize (IH S2 (sub (fst rule) (snd rule) text ic)).
  lia.
Qed.

(** The engine returns a text unchanged exactly when no rule matches
    in it. *)
Lemma rewrite_all_fixed (rules : list (regex * str)) :
  forallb placeholder_rule rules = true ->
  forall text,
    rewrite_all rules text = text <->
    forall rule, In rule rules -> search (fst rule) text ic = None.
Proof.
  induction rules as [|rule rs IH]; intros shapes text.
  - split; [intros _ ? []|reflexivity].
  - simpl in shapes. apply andb_true_iff in shapes. destruct shapes as [S1 S2].
    change (rewrite_all (rule :: rs) text)
      with (rewrite_all rs (sub (fst rule) (snd rule) text ic)).
    split.
    + intros H. destruct (search (fst rule) text ic) as [mo|] eqn:E.
      * exfalso.
        assert (search (fst rule) text ic <> None) as E' by congruence.
        pose proof (sub_braces_lt _ S1 _ E') as L1.
        pose proof (rewrite_all_braces rs S2 (sub (fst rule) (snd rule) text ic)) as L2.
        rewrite H in L2. lia.
      * rewrite (sub_unmatched _ _ _ _ E) in H.
        intros rule' [<-|I]; [assumption|]. now apply (IH S2).
    + intros H. rewrite sub_unmatched by (apply H; now left).
      apply (IH S2). intros rule' I. apply H. now right.
Qed.

End Engines.

(* ================================================================== *)
(** * The two substitution engines *)
(* ================================================================== *)

Section SubstitutionEngines.

Lemma apl_engine (text : str) :
  Apl.identify_architectural_terms text = rewrite_all apl_rules text.
Proof. reflexivity. Qed.

Lemma uia_engine (text : str) :
  Uia.identify_domain_specific_terms text = rewrite_all uia_rules text.
Proof. reflexivity. Qed.

Lemma apl_rules_shape : forallb placeholder_rule apl_rules = true.
Proof. vm_compute. reflexivity. Qed.

Lemma uia_rules_shape : forallb placeholder_rule uia_rules = true.
Proof. vm_compute. reflexivity. Qed.

Lemma table_patterns_shape :
  forall r, In r (apl_patterns ++ uia_patterns) -> word_pattern r = true.
Proof.
  intros r H.
  assert (forallb word_pattern (apl_patterns ++ uia_patterns) = true) as A
      by (vm_compute; reflexivity).
  rewrite forallb_forall in A. now apply A.
Qed.

(** After a word character, and as long as word characters follow, no
    word pattern matches. *)
Lemma search_inside_word (r : regex) :
  word_pattern r = true ->
  forall s b, all_word s = true -> is_word b = true ->
              search_from ic r (Some b) s = None.
Proof.
  intros W. induction s as [|x s IH]; intros b Hs Hb; apply search_from_none.
  - split; [|exact I]. destruct (m ic r _) as [|c' l] eqn:E; [reflexivity|].
    assert (In c' (m ic r (mk_cursor (Some b) [] []))) as H by (rewrite E; now left).
    destruct (word_match_sound _ _ _ _ W H) as (_ & _ & _ & _ & _ & _ & B & _).
    simpl in B. congruence.
  - simpl in Hs. apply andb_true_iff in Hs. destruct Hs as [Hx Hs]. split.
    + destruct (m ic r _) as [|c' l] eqn:E; [reflexivity|].
      assert (In c' (m ic r (mk_cursor (Some b) (x :: s) []))) as H by (rewrite E; now left).
      destruct (word_match_sound _ _ _ _ W H) as (_ & _ & _ & _ & _ & _ & B & _).
      simpl in B. congruence.
    + now apply IH.
Qed.

Lemma all_word_app (a b : str) :
  all_word (a ++ b) = true -> all_word a = true /\ all_word b = true.
Proof. unfold all_word. rewrite forallb_app. apply andb_true_iff. Qed.

(** A text made of word characters only is left alone by a word
    pattern unless it is, as a whole, one of the surface forms. *)
Lemma search_one_word (r : regex) (W : str) :
  word_pattern r = true -> all_word W = true ->
  (forall t, In t (surface_forms r) -> ~ same_word W t) ->
  search r W ic = None.
Proof.
  intros P A N. apply search_from_none. split.
  - destruct (m ic r _) as [|c' l] eqn:E; [reflexivity|]. exfalso.
    assert (In c' (m ic r (mk_cursor None W []))) as H by (rewrite E; now left).
    destruct (word_match_sound _ _ _ _ P H) as (t & w & I & F & _ & [R _] & _ & B).
    simpl in R. rewrite R in A. apply all_word_app in A. destruct A as [_ A].
    destruct (rest c') as [|y s']; [|simpl in *; apply andb_true_iff in A; destruct A; congruence].
    rewrite app_nil_r in R. subst w. apply (N t I). now apply same_word_of_match.
  - destruct W as [|x s]; [exact I|]. simpl in A. apply andb_true_iff in A.
    destruct A as [Hx Hs]. now apply search_inside_word.
Qed.

End SubstitutionEngines.

Section Spans.

Variable r : regex.
Variable repl : str.
Hypothesis shape : word_pattern r = true.

Lemma replaced_none (s : str) : forall b, Replaced r repl b s s.
Proof. induction s as [|x s IH]; intros b; constructor. apply IH. Qed.

(** What [re.sub] replaces are whole surface forms between two
    positions without word character. *)
Lemma sub_loop_replaced (fuel : nat) :
  forall b s, Replaced r repl b s (sub_loop fuel ic r repl false b s).
Proof.
  induction fuel as [|fuel IH]; intros b s; cbn [sub_loop]; [apply replaced_none|].
  destruct (match_here ic r false (mk_cursor b s [])) as [c'|] eqn:E.
  - apply match_here_in in E.
    destruct (word_match_sound _ _ _ _ shape E) as (t & w & I & F & N & R & B1 & B2).
    rewrite (reaches_length _ _ _ R). destruct R as [R1 R2]. cbn [rest before] in *.
    replace (length w =? 0) with false by (destruct w; [easy|reflexivity]).
    rewrite R1, R2. apply (replaced_span r repl b t); try assumption.
    + now apply same_word_of_match.
    + apply IH.
  - destruct s as [|x s]; constructor. apply IH.
Qed.

End Spans.

(** C1 (as stated, refuted).  A second application of the engine to its
    own output changes it: the token [{{regions}}] is matched by the
    rule for [regions] and wrapped again, and likewise [{{domains}}]. *)
Lemma reapplication_changes_output :
  Apl.identify_architectural_terms (lit "regions") = lit "{{regions}}" /\
  Apl.identify_architectural_terms (lit "{{regions}}") = lit "{{{{regions}}}}" /\
  Uia.identify_domain_specific_terms (lit "domains") = lit "{{domains}}" /\
  Uia.identify_domain_specific_terms (lit "{{domains}}") = lit "{{{{domains}}}}".
Proof. repeat split; vm_compute; reflexivity. Qed.

(** The text that the second generator writes by hand and passes through
    its engine already holds tokens; two of them come out wrapped
    twice. *)
Lemma timeless_tokens_are_wrapped_again :
  contains (lit "{{structures}}") Apl.timeless_content = true /\
  contains (lit "{{{{structures}}}}") Apl.timeless_content = false /\
  contains (lit "{{{{structures}}}}")
           (Apl.identify_architectural_terms Apl.timeless_content) = true /\
  contains (lit "{{{{spaces}}}}")
           (Apl.identify_architectural_terms Apl.timeless_content) = true.
Proof. repeat split; vm_compute; reflexivity. Qed.

(** C1 (amended).  Applying either engine to a text returns it
    unchanged exactly when no rule of the engine matches anywhere in
    the text; placeholder tokens are not set apart, so this holds for
    archetypal text only when none of its words, token names included,
    is a surface form. *)
Theorem reapplication_fixed_point (text : str) :
  (Apl.identify_architectural_terms text = text <->
   forall r, In r apl_patterns -> search r text ic = None) /\
  (Uia.identify_domain_specific_terms text = text <->
   forall r, In r uia_patterns -> search r text ic = None).
Proof.
  split.
  - rewrite apl_engine, (rewrite_all_fixed _ apl_rules_shape). unfold apl_patterns.
    split.
    + intros H r I. apply in_map_iff in I. destruct I as (rule & <- & I). now apply H.
    + intros H rule I. apply H. now apply in_map.
  - rewrite uia_engine, (rewrite_all_fixed _ uia_rules_shape). unfold uia_patterns, uia_rules.
    split.
    + intros H r I. apply in_map_iff in I. destruct I as (rule & <- & I).
      apply (H (Uia.term_pattern (fst rule), snd rule)).
      apply in_map_iff. now exists rule.
    + intros H rule I. apply in_map_iff in I. destruct I as (rule0 & <- & I).
      apply H. apply in_map_iff. now exists rule0.
Qed.

(** C2.  On the text of the claim the rule for [building] runs before
    the rule holding [building process] and takes its first word, so
    the multi-word form is never seen; in the other engine [patterns]
    runs before [established patterns] in the same way. *)
Theorem multi_word_forms_are_shadowed :
  Apl.identify_architectural_terms (lit "the building process began")
    = lit "the {{structures}} process began" /\
  Uia.identify_domain_specific_terms (lit "the established patterns")
    = lit "the established {{patterns}}".
Proof. split; vm_compute; reflexivity. Qed.

(** C5.  Every match of every rule of the two tables, at any position
    of any text, reads one of the rule's surface forms (up to case) and
    has no word character just before it nor just after it.  So what
    [re.sub] replaces with the rule, in any text, are such spans only;
    and a text that is one single word is returned unchanged unless
    the whole word is one of the surface forms. *)
Theorem matches_are_whole_words (r : regex) :
  In r (apl_patterns ++ uia_patterns) ->
  (forall adv b s c',
     match_here ic r adv (mk_cursor b s []) = Some c' ->
     exists t w, In t (surface_forms r) /\ same_word w t /\ s = w ++ rest c' /\
                 word_opt b = false /\ word_opt (hd_error (rest c')) = false) /\
  (forall repl text, Replaced r repl None text (sub r repl text ic)) /\
  (forall repl W,
     all_word W = true ->
     (forall t, In t (surface_forms r) -> ~ same_word W t) ->
     sub r repl W ic = W).
Proof.
  intros I. pose proof (table_patterns_shape r I) as P. split; [|split].
  - intros adv b s c' H. apply match_here_in in H.
    destruct (word_match_sound _ _ _ _ P H) as (t & w & It & F & _ & [R _] & B1 & B2).
    exists t, w. repeat split; try assumption. now apply same_word_of_match.
  - intros repl text. now apply sub_loop_replaced.
  - intros repl W A N. apply sub_unmatched. now apply search_one_word.
Qed.

Lemma matches_are_whole_words_witness :
  In (Apl.words "region" ["regions"%string]) (apl_patterns ++ uia_patterns) /\
  sub (Apl.words "region" ["regions"%string]) (lit "{{regions}}") (lit "regional") ic
    = lit "regional".
Proof.
  assert (In (Apl.words "region" ["regions"%string]) (apl_patterns ++ uia_patterns)) as I
      by (now left).
  split; [exact I|].
  apply (proj2 (proj2 (matches_are_whole_words _ I))).
  - vm_compute. reflexivity.
  - intros t [<-|[<-|[]]]; vm_compute; discriminate.
Defined.

(* ================================================================== *)
(** * The assembled documents *)
(* ================================================================== *)

Section Documents.





End Documents.



(* ================================================================== *)
(** * The corpus run of generate_archetypal_patterns.py *)
(* ================================================================== *)

Section CorpusRun.

(** The three values returned are all [None] or all strings. *)
Lemma extract_from_content_shape (content : str) :
  Uia.extract_from_content content = Uia.none3 \/
  exists i n t, Uia.extract_from_content content = (Some i, Some n, Some t).
Proof.
  unfold Uia.extract_from_content.
  destruct (search Uia.title_re content _); [|now left].
  destruct (search Uia.template_re content _); [|now left].
  right. eauto.
Qed.

(** A file for which three [None] come back leaves the counters and
    the written files as they are. *)
Lemma process_file_none (st : Uia.run) (path : str) (f : Uia.file) :
  fst (Uia.extract_template_content path f) = Uia.none3 ->
  outcome (Uia.process_file st (path, f)) = outcome st /\
  Uia.stdout (Uia.process_file st (path, f))
    = Uia.stdout st ++ snd (Uia.extract_template_content path f).
Proof.
  unfold Uia.process_file. destruct (Uia.extract_template_content path f) as [[[i n] t] pr].
  simpl. intros H. injection H as -> -> ->. simpl. now split.
Qed.

(** What a turn of the loop adds does not depend on the state it
    starts from. *)
Lemma process_file_frame (st : Uia.run) (entry : str * Uia.file) :
  exists g k ws ls,
    forall st',
      Uia.generated_count (Uia.process_file st' entry) = Uia.generated_count st' + g /\
      Uia.no_template_count (Uia.process_file st' entry) = Uia.no_template_count st' + k /\
      Uia.written (Uia.process_file st' entry) = Uia.written st' ++ ws /\
      Uia.stdout (Uia.process_file st' entry) = Uia.stdout st' ++ ls.
Proof.
  destruct entry as [path f]. unfold Uia.process_file.
  destruct (Uia.extract_template_content path f) as [[[i n] t] pr].
  destruct (truthy i && truthy n && truthy t).
  - exists 1, 0. do 2 eexists. intros st'. simpl.
    repeat split; try lia; try reflexivity. now rewrite <- app_assoc.
  - destruct (truthy i && truthy n).
    + exists 0, 1, []. eexists. intros st'. simpl.
      repeat split; try lia; try (now rewrite app_nil_r). now rewrite <- app_assoc.
    + exists 0, 0, [], pr. intros st'. simpl.
      repeat split; try lia; now rewrite app_nil_r.
Qed.






End CorpusRun.

(** C4.  A pattern file with a title line and no Template section goes
    through [main] without being counted: the tally of patterns
    without Template section stays at 0 and no line is printed for it,
    while the file that follows is processed as usual. *)
Theorem missing_template_is_not_counted :
  let st := Uia.main [ (lit "uia/7.md", Uia.Readable untemplated);
                       (lit "uia/12.md", Uia.Readable complete) ] in
  fst (Uia.extract_template_content (lit "uia/7.md") (Uia.Readable untemplated)) = Uia.none3 /\
  Uia.no_template_count st = 0 /\
  Uia.generated_count st = 1 /\
  map fst (Uia.written st) =
    [ lit "/home/runner/work/p235/p235/markdown/arc/arc_12.md";
      lit "/home/runner/work/p235/p235/markdown/arc/README.md" ] /\
  Uia.stdout st =
    [ lit "Generated: arc_12.md - Independent domains";
      nl :: lit "Generated 1 archetypal patterns in /home/runner/work/p235/p235/markdown/arc";
      lit "Skipped 0 patterns without Template sections";
      lit "Total patterns processed: 1";
      lit "Created README.md with documentation" ].
Proof. vm_compute. repeat split; reflexivity. Qed.

(** A pattern file with a title line and no Template section is
    dropped by the loop of [main] whatever the state: nothing is
    counted, written or printed. *)
Lemma untemplated_file_dropped (st : Uia.run) (path content : str) :
  search Uia.title_re content multiline <> None ->
  search Uia.template_re content dotall = None ->
  outcome (Uia.process_file st (path, Uia.Readable content)) = outcome st /\
  Uia.stdout (Uia.process_file st (path, Uia.Readable content)) = Uia.stdout st.
Proof.
  intros T1 T2.
  assert (fst (Uia.extract_template_content path (Uia.Readable content)) = Uia.none3) as N.
  { simpl. unfold Uia.extract_from_content. fold multiline. fold dotall.
    destruct (search Uia.title_re content multiline); [|easy]. now rewrite T2. }
  destruct (process_file_none st path (Uia.Readable content) N) as [H1 H2].
  split; [assumption|]. rewrite H2. simpl. apply app_nil_r.
Qed.

(* ================================================================== *)
(** * Files that cannot be read *)
(* ================================================================== *)




(* ================================================================== *)
(** * Title lines *)
(* ================================================================== *)

Section Repetitions.

Lemma flat_map_map_comp (A B C : Type) (g : A -> B) (h : B -> list C) (l : list A) :
  flat_map h (map g l) = flat_map (fun x => h (g x)) l.
Proof. induction l as [|x l IH]; simpl; [reflexivity|]. now rewrite IH. Qed.

Lemma flat_map_nil (A B : Type) (h : A -> list B) (l : list A) :
  (forall x, In x l -> h x = []) -> flat_map h l = [].
Proof.
  induction l as [|x l IH]; intros H; simpl; [reflexivity|].
  rewrite (H x) by now left. apply IH. intros y I. apply H. now right.
Qed.

(** A greedy repetition after which only the longest run can go on. *)
Lemma greedy_only_longest (A : Type) (h : nat -> list A) (lo hi : nat) :
  lo <= hi -> (forall j, lo <= j < hi -> h j = []) ->
  flat_map h (counts lo hi true) = h hi.
Proof.
  intros L H. unfold counts.
  replace (S hi - lo) with (S (hi - lo)) by lia.
  rewrite seq_S, rev_app_distr. simpl.
  replace (lo + (hi - lo)) with hi by lia.
  rewrite flat_map_nil; [apply app_nil_r|].
  intros j I. apply in_rev, in_seq in I. apply H. lia.
Qed.

Lemma counts_empty (lo hi : nat) (g : bool) : hi < lo -> counts lo hi g = [].
Proof.
  intros L. unfold counts. replace (S hi - lo) with 0 by lia. now destruct g.
Qed.

Lemma run_le_length (p : ascii -> bool) (s : str) : run p s <= length s.
Proof. induction s as [|x s IH]; simpl; [lia|]. destruct (p x); simpl; lia. Qed.

(** Inside the run the next character is in the class... *)
Lemma run_inside (p : ascii -> bool) (s : str) (j : nat) :
  j < run p s -> exists x s', skipn j s = x :: s' /\ p x = true.
Proof.
  revert j. induction s as [|x s IH]; intros j L; simpl in L; [lia|].
  destruct (p x) eqn:E; [|lia]. destruct j as [|j]; simpl.
  - now exists x, s.
  - apply IH. lia.
Qed.

(** ... and at its end it is not. *)
Lemma run_end (p : ascii -> bool) (s : str) :
  match skipn (run p s) s with
  | [] => True
  | x :: _ => p x = false
  end.
Proof.
  induction s as [|x s IH]; simpl; [exact I|].
  destruct (p x) eqn:E; simpl; assumption.
Qed.

Lemma consumed_advance (j : nat) (c : cursor) :
  j <= length (rest c) -> consumed c (advance j c) = j.
Proof. intros L. unfold consumed. simpl. rewrite length_skipn. lia. Qed.

Lemma lit_match_starts_with (f : flags) (l s : str) :
  IGNORECASE f = false -> lit_match f l s = starts_with l s.
Proof.
  intros H. revert s. induction l as [|p l IH]; intros [|x s]; simpl; try reflexivity.
  unfold eq_char. now rewrite H, IH.
Qed.

End Repetitions.

Section Titles.

(** A grouped greedy repetition followed by a pattern that cannot
    start inside the run. *)
Lemma m_group_greedy_then (f : flags) (g : nat) (k : cls) (lo : nat) (r : regex) (c : cursor) :
  (forall j, lo <= j < run (in_cls f k) (rest c) ->
             m f r (capture g c (advance j c)) = []) ->
  m f (Seq (Group g (Rep k lo true)) r) c =
  if lo <=? run (in_cls f k) (rest c)
  then m f r (capture g c (advance (run (in_cls f k) (rest c)) c))
  else [].
Proof.
  intros H. cbn [m]. rewrite !flat_map_map_comp.
  destruct (lo <=? _) eqn:E.
  - apply Nat.leb_le in E. now apply (greedy_only_longest _ (fun j => m f r (capture g c (advance j c)))).
  - apply Nat.leb_gt in E. now rewrite counts_empty.
Qed.

Lemma m_greedy_then (f : flags) (k : cls) (lo : nat) (r : regex) (c : cursor) :
  (forall j, lo <= j < run (in_cls f k) (rest c) -> m f r (advance j c) = []) ->
  m f (Seq (Rep k lo true) r) c =
  if lo <=? run (in_cls f k) (rest c)
  then m f r (advance (run (in_cls f k) (rest c)) c)
  else [].
Proof.
  intros H. cbn [m]. rewrite !flat_map_map_comp.
  destruct (lo <=? _) eqn:E.
  - apply Nat.leb_le in E. now apply (greedy_only_longest _ (fun j => m f r (advance j c))).
  - apply Nat.leb_gt in E. now rewrite counts_empty.
Qed.

Lemma m_str_then (f : flags) (l : str) (r : regex) (c : cursor) :
  m f (Seq (Str l) r) c =
  if lit_match f l (rest c) then m f r (advance (length l) c) else [].
Proof. cbn [m]. destruct (lit_match f l (rest c)); simpl; [apply app_nil_r|reflexivity]. Qed.

Lemma digit_not_blank (x : ascii) : is_digit x = true -> eqc " "%char x = false.
Proof. destruct x as [[] [] [] [] [] [] [] []]; vm_compute; congruence. Qed.

Lemma capture_groups (g j : nat) (c : cursor) :
  j <= length (rest c) ->
  capture g c (advance j c) =
  mk_cursor (before (advance j c)) (skipn j (rest c)) ((g, firstn j (rest c)) :: groups c).
Proof. intros L. unfold capture. now rewrite consumed_advance. Qed.

(** The tail of both title patterns: [ - ] and the name. *)
Lemma dash_fails_inside_digits (f : flags) (r : regex) (c : cursor) (g : nat) (j : nat) :
  IGNORECASE f = false ->
  j < run is_digit (rest c) ->
  m f (Seq (Str (lit " - ")) r) (capture g c (advance j c)) = [] /\
  m f (Seq (Str (lit " - ")) r) (advance j c) = [].
Proof.
  intros F L. destruct (run_inside _ _ _ L) as (x & s' & E & D).
  rewrite !m_str_then, !lit_match_starts_with by assumption.
  cbn [capture advance rest]. rewrite E.
  change (lit " - ") with [" "; "-"; " "]%char. cbn [starts_with].
  now rewrite (digit_not_blank _ D).
Qed.

Lemma eol_inside_line (f : flags) (c : cursor) (g j : nat) :
  j < run not_nl (rest c) ->
  m f Eol (capture g c (advance j c)) = [] /\ m f Eol (advance j c) = [].
Proof.
  intros L. destruct (run_inside _ _ _ L) as (x & s' & E & D).
  cbn [m]. unfold at_eol. cbn [capture advance rest]. rewrite E.
  unfold not_nl in D. apply negb_true_iff in D. now rewrite D.
Qed.

Lemma eol_line_end (f : flags) (c : cursor) :
  MULTILINE f = true -> at_eol f (advance (run not_nl (rest c)) c) = true.
Proof.
  intros M. unfold at_eol. cbn [advance rest].
  pose proof (run_end not_nl (rest c)) as H.
  destruct (skipn _ _) as [|x s']; [reflexivity|].
  unfold not_nl in H. apply negb_false_iff in H. now rewrite H, M.
Qed.

Lemma uia_title_here (b : option ascii) (s : str) :
  map groups_of (m multiline Uia.title_re (mk_cursor b s [])) =
  if at_bol multiline (mk_cursor b s []) then
    match title_at s with
    | Some (i, n) => [(Some i, Some n)]
    | None => []
    end
  else [].
Proof.
  unfold Uia.title_re. change (m multiline (Seq Bol ?r) ?c)
    with (flat_map (m multiline r) (if at_bol multiline c then [c] else [])).
  destruct (at_bol multiline _); [|reflexivity].
  cbn [flat_map]. rewrite app_nil_r, m_str_then.
  rewrite lit_match_starts_with by reflexivity.
  unfold title_at. cbn [rest].
  destruct (starts_with (lit "# ") s) eqn:E1; [|reflexivity].
  set (c1 := advance (length (lit "# ")) (mk_cursor b s [])).
  change (skipn 2 s) with (rest c1).
  rewrite m_group_greedy_then
    by (intros j [_ L]; now apply dash_fails_inside_digits).
  change (in_cls multiline Digit) with is_digit.
  set (n := run is_digit (rest c1)).
  destruct (1 <=? n) eqn:E2; [|reflexivity]. cbn [andb].
  assert (n <= length (rest c1)) as Ln by apply run_le_length.
  rewrite capture_groups by assumption. rewrite m_str_then.
  rewrite lit_match_starts_with by reflexivity. cbn [rest].
  destruct (starts_with (lit " - ") (skipn n (rest c1))) eqn:E3; [|reflexivity].
  set (c2 := advance (length (lit " - ")) _).
  change (skipn 3 (skipn n (rest c1))) with (rest c2).
  rewrite m_group_greedy_then
    by (intros j [_ L]; now apply eol_inside_line).
  change (in_cls multiline Dot) with not_nl.
  set (k := run not_nl (rest c2)).
  destruct (1 <=? k) eqn:E4; [|reflexivity].
  assert (k <= length (rest c2)) as Lk by apply run_le_length.
  rewrite capture_groups by assumption. cbn [m].
  pose proof (eol_line_end multiline c2 eq_refl) as E5. fold k in E5.
  unfold at_eol in *. cbn [rest advance] in *. rewrite E5. reflexivity.
Qed.

(** The title pattern of the analysis script: no anchor, and the name
    is the first group. *)
Lemma analyze_title_here (b : option ascii) (s : str) :
  option_map (fun c' => lookup 1 (groups c'))
             (hd_error (m no_flags Analyze.title_re (mk_cursor b s []))) =
  option_map (fun t => Some (snd t)) (title_at s).
Proof.
  unfold Analyze.title_re. rewrite m_str_then.
  rewrite lit_match_starts_with by reflexivity.
  unfold title_at. cbn [rest].
  destruct (starts_with (lit "# ") s) eqn:E1; [|reflexivity].
  set (c1 := advance (length (lit "# ")) (mk_cursor b s [])).
  change (skipn 2 s) with (rest c1).
  rewrite m_greedy_then
    by (intros j [_ L]; now apply (dash_fails_inside_digits no_flags _ _ 0)).
  change (in_cls no_flags Digit) with is_digit.
  set (n := run is_digit (rest c1)).
  destruct (1 <=? n) eqn:E2; [|reflexivity]. cbn [andb].
  rewrite m_str_then.
  rewrite lit_match_starts_with by reflexivity. cbn [rest advance].
  destruct (starts_with (lit " - ") (skipn n (rest c1))) eqn:E3; [|reflexivity].
  set (c2 := advance (length (lit " - ")) _).
  change (skipn 3 (skipn n (rest c1))) with (rest c2).
  cbn [m]. change (in_cls no_flags Dot) with not_nl.
  set (k := run not_nl (rest c2)).
  destruct (1 <=? k) eqn:E4.
  - apply Nat.leb_le in E4. unfold counts.
    replace (S k - 1) with (S (k - 1)) by lia.
    rewrite seq_S, rev_app_distr. replace (1 + (k - 1)) with k by lia.
    cbn [rev app map hd_error option_map].
    rewrite capture_groups by apply run_le_length. reflexivity.
  - apply Nat.leb_gt in E4. now rewrite counts_empty by lia.
Qed.


(** ** Titles and lines *)

Lemma starts_with_line (p l t : str) :
  forallb not_nl p = true -> line_end t ->
  starts_with p (l ++ t) = starts_with p l.
Proof.
  intros P T. revert l. induction p as [|y p IH]; intros l; [reflexivity|].
  simpl in P. apply andb_true_iff in P. destruct P as [P1 P2].
  destruct l as [|x l]; simpl.
  - destruct t as [|x t]; [reflexivity|]. simpl in T. subst x.
    unfold not_nl in P1. apply negb_true_iff in P1. now rewrite P1.
  - now rewrite IH.
Qed.

Lemma starts_with_length (p s : str) :
  starts_with p s = true -> length p <= length s.
Proof.
  revert s. induction p as [|y p IH]; intros [|x s] H; simpl in *; try lia; try easy.
  apply andb_true_iff in H. destruct H as [_ H]. apply IH in H. lia.
Qed.

Lemma run_line (q : ascii -> bool) (l t : str) :
  q nl = false -> line_end t -> run q (l ++ t) = run q l.
Proof.
  intros Q T. induction l as [|x l IH]; simpl.
  - destruct t as [|x t]; [reflexivity|]. simpl in T. subst x. simpl. now rewrite Q.
  - now rewrite IH.
Qed.

Lemma skipn_line (n : nat) (l t : str) :
  n <= length l -> skipn n (l ++ t) = skipn n l ++ t.
Proof.
  intros L. rewrite skipn_app. replace (n - length l) with 0 by lia. reflexivity.
Qed.

Lemma firstn_line (n : nat) (l t : str) :
  n <= length l -> firstn n (l ++ t) = firstn n l.
Proof.
  intros L. rewrite firstn_app. replace (n - length l) with 0 by lia.
  simpl. apply app_nil_r.
Qed.

(** A title is read within one line. *)
Lemma title_at_line (l t : str) :
  line_end t -> title_at (l ++ t) = title_at l.
Proof.
  intros T. unfold title_at.
  rewrite (starts_with_line (lit "# ") l t) by (reflexivity || assumption).
  destruct (starts_with (lit "# ") l) eqn:E1; [|reflexivity].
  apply starts_with_length in E1. change (length (lit "# ")) with 2 in E1.
  rewrite (skipn_line 2) by assumption.
  set (s1 := skipn 2 l).
  rewrite (run_line is_digit) by (reflexivity || assumption).
  set (n := run is_digit s1).
  assert (n <= length s1) as Ln by apply run_le_length.
  rewrite (skipn_line n), (firstn_line n) by assumption.
  rewrite (starts_with_line (lit " - ")) by (reflexivity || assumption).
  destruct (1 <=? n); [|reflexivity]. cbn [andb].
  destruct (starts_with (lit " - ") (skipn n s1)) eqn:E3; [|reflexivity].
  apply starts_with_length in E3. change (length (lit " - ")) with 3 in E3.
  rewrite (skipn_line 3) by assumption.
  set (s3 := skipn 3 (skipn n s1)).
  rewrite (run_line not_nl) by (reflexivity || assumption).
  rewrite firstn_line by apply run_le_length. reflexivity.
Qed.

(** A text is its first line followed by nothing or by a newline. *)
Lemma first_line (s : str) :
  exists l ls t, split_lines s = l :: ls /\ s = l ++ t /\ line_end t.
Proof.
  induction s as [|x s (l & ls & t & E & Hs & T)]; simpl.
  - exists [], [], []. now repeat split.
  - destruct (eqc x nl) eqn:X.
    + apply eqc_eq in X. subst x. exists [], (split_lines s), (nl :: s). now repeat split.
    + rewrite E. exists (x :: l), ls, t. repeat split; [|assumption]. simpl. congruence.
Qed.

Lemma uia_title_match (b : option ascii) (s : str) :
  option_map (fun c' => mk_match 0 (consumed (mk_cursor b s []) c') (groups c'))
             (match_here multiline Uia.title_re false (mk_cursor b s [])) = None /\
  (line_start b && match title_at s with Some _ => true | None => false end) = false
  \/
  exists c' i n,
    match_here multiline Uia.title_re false (mk_cursor b s []) = Some c' /\
    line_start b = true /\ title_at s = Some (i, n) /\
    lookup 1 (groups c') = Some i /\ lookup 2 (groups c') = Some n.
Proof.
  rewrite match_here_no_advance.
  pose proof (uia_title_here b s) as H.
  change (at_bol multiline (mk_cursor b s [])) with (line_start b) in H.
  destruct (line_start b).
  - destruct (title_at s) as [[i n]|].
    + right. destruct (m multiline Uia.title_re _) as [|c' l]; [discriminate|].
      simpl in H. injection H as H1 H2 _. exists c', i, n. now repeat split.
    + left. destruct (m multiline Uia.title_re _); [now split|discriminate].
  - left. destruct (m multiline Uia.title_re _); [now split|discriminate].
Qed.

Lemma split_lines_cons (x : ascii) (s : str) :
  exists l ls,
    split_lines (x :: s) = l :: ls /\ title_at (x :: s) = title_at l /\
    (if line_start (Some x) then first_title_line (split_lines s)
     else first_title_line (tl (split_lines s))) = first_title_line ls.
Proof.
  destruct (first_line (x :: s)) as (l & ls & t & E & Hs & T).
  exists l, ls. split; [assumption|]. split.
  - rewrite Hs. now apply title_at_line.
  - cbn [line_start]. simpl in E. destruct (eqc x nl).
    + now injection E as <- <-.
    + destruct (split_lines s) as [|l' ls']; now injection E as <- <-.
Qed.

Lemma id_and_name_shift (o : option match_obj) :
  option_map id_and_name
    (match o with
     | Some mo => Some (mk_match (S (m_start mo)) (m_len mo) (m_groups mo))
     | None => None
     end) = option_map id_and_name o.
Proof. now destruct o. Qed.

(** The search of the Title line, stated on the lines of the text. *)
Lemma uia_title_search_from (s : str) :
  forall b,
    option_map id_and_name (search_from multiline Uia.title_re b s) =
    if line_start b then first_title_line (split_lines s)
    else first_title_line (tl (split_lines s)).
Proof.
  induction s as [|x s IH]; intros b.
  - cbn [search_from split_lines first_title_line tl].
    destruct (uia_title_match b []) as [[H1 H2]|(c' & i & n & H1 & H2 & H3 & _)].
    + destruct (match_here multiline Uia.title_re false _); [discriminate|].
      now destruct (line_start b).
    + discriminate.
  - cbn [search_from].
    destruct (split_lines_cons x s) as (l & ls & E & Ht & El).
    specialize (IH (Some x)). rewrite El in IH. rewrite E. cbn [tl first_title_line].
    destruct (uia_title_match b (x :: s)) as [[H1 H2]|(c' & i & n & H1 & H2 & H3 & H4 & H5)].
    + destruct (match_here multiline Uia.title_re false _); [discriminate|].
      rewrite id_and_name_shift, IH. rewrite Ht in H2.
      destruct (line_start b); [|reflexivity]. now destruct (title_at l).
    + rewrite H1, H2. cbn [option_map]. unfold id_and_name, group. cbn [m_groups].
      rewrite H4, H5. rewrite Ht in H3. now rewrite H3.
Qed.

Lemma uia_title_search (content : str) :
  option_map id_and_name (search Uia.title_re content multiline)
    = first_title_line (split_lines content).
Proof. apply (uia_title_search_from content None). Qed.

End Titles.

Section AnalyzeTitle.

Lemma analyze_title_search_from (s : str) :
  forall b,
    option_map (fun mo => group mo 1) (search_from no_flags Analyze.title_re b s)
      = option_map snd (first_title_anywhere s).
Proof.
  induction s as [|x s IH]; intros b; cbn [search_from first_title_anywhere];
    rewrite match_here_no_advance;
    pose proof (analyze_title_here b) as H.
  - specialize (H []). destruct (hd_error (m no_flags Analyze.title_re _)) as [c'|];
      destruct (title_at []) as [t|]; try discriminate; [|reflexivity].
    cbn [option_map] in *. unfold group. cbn [m_groups]. injection H as ->. reflexivity.
  - specialize (H (x :: s)).
    destruct (hd_error (m no_flags Analyze.title_re _)) as [c'|];
      destruct (title_at (x :: s)) as [t|]; try discriminate.
    + cbn [option_map] in *. unfold group. cbn [m_groups]. injection H as ->. reflexivity.
    + rewrite <- IH with (b := Some x).
      now destruct (search_from no_flags Analyze.title_re (Some x) s).
Qed.

Lemma analyze_title (pattern_file content : str) :
  Analyze.extract_title pattern_file content =
  match first_title_anywhere content with
  | Some (_, name) => name
  | None => pattern_file
  end.
Proof.
  unfold Analyze.extract_title.
  pose proof (analyze_title_search_from content None) as H.
  change (search_from no_flags Analyze.title_re None content)
    with (search Analyze.title_re content no_flags) in H.
  destruct (search Analyze.title_re content no_flags);
    destruct (first_title_anywhere content) as [[i n]|]; try discriminate.
  - now injection H.
  - reflexivity.
Qed.

End AnalyzeTitle.



(* ================================================================== *)
(** * Section bodies *)
(* ================================================================== *)

Section Sections.

Lemma hd_flat_map (A B : Type) (h : A -> list B) (l : list A) (y : B) :
  hd_error (flat_map h l) = Some y ->
  exists l1 x l2, l = l1 ++ x :: l2 /\ (forall z, In z l1 -> h z = []) /\
                  hd_error (h x) = Some y.
Proof.
  induction l as [|x l IH]; simpl; [discriminate|]. intros H.
  destruct (h x) as [|y' t] eqn:E.
  - destruct (IH H) as (l1 & x' & l2 & -> & H1 & H2).
    exists (x :: l1), x', l2. repeat split; [|assumption].
    intros z [<-|I]; [assumption|now apply H1].
  - exists [], x, l. rewrite E. repeat split; [intros z []|assumption].
Qed.

Lemma seq_split (a n j : nat) (l1 l2 : list nat) :
  seq a n = l1 ++ j :: l2 -> l1 = seq a (j - a) /\ a <= j < a + n.
Proof.
  revert a l1. induction n as [|n IH]; intros a l1 H; simpl in H.
  - now destruct l1.
  - destruct l1 as [|z l1]; simpl in H; injection H as <- H.
    + rewrite Nat.sub_diag. split; [reflexivity|lia].
    + destruct (IH _ _ H) as [-> L]. split; [|lia].
      replace (j - a) with (S (j - S a)) by lia. reflexivity.
Qed.

Lemma m_keeps_groups (f : flags) (r : regex) :
  groupless r = true -> forall c c', In c' (m f r c) -> groups c' = groups c.
Proof.
  induction r as [l|k| | | |r1 IH1 r2 IH2|r1 IH1 r2 IH2|k lo g|n r IH|r IH];
    simpl; intros G c c' H; try discriminate.
  - destruct (lit_match f l (rest c)); [|easy]. now destruct H as [<-|[]].
  - destruct (rest c); [easy|]. destruct (in_cls f k a); [|easy]. now destruct H as [<-|[]].
  - destruct (at_boundary c); [|easy]. now destruct H as [<-|[]].
  - destruct (at_bol f c); [|easy]. now destruct H as [<-|[]].
  - destruct (at_eol f c); [|easy]. now destruct H as [<-|[]].
  - apply andb_true_iff in G. destruct G as [G1 G2].
    apply in_flat_map in H. destruct H as (c1 & H1 & H2).
    rewrite (IH2 G2 _ _ H2). now apply IH1.
  - apply andb_true_iff in G. destruct G as [G1 G2].
    apply in_app_or in H. destruct H; [now apply IH1|now apply IH2].
  - apply in_map_iff in H. now destruct H as (j & <- & _).
  - destruct (m f r c) as [|c1 l] eqn:E; [easy|]. destruct H as [<-|[]].
    simpl. apply (IH G c). rewrite E. now left.
Qed.

Lemma search_from_some (f : flags) (r : regex) (s : str) :
  forall b mo, search_from f r b s = Some mo ->
    exists pre s' c',
      s = pre ++ s' /\ m_start mo = length pre /\
      match_here f r false (mk_cursor (last_of pre b) s' []) = Some c' /\
      (forall p q, s = p ++ q -> length p < length pre ->
                   match_here f r false (mk_cursor (last_of p b) q []) = None) /\
      m_groups mo = groups c'.
Proof.
  induction s as [|x s IH]; intros b mo H; cbn [search_from] in H.
  - destruct (match_here f r false _) as [c'|] eqn:E; [|discriminate].
    injection H as <-. exists [], [], c'.
    split; [reflexivity|]. split; [reflexivity|]. split; [assumption|].
    split; [|reflexivity]. intros p q _ L. simpl in L. lia.
  - destruct (match_here f r false _) as [c'|] eqn:E.
    + injection H as <-. exists [], (x :: s), c'.
      split; [reflexivity|]. split; [reflexivity|]. split; [assumption|].
      split; [|reflexivity]. intros p q _ L. simpl in L. lia.
    + destruct (search_from f r (Some x) s) as [mo'|] eqn:S; [|discriminate].
      injection H as <-. destruct (IH _ _ S) as (pre & s' & c' & -> & L & M & N & G).
      exists (x :: pre), s', c'.
      split; [reflexivity|]. split; [cbn; congruence|]. split; [assumption|].
      split; [|assumption].
      intros [|y p] q Hq Lp.
      * simpl in Hq. subst q. exact E.
      * simpl in Hq. injection Hq as <- Hq. apply N; [assumption|simpl in Lp; lia].
Qed.

Lemma starts_with_split (p s : str) :
  starts_with p s = true <-> exists t, s = p ++ t.
Proof.
  revert s. induction p as [|y p IH]; intros s; simpl.
  - split; [now exists s|reflexivity].
  - destruct s as [|x s]; [split; [discriminate|now intros [t H]]|].
    rewrite andb_true_iff, IH, eqc_eq. split.
    + intros [-> [t ->]]. now exists t.
    + intros [t H]. injection H as -> ->. split; [reflexivity|now exists t].
Qed.

Lemma run_firstn (p : ascii -> bool) (s : str) (k : nat) :
  k <= run p s -> forallb p (firstn k s) = true.
Proof.
  revert k. induction s as [|x s IH]; intros [|k] L; simpl in *; try reflexivity; try lia.
  destruct (p x) eqn:E; [|lia]. simpl. apply IH. lia.
Qed.

Lemma run_all (p : ascii -> bool) (s : str) :
  (forall x, p x = true) -> run p s = length s.
Proof. intros H. induction s as [|x s IH]; simpl; [reflexivity|]. now rewrite H, IH. Qed.

Lemma in_counts (lo hi j : nat) (g : bool) : In j (counts lo hi g) -> lo <= j <= hi.
Proof.
  unfold counts. intros H. destruct g; [apply in_rev in H|]; apply in_seq in H; lia.
Qed.

Variable f : flags.
Hypothesis case_matters : IGNORECASE f = false.
Hypothesis dot_all : DOTALL f = true.

Variable stop : regex.
Variable stops : str -> bool.
Hypothesis stop_groupless : groupless stop = true.
Hypothesis stop_rest : forall c, m f stop c <> [] <-> stops (rest c) = true.


End Sections.

Section Strip.

Lemma drop_while_suffix (p : ascii -> bool) (s : str) :
  exists a, s = a ++ drop_while p s.
Proof.
  induction s as [|x s [a IH]]; simpl.
  - now exists [].
  - destruct (p x); [|now exists []]. exists (x :: a). simpl. congruence.
Qed.

Lemma drop_while_head (p : ascii -> bool) (s : str) :
  match drop_while p s with
  | [] => True
  | x :: _ => p x = false
  end.
Proof.
  induction s as [|x s IH]; simpl; [exact I|].
  destruct (p x) eqn:E; [assumption|exact E].
Qed.

Lemma drop_while_id (p : ascii -> bool) (s : str) :
  match s with
  | [] => True
  | x :: _ => p x = false
  end -> drop_while p s = s.
Proof. destruct s as [|x s]; simpl; [reflexivity|]. now intros ->. Qed.


(** Stripping a stripped text changes nothing. *)
Lemma strip_strip (s : str) : strip (strip s) = strip s.
Proof.
  unfold strip, lstrip, rstrip.
  set (u := rev (drop_while is_space (rev s))).
  set (v := drop_while is_space u).
  assert (rev (drop_while is_space (rev v)) = v) as ->.
  { rewrite drop_while_id; [apply rev_involutive|].
    destruct (drop_while_suffix is_space u) as [a Ha]. fold v in Ha.
    pose proof (drop_while_head is_space (rev s)) as Hu.
    replace (drop_while is_space (rev s)) with (rev u) in Hu
      by (unfold u; apply rev_involutive).
    rewrite Ha, rev_app_distr in Hu.
    destruct (rev v) as [|x t]; [exact I|exact Hu]. }
  apply drop_while_id. apply drop_while_head.
Qed.

Lemma contains_split (p s : str) :
  contains p s = true -> exists a b, s = a ++ p ++ b.
Proof.
  induction s as [|x s IH]; simpl; intros H; apply orb_true_iff in H.
  - destruct H as [H|H]; [|discriminate]. apply starts_with_split in H.
    destruct H as [t H]. now exists [], t.
  - destruct H as [H|H].
    + apply starts_with_split in H. destruct H as [t H]. now exists [], t.
    + destruct (IH H) as (a & b & ->). now exists (x :: a), b.
Qed.

End Strip.

Section Stops.

Lemma template_shape :
  Uia.template_re =
  section_shape (lit "## Template") 1
    (Alt (Str (nl :: nl :: lit "##")) (Seq (Str [nl; nl]) Eol)).
Proof. reflexivity. Qed.


Lemma template_stop (c : cursor) :
  m dotall (Alt (Str (nl :: nl :: lit "##")) (Seq (Str [nl; nl]) Eol)) c <> [] <->
  ends_template (rest c) = true.
Proof.
  destruct c as [b s gs]. cbn [m rest].
  rewrite !lit_match_starts_with by reflexivity. unfold ends_template.
  destruct (starts_with (nl :: nl :: lit "##") s); [now split|].
  cbn [app orb].
  destruct (starts_with [nl; nl] s) eqn:E.
  - apply starts_with_split in E. destruct E as [t ->].
    cbn [flat_map]. unfold at_eol. cbn [advance rest length skipn app].
    cbn [str_eqb]. rewrite !eqc_refl. cbn [andb].
    destruct t as [|x [|y t]]; cbn [MULTILINE dotall orb andb].
    + now split.
    + cbn [str_eqb orb andb]. rewrite !andb_true_r. destruct (eqc x nl); now split.
    + cbn [str_eqb orb andb]. rewrite !andb_false_r. now split.
  - cbn [flat_map]. split; [easy|]. intros H. exfalso.
    apply orb_true_iff in H. destruct H as [H|H]; apply str_eqb_eq in H;
      rewrite H in E; vm_compute in E; discriminate.
Qed.


End Stops.

Section Bodies.

Lemma starts_with_app_self (p t : str) : starts_with p (p ++ t) = true.
Proof. apply starts_with_split. now exists t. Qed.


End Bodies.

(** In the generator a heading of level 1 does not end the body of
    the Template section, which runs on to the next empty line
    followed by [##]. *)
Lemma level_one_heading_is_passed_over :
  Uia.extract_from_content
    (joined ["# 12 - Independent domains"; ""; "## Template"; "";
             "Domains may overlap."; "# 13 - Next pattern"; "More text.";
             ""; "## Physical"; ""; "Regions."]%string)
  = (Some (lit "12"), Some (lit "Independent domains"),
     Some (joined ["Domains may overlap."; "# 13 - Next pattern"; "More text."]%string)).
Proof. vm_compute. reflexivity. Qed.

(** C6.  On a document whose Template section has a body of two lines
    followed by the heading of the next section,
    [extract_domain_sections] returns the first line only: under
    [re.MULTILINE] the [$] of its lookahead holds at the end of every
    line, and the lazy body stops there, not at the next heading.
    [extract_template_content], whose pattern is searched without
    that flag, returns both lines of the same section. *)
Theorem section_body_is_cut_at_its_first_line :
  let content :=
    joined ["# 12 - Independent domains"; ""; "## Template"; "";
            "Line one"; "Line two"; ""; "## Physical"; ""; "Regions."; ""]%string in
  Analyze.extract_domain_sections content
    = [ (lit "Template", lit "Line one"); (lit "Physical", lit "Regions.");
        (lit "Social", []); (lit "Conceptual", []); (lit "Psychic", []) ] /\
  Uia.extract_from_content content
    = (Some (lit "12"), Some (lit "Independent domains"),
       Some (joined ["Line one"; "Line two"]%string)).
Proof. vm_compute. split; reflexivity. Qed.

(* ================================================================== *)
(** * Case folding *)
(* ================================================================== *)

Section CaseFolding.

Lemma lower_lower (x : ascii) : lower (lower x) = lower x.
Proof. destruct x as [[] [] [] [] [] [] [] []]; vm_compute; reflexivity. Qed.

Lemma is_digit_lower (x : ascii) : is_digit (lower x) = is_digit x.
Proof. destruct x as [[] [] [] [] [] [] [] []]; vm_compute; reflexivity. Qed.

Lemma is_space_lower (x : ascii) : is_space (lower x) = is_space x.
Proof. destruct x as [[] [] [] [] [] [] [] []]; vm_compute; reflexivity. Qed.

Lemma eqc_nl_lower (x : ascii) : eqc (lower x) nl = eqc x nl.
Proof. destruct x as [[] [] [] [] [] [] [] []]; vm_compute; reflexivity. Qed.

Lemma str_lower_app (a b : str) : str_lower (a ++ b) = str_lower a ++ str_lower b.
Proof. apply map_app. Qed.

Variable f : flags.
Hypothesis ignore_case : IGNORECASE f = true.

Lemma eq_char_lower (p x : ascii) : eq_char f p (lower x) = eq_char f p x.
Proof. unfold eq_char. now rewrite ignore_case, lower_lower. Qed.

Lemma lit_match_lower (l : str) :
  forall s, lit_match f l (str_lower s) = lit_match f l s.
Proof.
  induction l as [|p l IH]; intros [|x s]; simpl; try reflexivity.
  now rewrite eq_char_lower, IH.
Qed.

Lemma in_cls_lower (k : cls) (x : ascii) : in_cls f k (lower x) = in_cls f k x.
Proof.
  destruct k; simpl.
  - apply is_digit_lower.
  - apply is_space_lower.
  - now rewrite eqc_nl_lower.
Qed.

Lemma run_lower (k : cls) (s : str) :
  run (in_cls f k) (str_lower s) = run (in_cls f k) s.
Proof.
  induction s as [|x s IH]; simpl; [reflexivity|].
  now rewrite in_cls_lower, IH.
Qed.

Lemma last_of_lower (w : str) :
  forall b, last_of (str_lower w) (option_map lower b) = option_map lower (last_of w b).
Proof.
  induction w as [|x w IH]; intros b; [reflexivity|]. apply (IH (Some x)).
Qed.

Lemma advance_lower (n : nat) (c : cursor) :
  advance n (low_cursor c) = low_cursor (advance n c).
Proof.
  unfold advance, low_cursor, str_lower. cbn [before rest groups].
  rewrite firstn_map, skipn_map. f_equal. apply last_of_lower.
Qed.

Lemma consumed_lower (c c' : cursor) :
  consumed (low_cursor c) (low_cursor c') = consumed c c'.
Proof. unfold consumed, low_cursor, str_lower. cbn [rest]. now rewrite !length_map. Qed.

Lemma capture_lower (n : nat) (c c' : cursor) :
  capture n (low_cursor c) (low_cursor c') = low_cursor (capture n c c').
Proof.
  unfold capture. rewrite consumed_lower. unfold low_cursor, str_lower.
  cbn [before rest groups map fst snd]. now rewrite firstn_map.
Qed.

Lemma at_boundary_lower (c : cursor) : at_boundary (low_cursor c) = at_boundary c.
Proof.
  unfold at_boundary, low_cursor. cbn [before rest]. f_equal.
  - destruct (before c); simpl; [apply is_word_lower|reflexivity].
  - destruct (rest c); simpl; [reflexivity|apply is_word_lower].
Qed.

Lemma at_bol_lower (c : cursor) : at_bol f (low_cursor c) = at_bol f c.
Proof.
  unfold at_bol, low_cursor. cbn [before].
  destruct (before c); simpl; [now rewrite eqc_nl_lower|reflexivity].
Qed.

Lemma at_eol_lower (c : cursor) : at_eol f (low_cursor c) = at_eol f c.
Proof.
  unfold at_eol, low_cursor. cbn [rest].
  destruct (rest c) as [|x [|y s]]; simpl; try reflexivity; now rewrite eqc_nl_lower.
Qed.

(** With [re.IGNORECASE] the matches in the folded subject are the
    folded matches, in the same order. *)
Lemma m_lower (r : regex) :
  forall c, m f r (low_cursor c) = map low_cursor (m f r c).
Proof.
  induction r as [l|k| | | |r1 IH1 r2 IH2|r1 IH1 r2 IH2|k lo g|n r IH|r IH];
    intros c; cbn [m].
  - change (rest (low_cursor c)) with (str_lower (rest c)).
    rewrite lit_match_lower. destruct (lit_match f l (rest c)); [|reflexivity].
    simpl. now rewrite advance_lower.
  - change (rest (low_cursor c)) with (str_lower (rest c)).
    destruct (rest c) as [|x s] eqn:E; [reflexivity|]. cbn [str_lower map].
    rewrite in_cls_lower. destruct (in_cls f k x); [|reflexivity].
    simpl. now rewrite advance_lower.
  - rewrite at_boundary_lower. now destruct (at_boundary c).
  - rewrite at_bol_lower. now destruct (at_bol f c).
  - rewrite at_eol_lower. now destruct (at_eol f c).
  - rewrite IH1, flat_map_map_comp.
    induction (m f r1 c) as [|c1 l IHl]; [reflexivity|].
    cbn [flat_map]. now rewrite map_app, IH2, IHl.
  - now rewrite IH1, IH2, map_app.
  - change (rest (low_cursor c)) with (str_lower (rest c)).
    rewrite run_lower, !map_map. apply map_ext. intros n. apply advance_lower.
  - rewrite IH, !map_map. apply map_ext. intros c'. apply capture_lower.
  - rewrite IH. now destruct (m f r c).
Qed.

Lemma match_here_lower (r : regex) (adv : bool) (c : cursor) :
  match_here f r adv (low_cursor c) = option_map low_cursor (match_here f r adv c).
Proof.
  unfold match_here. rewrite m_lower.
  induction (m f r c) as [|c1 l IH]; [reflexivity|].
  cbn [map filter]. rewrite consumed_lower.
  destruct (negb (adv && (consumed c c1 =? 0))); [reflexivity|exact IH].
Qed.

Variable r : regex.
Variable repl : str.
Hypothesis repl_folded : str_lower repl = repl.

Lemma sub_loop_lower (fuel : nat) :
  forall adv b s,
    sub_loop fuel f r repl adv (option_map lower b) (str_lower s)
      = str_lower (sub_loop fuel f r repl adv b s).
Proof.
  induction fuel as [|fuel IH]; intros adv b s; [reflexivity|].
  cbn [sub_loop].
  change (mk_cursor (option_map lower b) (str_lower s) [])
    with (low_cursor (mk_cursor b s [])).
  rewrite match_here_lower.
  destruct (match_here f r adv (mk_cursor b s [])) as [c'|]; cbn [option_map].
  - rewrite consumed_lower, str_lower_app, repl_folded. f_equal. apply IH.
  - destruct s as [|x s]; [reflexivity|]. cbn [str_lower map]. f_equal.
    apply (IH false (Some x) s).
Qed.

Lemma sub_lower (s : str) : sub r repl (str_lower s) f = str_lower (sub r repl s f).
Proof.
  unfold sub. unfold str_lower at 1. rewrite length_map.
  apply (sub_loop_lower _ false None s).
Qed.

End CaseFolding.

Lemma rewrite_all_lower (rules : list (regex * str)) :
  forallb (fun rule => str_eqb (str_lower (snd rule)) (snd rule)) rules = true ->
  forall text, rewrite_all rules (str_lower text) = str_lower (rewrite_all rules text).
Proof.
  unfold rewrite_all. induction rules as [|rule rs IH]; intros H text; [reflexivity|].
  simpl in H. apply andb_true_iff in H. destruct H as [H1 H2]. apply str_eqb_eq in H1.
  cbn [fold_left]. rewrite (sub_lower ic eq_refl _ _ H1). now apply IH.
Qed.

(** X1.  Both engines ignore case: running an engine on the text in
    lower case gives the lower-cased output of the engine on the
    text.  So which spans are replaced does not depend on the case of
    the letters, and the text outside them keeps its case. *)
Theorem engines_ignore_case (text : str) :
  Apl.identify_architectural_terms (str_lower text)
    = str_lower (Apl.identify_architectural_terms text) /\
  Uia.identify_domain_specific_terms (str_lower text)
    = str_lower (Uia.identify_domain_specific_terms text).
Proof.
  split.
  - rewrite (apl_engine text), (apl_engine (str_lower text)).
    apply rewrite_all_lower. vm_compute. reflexivity.
  - rewrite (uia_engine text), (uia_engine (str_lower text)).
    apply rewrite_all_lower. vm_compute. reflexivity.
Qed.

(* ================================================================== *)
(** * Separators: the engines work between them *)
(* ================================================================== *)

Section Separators.

Lemma is_alpha_lower (x : ascii) : is_alpha (lower x) = is_alpha x.
Proof. destruct x as [[] [] [] [] [] [] [] []]; vm_compute; reflexivity. Qed.

Lemma is_alpha_word (x : ascii) : is_alpha x = true -> is_word x = true.
Proof. destruct x as [[] [] [] [] [] [] [] []]; vm_compute; congruence. Qed.

Lemma lower_blank (x : ascii) : lower x = " "%char -> x = " "%char.
Proof. destruct x as [[] [] [] [] [] [] [] []]; vm_compute; congruence. Qed.

Lemma eq_char_alpha (f : flags) (p x : ascii) :
  eq_char f p x = true -> is_alpha x = is_alpha p.
Proof.
  unfold eq_char. destruct (IGNORECASE f); intros H; apply eqc_eq in H.
  - rewrite <- (is_alpha_lower x), <- (is_alpha_lower p). now rewrite H.
  - now subst.
Qed.

(** A character that is neither a letter nor a blank is read by no
    character of a lettered run. *)
Lemma letter_or_blank_misses (f : flags) (p x : ascii) :
  letter_or_blank p = true -> is_alpha x = false -> x <> " "%char ->
  eq_char f p x = false.
Proof.
  intros L A B. destruct (eq_char f p x) eqn:E; [exfalso|reflexivity].
  pose proof (eq_char_alpha _ _ _ E) as Ha. rewrite A in Ha.
  unfold letter_or_blank in L. rewrite <- Ha in L. cbn [orb] in L.
  apply eqc_eq in L. subst p. apply B. unfold eq_char in E.
  destruct (IGNORECASE f); apply eqc_eq in E.
  - apply lower_blank. now rewrite <- E.
  - now subst.
Qed.

Variable f : flags.
Variable x : ascii.
Variable t : str.
Hypothesis not_letter : is_alpha x = false.
Hypothesis not_blank : x <> " "%char.

Lemma lit_match_ext (l : str) :
  forallb letter_or_blank l = true ->
  forall s, lit_match f l (s ++ x :: t) = lit_match f l s.
Proof.
  induction l as [|p l IH]; intros H s; [reflexivity|].
  cbn [forallb] in H. apply andb_true_iff in H. destruct H as [H1 H2].
  destruct s as [|y s]; cbn [lit_match app].
  - now rewrite (letter_or_blank_misses f p x H1 not_letter not_blank).
  - now rewrite IH.
Qed.

Lemma advance_ext (n : nat) (c : cursor) :
  n <= length (rest c) -> advance n (ext_cursor x t c) = ext_cursor x t (advance n c).
Proof.
  intros L. unfold advance, ext_cursor. cbn [before rest groups].
  rewrite firstn_app, skipn_app.
  replace (n - length (rest c)) with 0 by lia.
  cbn [firstn skipn]. now rewrite app_nil_r.
Qed.

Lemma capture_ext (n : nat) (c c' : cursor) (w : str) :
  reaches c c' w ->
  capture n (ext_cursor x t c) (ext_cursor x t c') = ext_cursor x t (capture n c c').
Proof.
  intros [R _]. unfold capture, consumed, ext_cursor. cbn [before rest groups].
  rewrite !length_app. cbn [length].
  replace (length (rest c) + S (length t) - (length (rest c') + S (length t)))
    with (length (rest c) - length (rest c')) by lia.
  rewrite firstn_app.
  replace (length (rest c) - length (rest c') - length (rest c)) with 0 by lia.
  cbn [firstn]. now rewrite app_nil_r.
Qed.

Hypothesis not_word : is_word x = false.

Lemma at_boundary_ext (c : cursor) :
  at_boundary (ext_cursor x t c) = at_boundary c.
Proof.
  unfold at_boundary, ext_cursor. cbn [before rest]. f_equal.
  destruct (rest c); [exact not_word|reflexivity].
Qed.

(** The matches of a lettered pattern do not look beyond [x]. *)
Lemma m_ext (r : regex) :
  lettered r = true ->
  forall c, m f r (ext_cursor x t c) = map (ext_cursor x t) (m f r c).
Proof.
  induction r as [l|k| | | |r1 IH1 r2 IH2|r1 IH1 r2 IH2|k lo g|n r IH|r IH];
    cbn [lettered]; try discriminate; intros L c; cbn [m].
  - change (rest (ext_cursor x t c)) with (rest c ++ x :: t).
    rewrite (lit_match_ext l L). destruct (lit_match f l (rest c)) eqn:E; [|reflexivity].
    destruct (lit_match_split _ _ _ E) as (w & s' & Hs & Hl & _).
    cbn [map]. rewrite advance_ext; [reflexivity|].
    rewrite Hs, length_app. lia.
  - rewrite at_boundary_ext. now destruct (at_boundary c).
  - apply andb_true_iff in L. destruct L as [L1 L2].
    rewrite (IH1 L1), flat_map_map_comp.
    induction (m f r1 c) as [|c1 l IHl]; [reflexivity|].
    cbn [flat_map]. now rewrite map_app, (IH2 L2), IHl.
  - apply andb_true_iff in L. destruct L as [L1 L2].
    now rewrite (IH1 L1), (IH2 L2), map_app.
  - rewrite (IH L), !map_map. apply map_ext_in. intros c' I.
    destruct (m_reaches _ _ _ _ I) as [w R]. now apply (capture_ext n c c' w).
Qed.

Variable r : regex.
Variable repl : str.
Hypothesis shape : lettered_rule (r, repl) = true.

Lemma lettered_rule_inv : word_pattern r = true /\ lettered r = true.
Proof. unfold lettered_rule in shape. now apply andb_true_iff in shape. Qed.

Lemma match_here_ext (b : option ascii) (a : str) :
  match_here f r false (mk_cursor b (a ++ x :: t) [])
    = option_map (ext_cursor x t) (match_here f r false (mk_cursor b a [])).
Proof.
  destruct lettered_rule_inv as [_ L].
  rewrite !match_here_no_advance.
  change (mk_cursor b (a ++ x :: t) []) with (ext_cursor x t (mk_cursor b a [])).
  rewrite (m_ext r L). now destruct (m f r (mk_cursor b a [])).
Qed.

(** The loop of [re.sub] on a subject cut by [x]: the part before [x],
    then [x], then the part after it. *)
Lemma sub_loop_ext (n : nat) :
  forall a fuel1 fuel2 fuel3 b,
    length a <= n ->
    steps_left false (a ++ x :: t) <= fuel1 ->
    steps_left false a <= fuel2 ->
    steps_left false t <= fuel3 ->
    sub_loop fuel1 f r repl false b (a ++ x :: t)
      = sub_loop fuel2 f r repl false b a
          ++ x :: sub_loop fuel3 f r repl false (Some x) t.
Proof.
  destruct lettered_rule_inv as [W _].
  induction n as [|n IH]; intros a fuel1 fuel2 fuel3 b La L1 L2 L3;
    (destruct fuel1 as [|fuel1]; [unfold steps_left in L1; lia|]);
    (destruct fuel2 as [|fuel2]; [unfold steps_left in L2; lia|]);
    cbn [sub_loop]; rewrite match_here_ext;
    destruct (match_here f r false (mk_cursor b a [])) as [c'|] eqn:E;
    cbn [option_map].
  - apply match_here_in in E.
    destruct (word_match_sound _ _ _ _ W E) as (_ & w & _ & _ & N & [R _] & _).
    cbn [rest] in R. destruct a; [|cbn [length] in La; lia].
    destruct w; [now destruct N|discriminate].
  - destruct a; [|cbn [length] in La; lia]. cbn [app]. f_equal.
    apply sub_loop_enough; unfold steps_left in *; cbn [app length] in *; lia.
  - apply match_here_in in E.
    destruct (word_match_sound _ _ _ _ W E) as (_ & w & _ & _ & N & R & _).
    assert (consumed (mk_cursor b (a ++ x :: t) []) (ext_cursor x t c') = length w) as C1.
    { unfold consumed, ext_cursor. cbn [rest]. destruct R as [R _]. cbn [rest] in R.
      rewrite R, !length_app. lia. }
    rewrite C1, (reaches_length _ _ _ R).
    destruct R as [R _]. cbn [rest] in R.
    assert (length w <> 0) as N' by (destruct w; [now destruct N|discriminate]).
    apply Nat.eqb_neq in N'. rewrite N'. rewrite <- app_assoc. f_equal.
    apply Nat.eqb_neq in N'.
    change (rest (ext_cursor x t c')) with (rest c' ++ x :: t).
    change (before (ext_cursor x t c')) with (before c').
    apply IH; unfold steps_left in *; rewrite R in *;
      rewrite ?length_app in *; cbn [length] in *; lia.
  - destruct a as [|y a]; cbn [app]; f_equal.
    + apply sub_loop_enough; unfold steps_left in *; cbn [app length] in *; lia.
    + apply IH; unfold steps_left in *; cbn [app length] in *;
        rewrite ?length_app in *; cbn [length] in *; lia.
Qed.

End Separators.

Section Before.

Variable f : flags.

(** A run that is not empty lands after its last character, whatever
    stood before it. *)
Lemma m_simple_before (y : regex) :
  simple y = true -> forallb wordy (forms y) = true ->
  forall b1 b2 s gs, m f y (mk_cursor b1 s gs) = m f y (mk_cursor b2 s gs).
Proof.
  induction y as [l|k| | | |r1 IH1 r2 IH2|r1 IH1 r2 IH2|k lo g|n y IH|y IH];
    cbn [simple forms]; try discriminate; intros S Wy b1 b2 s gs; cbn [m rest].
  - destruct (lit_match f l s) eqn:E; [|reflexivity].
    cbn [forallb] in Wy. rewrite andb_true_r in Wy.
    destruct l as [|p l]; [discriminate|]. destruct s as [|z s]; [discriminate|].
    reflexivity.
  - apply andb_true_iff in S. destruct S as [S1 S2]. rewrite forallb_app in Wy.
    apply andb_true_iff in Wy. destruct Wy as [W1 W2].
    now rewrite (IH1 S1 W1 b1 b2), (IH2 S2 W2 b1 b2).
  - rewrite (IH S Wy b1 b2). reflexivity.
Qed.

Lemma m_word_before (r : regex) (b1 b2 : option ascii) (s : str) (gs : list (nat * str)) :
  word_pattern r = true -> word_opt b1 = word_opt b2 ->
  m f r (mk_cursor b1 s gs) = m f r (mk_cursor b2 s gs).
Proof.
  intros W B. destruct (word_pattern_inv _ W) as (y & -> & S & Wy & _).
  assert (at_boundary (mk_cursor b1 s gs) = at_boundary (mk_cursor b2 s gs)) as A
      by (unfold at_boundary; cbn [before rest]; now rewrite B).
  cbn [m]. rewrite A.
  destruct (at_boundary (mk_cursor b2 s gs)); [|reflexivity]. cbn [flat_map].
  rewrite !app_nil_r. now rewrite (m_simple_before y S Wy b1 b2).
Qed.

Lemma sub_loop_before (r : regex) (repl : str) (fuel : nat) (b1 b2 : option ascii) (s : str) :
  word_pattern r = true -> word_opt b1 = word_opt b2 ->
  sub_loop fuel f r repl false b1 s = sub_loop fuel f r repl false b2 s.
Proof.
  intros W B. destruct fuel as [|fuel]; [reflexivity|]. cbn [sub_loop].
  rewrite !match_here_no_advance, (m_word_before r b1 b2 s [] W B).
  destruct (hd_error _) as [c'|]; [|reflexivity].
  reflexivity.
Qed.

End Before.

Section Lines.

Variable x : ascii.
Hypothesis not_word : is_word x = false.
Hypothesis not_blank : x <> " "%char.

Lemma not_word_not_alpha : is_alpha x = false.
Proof.
  destruct (is_alpha x) eqn:E; [|reflexivity].
  apply is_alpha_word in E. congruence.
Qed.

Lemma sub_ext (r : regex) (repl a t : str) :
  lettered_rule (r, repl) = true ->
  sub r repl (a ++ x :: t) ic = sub r repl a ic ++ x :: sub r repl t ic.
Proof.
  intros S. unfold sub.
  rewrite (sub_loop_ext ic x t not_word_not_alpha not_blank not_word r repl S (length a) a
             _ (2 * length a + 2) (2 * length t + 2) None)
    by (unfold steps_left; lia).
  do 2 f_equal. apply sub_loop_before; [|exact not_word].
  unfold lettered_rule in S. now apply andb_true_iff in S.
Qed.

Lemma rewrite_all_ext (rules : list (regex * str)) :
  forallb lettered_rule rules = true ->
  forall a t, rewrite_all rules (a ++ x :: t)
              = rewrite_all rules a ++ x :: rewrite_all rules t.
Proof.
  unfold rewrite_all. induction rules as [|[r repl] rs IH]; intros H a t; [reflexivity|].
  cbn [forallb] in H. apply andb_true_iff in H. destruct H as [H1 H2].
  cbn [fold_left fst snd]. rewrite (sub_ext r repl a t H1). now apply IH.
Qed.

End Lines.

Lemma apl_rules_lettered : forallb lettered_rule apl_rules = true.
Proof. vm_compute. reflexivity. Qed.

Lemma uia_rules_lettered : forallb lettered_rule uia_rules = true.
Proof. vm_compute. reflexivity. Qed.

(** X2.  A character that is neither a word character nor a blank
    cuts the text in two parts that the engines treat separately: the
    output for [a ++ x :: b] is the output for [a], then [x], then
    the output for [b].  With [x] the newline, both engines work line
    by line. *)
Theorem engines_work_between_separators (x : ascii) (a b : str) :
  is_word x = false -> x <> " "%char ->
  Apl.identify_architectural_terms (a ++ x :: b)
    = Apl.identify_architectural_terms a ++ x :: Apl.identify_architectural_terms b /\
  Uia.identify_domain_specific_terms (a ++ x :: b)
    = Uia.identify_domain_specific_terms a ++ x :: Uia.identify_domain_specific_terms b.
Proof.
  intros W B. split.
  - rewrite (apl_engine (a ++ x :: b)), (apl_engine a), (apl_engine b).
    apply (rewrite_all_ext x W B apl_rules apl_rules_lettered).
  - rewrite (uia_engine (a ++ x :: b)), (uia_engine a), (uia_engine b).
    apply (rewrite_all_ext x W B uia_rules uia_rules_lettered).
Qed.

Lemma engines_work_between_separators_witness :
  is_word nl = false /\ nl <> " "%char /\
  Apl.identify_architectural_terms (lit "The town" ++ nl :: lit "is old.")
    = Apl.identify_architectural_terms (lit "The town")
        ++ nl :: Apl.identify_architectural_terms (lit "is old.").
Proof.
  assert (is_word nl = false) as W by reflexivity.
  assert (nl <> " "%char) as B by discriminate.
  split; [exact W|]. split; [exact B|].
  apply (proj1 (engines_work_between_separators nl (lit "The town") (lit "is old.") W B)).
Defined.

(* ================================================================== *)
(** * Characters the engines leave alone *)
(* ================================================================== *)

Section Counting.

Lemma occurrences_app (x : ascii) (a b : str) :
  occurrences x (a ++ b) = occurrences x a + occurrences x b.
Proof. apply count_occ_app. Qed.

Lemma occurrences_cons (x y : ascii) (s : str) :
  occurrences x (y :: s) = occurrences x [y] + occurrences x s.
Proof. apply (occurrences_app x [y] s). Qed.

Lemma lettered_forms (r : regex) :
  lettered r = true -> forall t, In t (forms r) -> forallb letter_or_blank t = true.
Proof.
  induction r as [l|k| | | |r1 IH1 r2 IH2|r1 IH1 r2 IH2|k lo g|n r IH|r IH];
    cbn [lettered forms]; try discriminate.
  - intros L t [<-|[]]. exact L.
  - intros _ t [].
  - intros _ t [].
  - intros L t I. apply andb_true_iff in L. destruct L as [L1 L2].
    apply in_app_or in I. destruct I; eauto.
  - exact IH.
Qed.

Lemma lettered_surface_forms (rule : regex * str) :
  lettered_rule rule = true ->
  word_pattern (fst rule) = true /\
  forall t, In t (surface_forms (fst rule)) -> forallb letter_or_blank t = true.
Proof.
  unfold lettered_rule. intros H. apply andb_true_iff in H. destruct H as [W L].
  split; [exact W|]. destruct (word_pattern_inv _ W) as (y & E & _ & _ & ->).
  rewrite E in L. cbn [lettered] in L. rewrite andb_true_r in L.
  now apply lettered_forms.
Qed.

(** A character that no character of the form reads does not occur
    in a text that reads as the form. *)
Lemma unread_absent (f : flags) (x : ascii) (t w : str) :
  Forall2 (fun p y => eq_char f p y = true) t w ->
  (forall p, In p t -> eq_char f p x = false) ->
  occurrences x w = 0.
Proof.
  induction 1 as [|p y t w E F IH]; intros U; [reflexivity|].
  rewrite occurrences_cons, IH by (intros q I; apply U; now right).
  unfold occurrences. cbn [count_occ].
  destruct (ascii_dec y x) as [->|_]; [|reflexivity].
  rewrite (U p) in E by now left. discriminate.
Qed.

Variable f : flags.
Variable r : regex.
Variable repl : str.
Hypothesis shape : lettered_rule (r, repl) = true.

(** One [re.sub] with a lettered rule: some number [k] of spans are
    replaced, and a character that is neither a letter nor a blank is
    lost in none of them. *)
Lemma sub_loop_occurrences (fuel : nat) :
  forall b s, exists k, forall x,
    is_alpha x = false -> x <> " "%char ->
    occurrences x (sub_loop fuel f r repl false b s)
      = occurrences x s + k * occurrences x repl.
Proof.
  destruct (lettered_surface_forms _ shape) as [W L]. cbn [fst] in W, L.
  induction fuel as [|fuel IH]; intros b s; [exists 0; intros; cbn [sub_loop]; lia|].
  cbn [sub_loop].
  destruct (match_here f r false (mk_cursor b s [])) as [c'|] eqn:E.
  - apply match_here_in in E.
    destruct (word_match_sound _ _ _ _ W E) as (t & w & I & F & N & R & _).
    rewrite (reaches_length _ _ _ R). destruct R as [R _]. cbn [rest] in R.
    replace (length w =? 0) with false by (destruct w; [now destruct N|reflexivity]).
    destruct (IH (before c') (rest c')) as [k Hk]. exists (S k). intros x A B.
    rewrite occurrences_app, (Hk x A B), R, occurrences_app.
    rewrite (unread_absent f x t w F).
    + cbn [Nat.mul]. lia.
    + intros p Ip. apply letter_or_blank_misses; try assumption.
      pose proof (L t I) as Lt. rewrite forallb_forall in Lt. now apply Lt.
  - destruct s as [|y s]; [exists 0; intros; lia|].
    destruct (IH (Some y) s) as [k Hk]. exists k. intros x A B.
    rewrite (occurrences_cons x y s),
            (occurrences_cons x y (sub_loop fuel f r repl false (Some y) s)),
            (Hk x A B).
    lia.
Qed.

End Counting.

Section EngineCounts.

Lemma token_char_absent (x : ascii) (repl : str) :
  inert x = true -> forallb token_char repl = true -> occurrences x repl = 0.
Proof.
  intros Hx. induction repl as [|q repl IH]; intros H; [reflexivity|].
  cbn [forallb] in H. apply andb_true_iff in H. destruct H as [H1 H2].
  rewrite occurrences_cons, (IH H2). unfold occurrences. cbn [count_occ].
  destruct (ascii_dec q x) as [->|_]; [|reflexivity].
  exfalso. revert Hx H1. clear.
  destruct x as [[] [] [] [] [] [] [] []]; vm_compute; congruence.
Qed.

Lemma inert_inv (x : ascii) : inert x = true -> is_alpha x = false /\ x <> " "%char.
Proof.
  intros H. split.
  - unfold inert in H. apply andb_true_iff in H. destruct H as [H _].
    now apply negb_true_iff in H.
  - intros ->. discriminate.
Qed.

Lemma rewrite_all_inert (rules : list (regex * str)) (x : ascii) :
  forallb lettered_rule rules = true ->
  forallb (fun rule => forallb token_char (snd rule)) rules = true ->
  inert x = true ->
  forall text, occurrences x (rewrite_all rules text) = occurrences x text.
Proof.
  intros L T Hx. destruct (inert_inv x Hx) as [A B]. unfold rewrite_all.
  induction rules as [|[r repl] rs IH]; intros text; [reflexivity|].
  cbn [forallb fst snd] in L, T.
  apply andb_true_iff in L. destruct L as [L1 L2].
  apply andb_true_iff in T. destruct T as [T1 T2].
  cbn [fold_left fst snd]. rewrite (IH L2 T2). unfold sub.
  destruct (sub_loop_occurrences ic r repl L1 (2 * length text + 2) None text) as [k Hk].
  rewrite (Hk x A B), (token_char_absent x repl Hx T1). lia.
Qed.

Lemma rewrite_all_pairs (rules : list (regex * str)) :
  forallb lettered_rule rules = true ->
  forallb (fun rule => two_braces (snd rule)) rules = true ->
  forall text, exists k,
    occurrences "{"%char (rewrite_all rules text) = occurrences "{"%char text + 2 * k /\
    occurrences "}"%char (rewrite_all rules text) = occurrences "}"%char text + 2 * k.
Proof.
  unfold rewrite_all.
  induction rules as [|[r repl] rs IH]; intros L T text; [exists 0; cbn [fold_left]; lia|].
  cbn [forallb fst snd] in L, T.
  apply andb_true_iff in L. destruct L as [L1 L2].
  apply andb_true_iff in T. destruct T as [T1 T2].
  unfold two_braces in T1. apply andb_true_iff in T1. destruct T1 as [O C].
  apply Nat.eqb_eq in O, C.
  cbn [fold_left fst snd].
  destruct (IH L2 T2 (sub r repl text ic)) as [k [H1 H2]].
  destruct (sub_loop_occurrences ic r repl L1 (2 * length text + 2) None text) as [j Hj].
  exists (k + j). rewrite H1, H2. unfold sub.
  rewrite (Hj "{"%char eq_refl ltac:(discriminate)),
          (Hj "}"%char eq_refl ltac:(discriminate)), O, C.
  lia.
Qed.

End EngineCounts.

Section Letterless.

Lemma wordy_letter (t : str) :
  wordy t = true -> forallb letter_or_blank t = true ->
  exists p t', t = p :: t' /\ is_alpha p = true.
Proof.
  unfold wordy. intros W L. destruct t as [|p t]; [discriminate|].
  exists p, t. split; [reflexivity|].
  apply andb_true_iff in W. destruct W as [W _]. cbn [hd_error word_opt] in W.
  cbn [forallb] in L. apply andb_true_iff in L. destruct L as [L _].
  unfold letter_or_blank in L. destruct (is_alpha p); [reflexivity|].
  cbn [orb] in L. apply eqc_eq in L. subst p. discriminate.
Qed.

Variable rule : regex * str.
Hypothesis shape : lettered_rule rule = true.

Lemma letterless_no_match (b : option ascii) (s : str) :
  letterless s = true -> m ic (fst rule) (mk_cursor b s []) = [].
Proof.
  intros H. destruct (lettered_surface_forms _ shape) as [W L].
  destruct (m ic (fst rule) (mk_cursor b s [])) as [|c' l] eqn:E; [reflexivity|exfalso].
  assert (In c' (m ic (fst rule) (mk_cursor b s []))) as I by (rewrite E; now left).
  destruct (word_match_sound _ _ _ _ W I) as (t & w & It & F & _ & [R _] & _).
  cbn [rest] in R.
  destruct (word_pattern_inv _ W) as (y & _ & _ & Wy & Hs).
  rewrite Hs in It. rewrite forallb_forall in Wy. pose proof (Wy t It) as Wt.
  rewrite <- Hs in It.
  destruct (wordy_letter t Wt (L t It)) as (p & t' & -> & A).
  inversion F as [|p0 z t0 w0 Ez F0]; subst.
  rewrite <- (eq_char_alpha _ _ _ Ez) in A.
  cbn [app letterless forallb] in H. rewrite A in H. discriminate.
Qed.

Lemma letterless_search (s : str) :
  forall b, letterless s = true -> search_from ic (fst rule) b s = None.
Proof.
  induction s as [|z s IH]; intros b H; apply search_from_none.
  - split; [now apply letterless_no_match|exact I].
  - split; [now apply letterless_no_match|]. apply IH.
    cbn [letterless forallb] in H. apply andb_true_iff in H. apply H.
Qed.

End Letterless.

Lemma rewrite_all_letterless (rules : list (regex * str)) (text : str) :
  forallb placeholder_rule rules = true ->
  forallb lettered_rule rules = true ->
  letterless text = true -> rewrite_all rules text = text.
Proof.
  intros P L H. apply (rewrite_all_fixed rules P). intros rule I.
  rewrite forallb_forall in L. now apply letterless_search; [apply L|].
Qed.

Lemma apl_tokens : forallb (fun rule => forallb token_char (snd rule)) apl_rules = true.
Proof. vm_compute. reflexivity. Qed.

Lemma uia_tokens : forallb (fun rule => forallb token_char (snd rule)) uia_rules = true.
Proof. vm_compute. reflexivity. Qed.

Lemma apl_two_braces : forallb (fun rule => two_braces (snd rule)) apl_rules = true.
Proof. vm_compute. reflexivity. Qed.

Lemma uia_two_braces : forallb (fun rule => two_braces (snd rule)) uia_rules = true.
Proof. vm_compute. reflexivity. Qed.

(** X3.  A character that is not a letter, a blank, a brace or a
    hyphen occurs in the output of either engine as often as in the
    input: digits, punctuation and newlines are neither added nor
    removed. *)
Theorem engines_keep_other_characters (x : ascii) (text : str) :
  inert x = true ->
  occurrences x (Apl.identify_architectural_terms text) = occurrences x text /\
  occurrences x (Uia.identify_domain_specific_terms text) = occurrences x text.
Proof.
  intros H. split.
  - rewrite (apl_engine text).
    apply (rewrite_all_inert apl_rules x apl_rules_lettered apl_tokens H).
  - rewrite (uia_engine text).
    apply (rewrite_all_inert uia_rules x uia_rules_lettered uia_tokens H).
Qed.

Lemma engines_keep_other_characters_witness :
  inert nl = true /\
  occurrences nl (Uia.identify_domain_specific_terms (joined ["Domains"; "and areas."]%string))
    = occurrences nl (joined ["Domains"; "and areas."]%string).
Proof.
  assert (inert nl = true) as H by reflexivity.
  split; [exact H|].
  apply (proj2 (engines_keep_other_characters nl (joined ["Domains"; "and areas."]%string) H)).
Defined.

(** X4.  Either engine adds braces two by two, as many opening as
    closing ones: the output has [2 * k] more of each than the input,
    for some number [k] of replacements, and removes none. *)
Theorem engines_add_braces_in_pairs (text : str) :
  (exists k,
     occurrences "{"%char (Apl.identify_architectural_terms text)
       = occurrences "{"%char text + 2 * k /\
     occurrences "}"%char (Apl.identify_architectural_terms text)
       = occurrences "}"%char text + 2 * k) /\
  (exists k,
     occurrences "{"%char (Uia.identify_domain_specific_terms text)
       = occurrences "{"%char text + 2 * k /\
     occurrences "}"%char (Uia.identify_domain_specific_terms text)
       = occurrences "}"%char text + 2 * k).
Proof.
  split.
  - rewrite (apl_engine text).
    apply (rewrite_all_pairs apl_rules apl_rules_lettered apl_two_braces).
  - rewrite (uia_engine text).
    apply (rewrite_all_pairs uia_rules uia_rules_lettered uia_two_braces).
Qed.

(** X5.  A text without letters (the empty text, digits, punctuation,
    white space) is returned unchanged by both engines. *)
Theorem text_without_letters_is_unchanged (text : str) :
  letterless text = true ->
  Apl.identify_architectural_terms text = text /\
  Uia.identify_domain_specific_terms text = text.
Proof.
  intros H. split.
  - rewrite (apl_engine text).
    apply (rewrite_all_letterless apl_rules text apl_rules_shape apl_rules_lettered H).
  - rewrite (uia_engine text).
    apply (rewrite_all_letterless uia_rules text uia_rules_shape uia_rules_lettered H).
Qed.

Lemma text_without_letters_is_unchanged_witness :
  letterless (lit "12.5 % (2024)") = true /\
  Apl.identify_architectural_terms (lit "12.5 % (2024)") = lit "12.5 % (2024)".
Proof.
  assert (letterless (lit "12.5 % (2024)") = true) as H by reflexivity.
  split; [exact H|].
  apply (proj1 (text_without_letters_is_unchanged (lit "12.5 % (2024)") H)).
Defined.

(* ================================================================== *)
(** * Texts of white space *)
(* ================================================================== *)

Section Blank.

Lemma drop_while_all (p : ascii -> bool) (s : str) :
  forallb p s = true -> drop_while p s = [].
Proof.
  induction s as [|x s IH]; cbn [forallb drop_while]; [reflexivity|].
  intros H. apply andb_true_iff in H. destruct H as [-> H]. now apply IH.
Qed.

Lemma drop_while_nil (p : ascii -> bool) (s : str) :
  drop_while p s = [] -> forallb p s = true.
Proof.
  induction s as [|x s IH]; cbn [forallb drop_while]; [reflexivity|].
  destruct (p x); [exact IH|discriminate].
Qed.

Lemma drop_while_prefix (p : ascii -> bool) (s : str) :
  exists a, s = a ++ drop_while p s /\ forallb p a = true.
Proof.
  induction s as [|x s [a [E F]]]; [now exists []|]. cbn [drop_while].
  destruct (p x) eqn:P.
  - exists (x :: a). cbn [forallb app]. rewrite P, F. split; [congruence|reflexivity].
  - now exists [].
Qed.

Lemma forallb_rev (p : ascii -> bool) (s : str) : forallb p (rev s) = forallb p s.
Proof.
  induction s as [|x s IH]; [reflexivity|]. cbn [rev forallb].
  rewrite forallb_app, IH. cbn [forallb]. rewrite andb_true_r. apply andb_comm.
Qed.

(** [s.strip()] is empty exactly when [s] is white space. *)
Lemma strip_blank (s : str) : strip s = [] <-> blank s = true.
Proof.
  unfold strip, lstrip, rstrip, blank. split.
  - intros H. apply drop_while_nil in H. rewrite forallb_rev in H.
    destruct (drop_while_prefix is_space (rev s)) as [a [E F]].
    rewrite <- (forallb_rev is_space s), E, forallb_app, F, H. reflexivity.
  - intros H. rewrite <- forallb_rev in H. now rewrite (drop_while_all _ _ H).
Qed.

Lemma strip_truth (s : str) :
  match strip s with [] => true | _ => false end = blank s.
Proof.
  destruct (blank s) eqn:B.
  - apply strip_blank in B. now rewrite B.
  - destruct (strip s) eqn:E; [|reflexivity].
    apply strip_blank in E. congruence.
Qed.

End Blank.


(* ================================================================== *)
(** * What is extracted and what is counted *)
(* ================================================================== *)

Section Extraction.

Lemma firstn_run_nonempty (p : ascii -> bool) (s : str) :
  1 <= run p s -> firstn (run p s) s <> [].
Proof. destruct s as [|x s]; cbn [run]; [lia|]. destruct (p x); [discriminate|lia]. Qed.

(** A title read at the head of a text: digits, then a name on the
    same line, both non-empty. *)
Lemma title_at_shape (s i n : str) :
  title_at s = Some (i, n) ->
  i <> [] /\ forallb is_digit i = true /\ n <> [] /\ forallb not_nl n = true.
Proof.
  unfold title_at. destruct (starts_with (lit "# ") s); [|discriminate].
  set (s1 := skipn 2 s). set (s2 := skipn (run is_digit s1) s1).
  destruct (1 <=? run is_digit s1) eqn:D; [|discriminate]. cbn [andb].
  destruct (starts_with (lit " - ") s2); [|discriminate].
  set (s3 := skipn 3 s2).
  destruct (1 <=? run not_nl s3) eqn:K; [|discriminate].
  apply Nat.leb_le in D, K. intros H. injection H as <- <-.
  repeat split.
  - now apply firstn_run_nonempty.
  - now apply run_firstn.
  - now apply firstn_run_nonempty.
  - now apply run_firstn.
Qed.

Lemma first_title_line_in (ls : list str) (t : str * str) :
  first_title_line ls = Some t -> exists l, In l ls /\ title_at l = Some t.
Proof.
  induction ls as [|l ls IH]; cbn [first_title_line]; [discriminate|].
  destruct (title_at l) as [t'|] eqn:E.
  - intros H. injection H as <-. exists l. split; [now left|assumption].
  - intros H. destruct (IH H) as (l' & I & E'). exists l'. split; [now right|assumption].
Qed.

(** What [extract_template_content] returns for a file it accepts. *)
Lemma extract_from_content_some (content i n t : str) :
  Uia.extract_from_content content = (Some i, Some n, Some t) ->
  (exists l, In l (split_lines content) /\ title_at l = Some (i, n)) /\
  strip t = t.
Proof.
  unfold Uia.extract_from_content. fold multiline. fold dotall.
  pose proof (uia_title_search content) as T.
  destruct (search Uia.title_re content multiline) as [tm|]; [|discriminate].
  destruct (search Uia.template_re content dotall) as [mo|]; [|discriminate].
  intros H. injection H as <- <- <-. split.
  - apply first_title_line_in. symmetry. exact T.
  - apply strip_strip.
Qed.

Lemma extract_from_content_truthy (content i n t : str) :
  Uia.extract_from_content content = (Some i, Some n, Some t) ->
  truthy (Some i) = true /\ truthy (Some n) = true.
Proof.
  intros H. destruct (extract_from_content_some _ _ _ _ H) as [(l & _ & E) _].
  destruct (title_at_shape _ _ _ E) as (Hi & _ & Hn & _).
  destruct i; [easy|]. destruct n; [easy|]. now split.
Qed.

End Extraction.

Section Tally.

Variable st : Uia.run.
Variable path : str.

Lemma process_unreadable (e : str) :
  Uia.generated_count (Uia.process_file st (path, Uia.Unreadable e))
    = Uia.generated_count st /\
  Uia.no_template_count (Uia.process_file st (path, Uia.Unreadable e))
    = Uia.no_template_count st /\
  Uia.written (Uia.process_file st (path, Uia.Unreadable e)) = Uia.written st.
Proof. repeat split. Qed.

(** The three ways a turn of the loop can go for a readable file. *)
Lemma process_readable (content : str) :
  let st' := Uia.process_file st (path, Uia.Readable content) in
  (Uia.extract_from_content content = Uia.none3 /\
   Uia.generated_count st' = Uia.generated_count st /\
   Uia.no_template_count st' = Uia.no_template_count st /\
   Uia.written st' = Uia.written st) \/
  (exists i n, Uia.extract_from_content content = (Some i, Some n, Some []) /\
     Uia.generated_count st' = Uia.generated_count st /\
     Uia.no_template_count st' = S (Uia.no_template_count st) /\
     Uia.written st' = Uia.written st) \/
  (exists i n x t, Uia.extract_from_content content = (Some i, Some n, Some (x :: t)) /\
     Uia.generated_count st' = S (Uia.generated_count st) /\
     Uia.no_template_count st' = Uia.no_template_count st /\
     Uia.written st'
       = Uia.written st ++ [(arc_file i, Uia.generate_archetypal_pattern i n (x :: t))]).
Proof.
  cbn zeta. destruct (extract_from_content_shape content) as [E|(i & n & t & E)].
  - left. split; [exact E|]. unfold Uia.process_file.
    cbn [Uia.extract_template_content]. now rewrite E.
  - right. destruct (extract_from_content_truthy _ _ _ _ E) as [Ti Tn].
    unfold Uia.process_file. cbn [Uia.extract_template_content]. rewrite E, Ti, Tn.
    destruct t as [|x t]; [left|right].
    + exists i, n. now split.
    + exists i, n, x, t. now split.
Qed.

End Tally.

Section Corpus.

(** What the loop adds over a list of files does not depend on the
    state it starts from. *)
Lemma fold_process_frame (files : list (str * Uia.file)) :
  exists g k ws ls,
    forall st,
      Uia.generated_count (fold_left Uia.process_file files st) = Uia.generated_count st + g /\
      Uia.no_template_count (fold_left Uia.process_file files st)
        = Uia.no_template_count st + k /\
      Uia.written (fold_left Uia.process_file files st) = Uia.written st ++ ws /\
      Uia.stdout (fold_left Uia.process_file files st) = Uia.stdout st ++ ls.
Proof.
  induction files as [|e files IH].
  - exists 0, 0, [], []. intros st. cbn [fold_left]. now rewrite !app_nil_r, !Nat.add_0_r.
  - destruct IH as (g & k & ws & ls & F).
    destruct (process_file_frame Uia.start e) as (g1 & k1 & ws1 & ls1 & F1).
    exists (g1 + g), (k1 + k), (ws1 ++ ws), (ls1 ++ ls). intros st. cbn [fold_left].
    destruct (F (Uia.process_file st e)) as (A1 & A2 & A3 & A4).
    destruct (F1 st) as (B1 & B2 & B3 & B4).
    rewrite A1, A2, A3, A4, B1, B2, B3, B4, !app_assoc. repeat split; lia.
Qed.

Lemma process_file_counts (st : Uia.run) (entry : str * Uia.file) :
  length (Uia.written st) = Uia.generated_count st ->
  length (Uia.written (Uia.process_file st entry))
    = Uia.generated_count (Uia.process_file st entry) /\
  Uia.generated_count (Uia.process_file st entry)
    + Uia.no_template_count (Uia.process_file st entry)
    <= S (Uia.generated_count st + Uia.no_template_count st).
Proof.
  intros H. destruct entry as [path [e|content]].
  - destruct (process_unreadable st path e) as (-> & -> & ->). split; [assumption|lia].
  - destruct (process_readable st path content)
      as [(_ & -> & -> & ->)|[(i & n & _ & -> & -> & ->)|(i & n & x & t & _ & -> & -> & ->)]].
    + split; [assumption|lia].
    + split; [assumption|lia].
    + rewrite length_app. cbn [length]. split; lia.
Qed.

Lemma fold_process_counts (files : list (str * Uia.file)) :
  forall st,
    length (Uia.written st) = Uia.generated_count st ->
    length (Uia.written (fold_left Uia.process_file files st))
      = Uia.generated_count (fold_left Uia.process_file files st) /\
    Uia.generated_count (fold_left Uia.process_file files st)
      + Uia.no_template_count (fold_left Uia.process_file files st)
      <= Uia.generated_count st + Uia.no_template_count st + length files.
Proof.
  induction files as [|e files IH]; intros st H; cbn [fold_left length].
  - split; [assumption|lia].
  - destruct (process_file_counts st e H) as [H1 H2].
    destruct (IH _ H1) as [H3 H4]. split; [assumption|lia].
Qed.

(** Every file written by the loop is made from a file of the corpus
    that has a title line and a Template section with a body. *)
Lemma fold_process_written (files : list (str * Uia.file)) (name text : str) :
  forall st,
    In (name, text) (Uia.written (fold_left Uia.process_file files st)) ->
    In (name, text) (Uia.written st) \/
    exists path content i n t,
      In (path, Uia.Readable content) files /\
      Uia.extract_from_content content = (Some i, Some n, Some t) /\
      t <> [] /\ name = arc_file i /\ text = Uia.generate_archetypal_pattern i n t.
Proof.
  induction files as [|e files IH]; intros st H; cbn [fold_left] in H; [now left|].
  destruct (IH _ H) as [I|(path & content & i & n & t & I & R)].
  - destruct e as [path [e|content]].
    + left. exact I.
    + destruct (process_readable st path content)
        as [(_ & _ & _ & O)|[(i & n & _ & _ & _ & O)|(i & n & x & t & E & _ & _ & O)]];
        rewrite O in I.
      * now left.
      * now left.
      * apply in_app_or in I. destruct I as [I|[I|[]]]; [now left|].
        injection I as <- <-. right. exists path, content, i, n, (x :: t).
        repeat split; try assumption; [now left|discriminate].
  - right. exists path, content, i, n, t. split; [now right|exact R].
Qed.

End Corpus.

(** X6.  When [extract_template_content] returns three strings for a
    file, the pattern id is a non-empty run of digits, the pattern
    name is not empty and has no newline, and the template has no
    white space on either end. *)
Theorem extracted_title_is_well_formed (path content i n t : str) :
  fst (Uia.extract_template_content path (Uia.Readable content))
    = (Some i, Some n, Some t) ->
  i <> [] /\ forallb is_digit i = true /\
  n <> [] /\ forallb not_nl n = true /\
  strip t = t.
Proof.
  cbn [Uia.extract_template_content fst]. intros H.
  destruct (extract_from_content_some _ _ _ _ H) as [(l & _ & E) S].
  destruct (title_at_shape _ _ _ E) as (H1 & H2 & H3 & H4). tauto.
Qed.

Lemma extracted_title_is_well_formed_witness :
  fst (Uia.extract_template_content (lit "uia/12.md") (Uia.Readable complete))
    = (Some (lit "12"), Some (lit "Independent domains"), Some (lit "Domains may overlap.")) /\
  forallb is_digit (lit "12") = true /\
  forallb not_nl (lit "Independent domains") = true.
Proof.
  assert (fst (Uia.extract_template_content (lit "uia/12.md") (Uia.Readable complete))
    = (Some (lit "12"), Some (lit "Independent domains"), Some (lit "Domains may overlap.")))
    as H by (vm_compute; reflexivity).
  split; [exact H|].
  pose proof (extracted_title_is_well_formed _ _ _ _ _ H) as (_ & H2 & _ & H4 & _).
  split; assumption.
Defined.


Section TemplateBodies.

Lemma extract_by_lines (content : str) :
  Uia.extract_from_content content =
  match first_title_line (split_lines content),
        search Uia.template_re content dotall with
  | Some (i, n), Some template_match =>
      (Some i, Some n, Some (strip (group template_match 1)))
  | _, _ => Uia.none3
  end.
Proof.
  unfold Uia.extract_from_content. fold multiline. fold dotall.
  rewrite <- (uia_title_search content).
  destruct (search Uia.title_re content multiline) as [tm|]; [|reflexivity].
  cbn [option_map]. unfold id_and_name. reflexivity.
Qed.

End TemplateBodies.

(* ================================================================== *)
(** * The first closed Template section *)
(* ================================================================== *)

Section Readings.

Lemma app_same_length (A : Type) (a a' b b' : list A) :
  a ++ b = a' ++ b' -> length a = length a' -> a = a' /\ b = b'.
Proof.
  revert a'. induction a as [|x a IH]; intros [|x' a'] H L; simpl in *; try lia.
  - now split.
  - injection H as <- H. injection L as L. destruct (IH _ H L) as [-> ->]. now split.
Qed.

Lemma run_prefix (p : ascii -> bool) (a t : str) :
  forallb p a = true -> length a <= run p (a ++ t).
Proof.
  induction a as [|x a IH]; simpl; [lia|]. intros H.
  apply andb_true_iff in H. destruct H as [-> H]. specialize (IH H). lia.
Qed.

Lemma rev_seq_before (n k : nat) (l1 l2 : list nat) :
  rev (seq 0 n) = l1 ++ k :: l2 -> forall z, k < z < n -> In z l1.
Proof.
  intros H z L.
  apply (f_equal (@rev nat)) in H. rewrite rev_involutive, rev_app_distr in H.
  cbn [rev] in H. rewrite <- app_assoc in H. cbn [app] in H.
  assert (In z (seq 0 n)) as I by (apply in_seq; lia).
  destruct (seq_split _ _ _ _ _ H) as [E _].
  rewrite H in I. apply in_app_or in I. destruct I as [I|[I|I]].
  - rewrite E in I. apply in_seq in I. lia.
  - lia.
  - now apply in_rev.
Qed.

Lemma flat_map_some (A B : Type) (h : A -> list B) (l : list A) (x : A) :
  In x l -> h x <> [] -> flat_map h l <> [].
Proof.
  intros I N E. apply N. destruct (h x) as [|y t] eqn:Hx; [reflexivity|].
  assert (In y (flat_map h l)) as Iy
      by (apply in_flat_map; exists x; split; [assumption|rewrite Hx; now left]).
  rewrite E in Iy. destruct Iy.
Qed.

Lemma search_from_none_at (f : flags) (r : regex) (p : str) :
  forall b q, search_from f r b (p ++ q) = None ->
              m f r (mk_cursor (last_of p b) q []) = [].
Proof.
  induction p as [|x p IH]; intros b q H; apply search_from_none in H.
  - apply H.
  - destruct H as [_ H]. cbn [app] in H. apply (IH _ _ H).
Qed.

Lemma rest_after_space (c : cursor) (ws t : str) :
  rest c = ws ++ [nl; nl] ++ t ->
  rest (advance (length [nl; nl]) (advance (length ws) c)) = t.
Proof. intros H. cbn [advance rest]. rewrite H, skipn_length_app. reflexivity. Qed.

Variable f : flags.
Hypothesis case_matters : IGNORECASE f = false.
Hypothesis dot_all : DOTALL f = true.

Variable stop : regex.
Variable stops : str -> bool.
Hypothesis stop_groupless : groupless stop = true.
Hypothesis stop_rest : forall c, m f stop c <> [] <-> stops (rest c) = true.

Lemma run_dot (s : str) : run (in_cls f Dot) s = length s.
Proof. apply run_all. intros x. unfold in_cls. now rewrite dot_all. Qed.

(** The body and the lookahead: some body of [j] characters is
    followed by a stop. *)
Lemma body_then_stop (lo j : nat) (c : cursor) :
  lo <= j <= length (rest c) ->
  stops (skipn j (rest c)) = true ->
  m f (Seq (Group 1 (Rep Dot lo false)) (Ahead stop)) c <> [].
Proof.
  intros L S. cbn [m]. rewrite !flat_map_map_comp.
  apply (flat_map_some _ _ _ _ j).
  - unfold counts. rewrite run_dot. apply in_seq. lia.
  - assert (m f stop (capture 1 c (advance j c)) <> []) as N by now apply stop_rest.
    destruct (m f stop (capture 1 c (advance j c))); [easy|discriminate].
Qed.

(** Every way of reading a section at a position is found by the
    pattern. *)
Lemma section_found (head : str) (lo : nat) (c : cursor) (ws g post : str) :
  rest c = head ++ ws ++ [nl; nl] ++ g ++ post ->
  forallb is_space ws = true -> lo <= length g -> stops post = true ->
  m f (section_shape head lo stop) c <> [].
Proof.
  intros R W L S. unfold section_shape.
  rewrite m_str_then, lit_match_starts_with by assumption.
  rewrite R, starts_with_app_self.
  set (c1 := advance (length head) c).
  assert (rest c1 = ws ++ [nl; nl] ++ g ++ post) as R1
      by (cbn [c1 advance rest]; now rewrite R, skipn_length_app).
  change (m f (Seq (Rep Space 0 true) ?r) c1)
    with (flat_map (m f r) (map (fun n => advance n c1)
                                (counts 0 (run (in_cls f Space) (rest c1)) true))).
  rewrite flat_map_map_comp.
  apply (flat_map_some _ _ _ _ (length ws)).
  - unfold counts. apply -> in_rev. apply in_seq.
    pose proof (run_prefix (in_cls f Space) ws ([nl; nl] ++ g ++ post) W) as P.
    rewrite R1. lia.
  - rewrite m_str_then, lit_match_starts_with by assumption.
    cbn [advance rest]. rewrite R1, skipn_length_app, starts_with_app_self.
    apply (body_then_stop lo (length g)).
    + rewrite (rest_after_space _ _ _ R1), length_app. lia.
    + now rewrite (rest_after_space _ _ _ R1), skipn_length_app.
Qed.

(** The first match of a section pattern at a position: of the ways
    of reading a section there, the one with the longest run of white
    space and then the shortest body. *)
Lemma section_first (head : str) (lo : nat) (c c' : cursor) :
  hd_error (m f (section_shape head lo stop) c) = Some c' ->
  exists ws g post,
    rest c = head ++ ws ++ [nl; nl] ++ g ++ post /\
    forallb is_space ws = true /\ lo <= length g /\ stops post = true /\
    lookup 1 (groups c') = Some g /\
    forall ws' g' post',
      rest c = head ++ ws' ++ [nl; nl] ++ g' ++ post' ->
      forallb is_space ws' = true -> lo <= length g' -> stops post' = true ->
      length ws' < length ws \/ (length ws' = length ws /\ length g <= length g').
Proof.
  unfold section_shape. rewrite m_str_then, lit_match_starts_with by assumption.
  destruct (starts_with head (rest c)) eqn:E1; [|discriminate].
  apply starts_with_split in E1. destruct E1 as [s1 E1].
  set (c1 := advance (length head) c).
  assert (rest c1 = s1) as R1 by (cbn; now rewrite E1, skipn_length_app).
  change (m f (Seq (Rep Space 0 true) ?r) c1)
    with (flat_map (m f r) (map (fun n => advance n c1)
                                (counts 0 (run (in_cls f Space) (rest c1)) true))).
  rewrite flat_map_map_comp. intros H.
  apply hd_flat_map in H. destruct H as (ks1 & k & ks2 & Hk & Fail & H).
  assert (In k (counts 0 (run (in_cls f Space) (rest c1)) true)) as Ik
      by (rewrite Hk; apply in_or_app; right; now left).
  apply in_counts in Ik.
  unfold counts in Hk. rewrite Nat.sub_0_r in Hk.
  set (c2 := advance k c1) in *.
  rewrite m_str_then, lit_match_starts_with in H by assumption.
  destruct (starts_with [nl; nl] (rest c2)) eqn:E2; [|discriminate].
  apply starts_with_split in E2. destruct E2 as [s3 E2].
  set (c3 := advance (length [nl; nl]) c2) in *.
  assert (rest c3 = s3) as R3 by (cbn [c3 advance rest]; now rewrite E2).
  cbn [m] in H. rewrite !flat_map_map_comp in H.
  apply hd_flat_map in H. destruct H as (js1 & j & js2 & Hj & Hfail & H).
  unfold counts in Hj. apply seq_split in Hj. destruct Hj as [-> Lj].
  rewrite run_dot in Lj.
  assert (j <= length (rest c3)) as Lj' by lia.
  assert (rest c2 = skipn k s1) as R2 by (cbn [c2 advance rest]; now rewrite R1).
  assert (forall z, rest (capture 1 c3 (advance z c3)) = skipn z s3) as Rz
      by (intros z; change (rest (capture 1 c3 (advance z c3))) with (skipn z (rest c3));
          now rewrite R3).
  assert (s1 = firstn k s1 ++ [nl; nl] ++ firstn j s3 ++ skipn j s3) as Es1.
  { rewrite <- (firstn_skipn k s1) at 1. f_equal.
    rewrite <- R2, E2. cbn [app]. now rewrite firstn_skipn. }
  assert (length (firstn k s1) = k) as Lk.
  { pose proof (run_le_length (in_cls f Space) (rest c1)) as Lr.
    rewrite length_firstn, <- R1. lia. }
  assert (length (firstn j s3) = j) as Lg by (rewrite length_firstn, <- R3; lia).
  exists (firstn k s1), (firstn j s3), (skipn j s3).
  split; [|split; [|split; [|split; [|split]]]].
  - rewrite E1. f_equal. exact Es1.
  - rewrite <- R1. apply run_firstn. exact (proj2 Ik).
  - lia.
  - rewrite <- (Rz j). apply stop_rest.
    destruct (m f stop (capture 1 c3 (advance j c3))); discriminate.
  - destruct (m f stop (capture 1 c3 (advance j c3))) as [|c4 l] eqn:E4; [discriminate|].
    injection H as <-. cbn [groups].
    rewrite (m_keeps_groups f stop stop_groupless (capture 1 c3 (advance j c3)) c4)
      by (rewrite E4; now left).
    rewrite capture_groups by assumption. cbn [groups lookup Nat.eqb]. now rewrite R3.
  - intros ws' g' post' R' W' L' S'. rewrite Lk, Lg.
    rewrite E1 in R'. apply app_inv_head in R'.
    pose proof (run_prefix (in_cls f Space) ws' ([nl; nl] ++ g' ++ post') W') as P'.
    rewrite <- R', <- R1 in P'.
    destruct (Nat.lt_trichotomy (length ws') k) as [Lt|[Eq|Gt]]; [now left| |exfalso].
    + right. split; [assumption|].
      destruct (Nat.le_gt_cases j (length g')) as [|Lt]; [assumption|exfalso].
      rewrite Es1 in R'. rewrite <- Lk in Eq.
      destruct (app_same_length _ _ _ _ _ R' (eq_sym Eq)) as [_ R''].
      apply app_inv_head in R''. rewrite firstn_skipn in R''.
      assert (In (length g') (seq lo (j - lo))) as I by (apply in_seq; lia).
      apply Hfail in I.
      assert (m f stop (capture 1 c3 (advance (length g') c3)) <> []) as N
          by (apply stop_rest; now rewrite Rz, R'', skipn_length_app).
      destruct (m f stop (capture 1 c3 (advance (length g') c3))); [easy|discriminate].
    + assert (In (length ws') ks1) as I
          by (apply (rev_seq_before _ _ _ _ Hk); lia).
      apply Fail in I. revert I. rewrite R' in R1.
      rewrite m_str_then, lit_match_starts_with by assumption.
      cbn [advance rest]. rewrite R1, skipn_length_app, starts_with_app_self.
      apply (body_then_stop lo (length g')).
      * rewrite (rest_after_space _ _ _ R1), length_app. lia.
      * now rewrite (rest_after_space _ _ _ R1), skipn_length_app.
Qed.

End Readings.

Section TemplateSections.

Lemma template_section_found (content pre ws g post : str) :
  template_section content pre ws g post ->
  m dotall Uia.template_re (mk_cursor (last_of pre None) (lit "## Template" ++ ws ++ [nl; nl] ++ g ++ post) [])
    <> [].
Proof.
  intros (_ & W & N & S). rewrite template_shape.
  apply (section_found dotall eq_refl eq_refl
           (Alt (Str (nl :: nl :: lit "##")) (Seq (Str [nl; nl]) Eol))
           ends_template template_stop
           (lit "## Template") 1 _ ws g post); try assumption; [reflexivity|].
  destruct g; [easy|simpl; lia].
Qed.

(** What [re.search] finds with the Template pattern is the body of
    the first closed Template section. *)
Lemma template_found (content : str) (tm : match_obj) :
  search Uia.template_re content dotall = Some tm ->
  first_template_body content (group tm 1).
Proof.
  intros H. apply search_from_some in H.
  destruct H as (pre & s' & c' & -> & _ & M & Before & G).
  rewrite match_here_no_advance, template_shape in M.
  apply (section_first dotall eq_refl eq_refl
           (Alt (Str (nl :: nl :: lit "##")) (Seq (Str [nl; nl]) Eol))
           ends_template eq_refl template_stop) in M.
  destruct M as (ws & g & post & R & W & L & S & K & First).
  cbn [rest] in R. subst s'.
  assert (group tm 1 = g) as -> by (unfold group; now rewrite G, K).
  exists pre, ws, post. split.
  - split; [reflexivity|]. split; [assumption|]. split; [|assumption].
    destruct g; [simpl in L; lia|discriminate].
  - intros pre' ws' g' post' T. unfold reads_before.
    destruct (Nat.lt_trichotomy (length pre) (length pre')) as [Lt|[Eq|Gt]]; [now left| |exfalso].
    + right. split; [assumption|].
      destruct T as (E & W' & N' & S').
      destruct (app_same_length _ _ _ _ _ E Eq) as [_ E'].
      destruct (First ws' g' post' E' W') as [Lt|[Eq' Le]];
        [destruct g'; [easy|simpl; lia]|assumption|now left|right; split; [now symmetry|assumption]].
    + pose proof (template_section_found _ _ _ _ _ T) as F.
      destruct T as (E & _).
      specialize (Before pre' _ E Gt). rewrite match_here_no_advance in Before.
      destruct (m dotall Uia.template_re _); [easy|discriminate].
Qed.

(** Where [re.search] finds nothing with the Template pattern there
    is no closed Template section. *)
Lemma template_missing (content : str) :
  search Uia.template_re content dotall = None -> no_template_section content.
Proof.
  intros H pre ws g post T.
  apply (template_section_found _ _ _ _ _ T).
  destruct T as (-> & _). now apply search_from_none_at.
Qed.

Lemma first_template_body_unique (content g g' : str) :
  first_template_body content g -> first_template_body content g' -> g = g'.
Proof.
  intros (pre & ws & post & T & F) (pre' & ws' & post' & T' & F').
  specialize (F _ _ _ _ T'). specialize (F' _ _ _ _ T).
  unfold reads_before in F, F'.
  assert (length pre = length pre' /\ length ws = length ws' /\ length g = length g')
    as (L1 & L2 & L3) by lia.
  destruct T as (E & _). destruct T' as (E' & _). rewrite E in E'.
  destruct (app_same_length _ _ _ _ _ E' L1) as [_ E1]. apply app_inv_head in E1.
  destruct (app_same_length _ _ _ _ _ E1 L2) as [_ E2]. apply app_inv_head in E2.
  now destruct (app_same_length _ _ _ _ _ E2 L3).
Qed.

Lemma first_template_body_section (content g : str) :
  first_template_body content g -> ~ no_template_section content.
Proof. intros (pre & ws & post & T & _) N. exact (N _ _ _ _ T). Qed.

(** What the statements of the [try] block return, by the title line
    and the first closed Template section of the content. *)
Lemma extract_by_sections (content : str) :
  (exists i n g,
     first_title_line (split_lines content) = Some (i, n) /\
     first_template_body content g /\
     Uia.extract_from_content content = (Some i, Some n, Some (strip g))) \/
  ((first_title_line (split_lines content) = None \/ no_template_section content) /\
   Uia.extract_from_content content = Uia.none3).
Proof.
  rewrite extract_by_lines.
  destruct (first_title_line (split_lines content)) as [[i n]|]; [|right; split; [now left|reflexivity]].
  destruct (search Uia.template_re content dotall) as [tm|] eqn:S.
  - left. exists i, n, (group tm 1). split; [reflexivity|]. split; [|reflexivity].
    now apply template_found.
  - right. split; [right; now apply template_missing|reflexivity].
Qed.

End TemplateSections.

Section HandlerPrint.

Variable stdout_takes : str -> bool.
Variable path : str.

(** Where the standard output takes every line, the call ends as
    [extract_template_content] describes it. *)
Lemma extract_template_content_printing (f : Uia.file) :
  Uia.extract_template_content_on (fun _ => true) path f
    = Uia.Returned (fst (Uia.extract_template_content path f))
                   (snd (Uia.extract_template_content path f)).
Proof. now destruct f. Qed.

Lemma extract_template_content_raises (f : Uia.file) (line : str) :
  Uia.extract_template_content_on stdout_takes path f = Uia.Raised line <->
  exists e, f = Uia.Unreadable e /\
            line = lit "Error processing " ++ path ++ lit ": " ++ e /\
            stdout_takes line = false.
Proof.
  destruct f as [e|content]; cbn [Uia.extract_template_content_on]; split.
  - destruct (stdout_takes _) eqn:T; [discriminate|]. intros H. injection H as <-.
    now exists e.
  - intros (e' & E & -> & T). injection E as <-. now rewrite T.
  - discriminate.
  - now intros (e & E & _).
Qed.

End HandlerPrint.

(** C10 (as stated, refuted).  When the file cannot be read and the
    standard output refuses the line of the handler, the exception of
    that [print] leaves [extract_template_content]: the handler
    catches what the [try] block raises, not what it raises
    itself. *)
Lemma handler_print_can_raise :
  Uia.extract_template_content_on (fun _ => false) (lit "uia/7.md")
                                  (Uia.Unreadable (lit "denied"))
    = Uia.Raised (lit "Error processing uia/7.md: denied").
Proof. reflexivity. Qed.

(** C10 (amended).  [extract_template_content] raises exactly when
    the file cannot be read and the line of the handler cannot be
    printed; when that line is printed it returns three [None].  For
    a file that is read it returns, printing nothing, either three
    strings or three [None]: the digits and the name of the first
    title line and the stripped body of the first closed Template
    section when the content has both, three [None] when it has no
    title line or no closed Template section.  So a content with a
    title line and no closed Template section gives what a content
    without title line gives. *)
Theorem extract_template_content_outcomes (stdout_takes : str -> bool) (path : str) :
  (forall f line,
     Uia.extract_template_content_on stdout_takes path f = Uia.Raised line <->
     exists e, f = Uia.Unreadable e /\
               line = lit "Error processing " ++ path ++ lit ": " ++ e /\
               stdout_takes line = false) /\
  (forall e,
     stdout_takes (lit "Error processing " ++ path ++ lit ": " ++ e) = true ->
     Uia.extract_template_content_on stdout_takes path (Uia.Unreadable e)
       = Uia.Returned Uia.none3 [lit "Error processing " ++ path ++ lit ": " ++ e]) /\
  (forall content,
     (exists i n g,
        first_title_line (split_lines content) = Some (i, n) /\
        first_template_body content g /\
        Uia.extract_template_content_on stdout_takes path (Uia.Readable content)
          = Uia.Returned (Some i, Some n, Some (strip g)) []) \/
     ((first_title_line (split_lines content) = None \/ no_template_section content) /\
      Uia.extract_template_content_on stdout_takes path (Uia.Readable content)
        = Uia.Returned Uia.none3 [])) /\
  (forall titled untitled,
     first_title_line (split_lines titled) <> None ->
     no_template_section titled ->
     first_title_line (split_lines untitled) = None ->
     Uia.extract_template_content_on stdout_takes path (Uia.Readable titled)
       = Uia.Returned Uia.none3 [] /\
     Uia.extract_template_content_on stdout_takes path (Uia.Readable untitled)
       = Uia.Returned Uia.none3 []).
Proof.
  assert (forall content,
     (exists i n g,
        first_title_line (split_lines content) = Some (i, n) /\
        first_template_body content g /\
        Uia.extract_template_content_on stdout_takes path (Uia.Readable content)
          = Uia.Returned (Some i, Some n, Some (strip g)) []) \/
     ((first_title_line (split_lines content) = None \/ no_template_section content) /\
      Uia.extract_template_content_on stdout_takes path (Uia.Readable content)
        = Uia.Returned Uia.none3 [])) as Read.
  { intros content. cbn [Uia.extract_template_content_on].
    destruct (extract_by_sections content) as [(i & n & g & T & B & E)|[N E]]; rewrite E.
    - left. now exists i, n, g.
    - now right. }
  split; [|split; [|split]].
  - apply extract_template_content_raises.
  - intros e T. cbn [Uia.extract_template_content_on]. now rewrite T.
  - exact Read.
  - intros titled untitled T N U. split.
    + destruct (Read titled) as [(i & n & g & _ & B & _)|[_ E]]; [|exact E].
      now apply first_template_body_section in B.
    + destruct (Read untitled) as [(i & n & g & T' & _)|[_ E]]; [congruence|exact E].
Qed.

Section TallyBySections.

Variable st : Uia.run.
Variable path : str.

Lemma tally_unchanged (f : Uia.file) :
  (forall content, f = Uia.Readable content ->
     first_title_line (split_lines content) = None \/ no_template_section content) ->
  Uia.generated_count (Uia.process_file st (path, f)) = Uia.generated_count st /\
  Uia.no_template_count (Uia.process_file st (path, f)) = Uia.no_template_count st /\
  Uia.written (Uia.process_file st (path, f)) = Uia.written st.
Proof.
  destruct f as [e|content]; [intros _; apply process_unreadable|]. intros H.
  specialize (H content eq_refl).
  destruct (extract_by_sections content) as [(i & n & g & T & B & _)|[_ E]].
  - destruct H as [H|H]; [congruence|now apply first_template_body_section in B].
  - destruct (process_readable st path content)
      as [(_ & A)|[(i & n & E' & _)|(i & n & x & t & E' & _)]];
      [exact A| |]; rewrite E in E'; discriminate.
Qed.

(** A turn of the loop on a file with a title line and a first closed
    Template section of body [g]. *)
Lemma tally_of_section (content g : str) :
  first_title_line (split_lines content) <> None ->
  first_template_body content g ->
  let st' := Uia.process_file st (path, Uia.Readable content) in
  if blank g
  then Uia.generated_count st' = Uia.generated_count st /\
       Uia.no_template_count st' = S (Uia.no_template_count st)
  else Uia.generated_count st' = S (Uia.generated_count st) /\
       Uia.no_template_count st' = Uia.no_template_count st.
Proof.
  intros T B. cbn zeta.
  destruct (extract_by_sections content) as [(i & n & g' & _ & B' & E)|[[N|N] _]];
    [|congruence|now apply first_template_body_section in B].
  rewrite (first_template_body_unique _ _ _ B' B) in E.
  destruct (process_readable st path content)
    as [(E' & _)|[(i' & n' & E' & A1 & A2 & _)|(i' & n' & x & t & E' & A1 & A2 & _)]];
    rewrite E in E'; [discriminate| |]; injection E' as _ _ E'.
  - apply strip_blank in E'. rewrite E'. now split.
  - destruct (blank g) eqn:Hb; [apply strip_blank in Hb; congruence|now split].
Qed.

End TallyBySections.

(** A Template section that comes last and ends with a single newline
    is not closed. *)
Lemma last_section_with_one_newline :
  no_template_section
    (joined ["# 12 - Independent domains"; ""; "## Template"; "";
             "Domains may overlap."; ""]%string).
Proof. apply template_missing. vm_compute. reflexivity. Qed.

(** X7.  One turn of the loop of [main].  A closed Template section
    is the heading [## Template], white space, an empty line, a body
    that is not empty, and then an empty line followed by [##] or an
    empty line that ends the text; the first one is the leftmost,
    read with the longest white space and then the shortest body.
    The file is counted as generated exactly when it can be read, has
    a title line and the body of its first closed Template section is
    not white space only; it is counted as skipped exactly when that
    body is white space only.  A file that cannot be read, has no
    title line or has no closed Template section (as one whose
    Template section comes last and ends with a single newline)
    changes no counter and writes nothing. *)
Theorem tally_of_a_file (st : Uia.run) (path : str) (f : Uia.file) :
  let st' := Uia.process_file st (path, f) in
  (Uia.generated_count st' = S (Uia.generated_count st) <->
   exists content g,
     f = Uia.Readable content /\ first_title_line (split_lines content) <> None /\
     first_template_body content g /\ blank g = false) /\
  (Uia.no_template_count st' = S (Uia.no_template_count st) <->
   exists content g,
     f = Uia.Readable content /\ first_title_line (split_lines content) <> None /\
     first_template_body content g /\ blank g = true) /\
  ((forall content,
      f = Uia.Readable content ->
      first_title_line (split_lines content) = None \/ no_template_section content) ->
   Uia.generated_count st' = Uia.generated_count st /\
   Uia.no_template_count st' = Uia.no_template_count st /\
   Uia.written st' = Uia.written st).
Proof.
  cbn zeta. split; [|split]; [| |apply tally_unchanged].
  - split.
    + intros H. destruct f as [e|content].
      * destruct (process_unreadable st path e) as (A & _). lia.
      * destruct (extract_by_sections content) as [(i & n & g & T & B & _)|[N _]].
        -- exists content, g. split; [reflexivity|]. split; [congruence|].
           split; [assumption|].
           pose proof (tally_of_section st path content g ltac:(congruence) B) as S.
           cbn zeta in S. destruct (blank g); [lia|reflexivity].
        -- destruct (tally_unchanged st path (Uia.Readable content)) as (A & _); [|lia].
           intros c Ec. injection Ec as <-. exact N.
    + intros (content & g & -> & T & B & Hb).
      pose proof (tally_of_section st path content g T B) as S.
      cbn zeta in S. rewrite Hb in S. apply S.
  - split.
    + intros H. destruct f as [e|content].
      * destruct (process_unreadable st path e) as (_ & A & _). lia.
      * destruct (extract_by_sections content) as [(i & n & g & T & B & _)|[N _]].
        -- exists content, g. split; [reflexivity|]. split; [congruence|].
           split; [assumption|].
           pose proof (tally_of_section st path content g ltac:(congruence) B) as S.
           cbn zeta in S. destruct (blank g); [reflexivity|lia].
        -- destruct (tally_unchanged st path (Uia.Readable content)) as (_ & A & _); [|lia].
           intros c Ec. injection Ec as <-. exact N.
    + intros (content & g & -> & T & B & Hb).
      pose proof (tally_of_section st path content g T B) as S.
      cbn zeta in S. rewrite Hb in S. apply S.
Qed.

(** X8.  At the end of [main] the two counters together do not exceed
    the number of files of the corpus, one file was written for each
    pattern counted as generated, and the last file written is the
    README, which states that count. *)
Theorem counters_and_written_files (uia_files : list (str * Uia.file)) :
  let st := Uia.main uia_files in
  Uia.generated_count st + Uia.no_template_count st <= length uia_files /\
  length (pattern_files st) = Uia.generated_count st /\
  last (Uia.written st) ([], [])
    = (join Uia.arc_dir (lit "README.md"), Uia.readme_content (Uia.generated_count st)).
Proof.
  cbn zeta. unfold pattern_files, Uia.main.
  cbn [Uia.generated_count Uia.no_template_count Uia.written].
  destruct (fold_process_counts uia_files Uia.start eq_refl) as [H1 H2].
  cbn [Uia.start Uia.generated_count Uia.no_template_count] in H2.
  rewrite removelast_last, last_last. repeat split; [lia|assumption].
Qed.

(** X9.  Every pattern file written by [main] comes from a file of
    the corpus that can be read, has a title line and a Template
    section with a body: it is named [arc_<id>.md] in the output
    directory, with [<id>] the digits of the title line, and holds the
    document generated from the three values extracted. *)
Theorem written_files_come_from_patterns
        (uia_files : list (str * Uia.file)) (name text : str) :
  In (name, text) (pattern_files (Uia.main uia_files)) ->
  exists path content i n t,
    In (path, Uia.Readable content) uia_files /\
    Uia.extract_from_content content = (Some i, Some n, Some t) /\
    t <> [] /\ forallb is_digit i = true /\
    name = arc_file i /\ text = Uia.generate_archetypal_pattern i n t.
Proof.
  unfold pattern_files, Uia.main. cbn [Uia.written]. rewrite removelast_last. intros H.
  destruct (fold_process_written uia_files name text Uia.start H)
    as [[]|(path & content & i & n & t & I & E & N & Hn & Ht)].
  exists path, content, i, n, t.
  destruct (extract_from_content_some _ _ _ _ E) as [(l & _ & T) _].
  destruct (title_at_shape _ _ _ T) as (_ & D & _). tauto.
Qed.

Lemma written_files_come_from_patterns_witness :
  exists path content i n t,
    In (path, Uia.Readable content) [(lit "uia/12.md", Uia.Readable complete)] /\
    Uia.extract_from_content content = (Some i, Some n, Some t) /\
    t <> [] /\ forallb is_digit i = true /\
    arc_file (lit "12") = arc_file i /\
    Uia.generate_archetypal_pattern (lit "12") (lit "Independent domains")
                                    (lit "Domains may overlap.")
      = Uia.generate_archetypal_pattern i n t.
Proof.
  apply (written_files_come_from_patterns [(lit "uia/12.md", Uia.Readable complete)]).
  vm_compute. now left.
Defined.

(** X10.  Running [main] on two corpora one after the other in one
    run gives the sum of the counters of the two separate runs and
    the pattern files of the first followed by those of the
    second. *)
Theorem corpus_concatenation (files1 files2 : list (str * Uia.file)) :
  Uia.generated_count (Uia.main (files1 ++ files2))
    = Uia.generated_count (Uia.main files1) + Uia.generated_count (Uia.main files2) /\
  Uia.no_template_count (Uia.main (files1 ++ files2))
    = Uia.no_template_count (Uia.main files1) + Uia.no_template_count (Uia.main files2) /\
  pattern_files (Uia.main (files1 ++ files2))
    = pattern_files (Uia.main files1) ++ pattern_files (Uia.main files2).
Proof.
  unfold pattern_files, Uia.main.
  cbn [Uia.generated_count Uia.no_template_count Uia.written].
  rewrite !removelast_last, fold_left_app.
  destruct (fold_process_frame files2) as (g & k & ws & ls & F).
  destruct (F (fold_left Uia.process_file files1 Uia.start)) as (A1 & A2 & A3 & _).
  destruct (F Uia.start) as (B1 & B2 & B3 & _).
  rewrite A1, A2, A3, B1, B2, B3. cbn [Uia.start Uia.generated_count
    Uia.no_template_count Uia.written app]. repeat split; lia.
Qed.

(* ================================================================== *)
(** * The run of generate_apl_archetypal_variants.py *)
(* ================================================================== *)

Section VariantRun.

Variable fs : str -> Apl.file.

Lemma process_document_ok (st : Apl.run) (d : Apl.document) :
  unreadable fs d = false ->
  Apl.created_files (Apl.process_document fs st d) = Apl.created_files st ++ [output_path d] /\
  map fst (Apl.written (Apl.process_document fs st d))
    = map fst (Apl.written st) ++ [output_path d] /\
  Apl.raised (Apl.process_document fs st d) = None.
Proof.
  unfold unreadable, Apl.process_document.
  destruct (fs (Apl.source d)); try discriminate; intros _;
    cbn [Apl.created_files Apl.written Apl.raised]; rewrite map_app; now repeat split.
Qed.

Lemma process_document_raises (st : Apl.run) (d : Apl.document) (e : str) :
  fs (Apl.source d) = Apl.Unreadable e ->
  Apl.process_document fs st d
    = Apl.mk_run (Apl.created_files st) (Apl.written st) (Apl.stdout st) (Some e).
Proof. unfold Apl.process_document. now intros ->. Qed.

(** The loop over documents none of which raises. *)
Lemma process_documents_ok (ds : list Apl.document) :
  forall st,
    forallb (fun d => negb (unreadable fs d)) ds = true ->
    Apl.raised st = None ->
    Apl.created_files (Apl.process_documents fs st ds)
      = Apl.created_files st ++ map output_path ds /\
    map fst (Apl.written (Apl.process_documents fs st ds))
      = map fst (Apl.written st) ++ map output_path ds /\
    Apl.raised (Apl.process_documents fs st ds) = None.
Proof.
  induction ds as [|d ds IH]; intros st H R; cbn [Apl.process_documents map].
  - now rewrite !app_nil_r.
  - cbn [forallb] in H. apply andb_true_iff in H. destruct H as [H1 H2].
    apply negb_true_iff in H1.
    destruct (process_document_ok st d H1) as (A1 & A2 & A3).
    rewrite A3. destruct (IH _ H2 A3) as (B1 & B2 & B3).
    rewrite B1, B2, B3, A1, A2, <- !app_assoc. now repeat split.
Qed.

(** The loop over documents the first unreadable of which is [d]. *)
Lemma process_documents_raise (ds1 ds2 : list Apl.document) (d : Apl.document) (e : str) :
  forall st,
    forallb (fun d => negb (unreadable fs d)) ds1 = true ->
    fs (Apl.source d) = Apl.Unreadable e ->
    Apl.raised st = None ->
    Apl.created_files (Apl.process_documents fs st (ds1 ++ d :: ds2))
      = Apl.created_files st ++ map output_path ds1 /\
    map fst (Apl.written (Apl.process_documents fs st (ds1 ++ d :: ds2)))
      = map fst (Apl.written st) ++ map output_path ds1 /\
    Apl.raised (Apl.process_documents fs st (ds1 ++ d :: ds2)) = Some e.
Proof.
  induction ds1 as [|d1 ds1 IH]; intros st H U R; cbn [Apl.process_documents map app].
  - rewrite (process_document_raises st d e U). cbn [Apl.raised Apl.created_files Apl.written].
    now rewrite !app_nil_r.
  - cbn [forallb] in H. apply andb_true_iff in H. destruct H as [H1 H2].
    apply negb_true_iff in H1.
    destruct (process_document_ok st d1 H1) as (A1 & A2 & A3).
    rewrite A3. destruct (IH _ H2 U A3) as (B1 & B2 & B3).
    rewrite B1, B2, B3, A1, A2, <- !app_assoc. now repeat split.
Qed.

End VariantRun.

(** X11.  The second generator creates its directory first, without
    the parents: when that raises, as it does when [markdown/] is
    absent, the run ends there, with no document read, no file
    written and nothing more printed.  When the directory is created
    or is there, and no source that exists fails to be read, the run
    ends without exception; the list it returns is the same seven
    paths whatever is in the sources, the six documents and the
    Timeless Way; the README is written last and is not in the list;
    and the script ends by reporting 7 variants. *)
Theorem complete_run_creates_seven_variants (p : Apl.place) (fs : str -> Apl.file) :
  let st := Apl.create_apl_archetypal_variants p fs in
  (forall e,
     Apl.mkdir p = Some e ->
     Apl.raised st = Some e /\ Apl.created_files st = [] /\ Apl.written st = [] /\
     Apl.script p fs = [lit "Generating APL archetypal variants..."]) /\
  (Apl.mkdir p = None ->
   forallb (fun d => negb (unreadable fs d)) Apl.documents = true ->
   Apl.raised st = None /\
   Apl.created_files st = all_variants /\
   map fst (Apl.written st) = all_variants ++ [join Apl.apl_arc_dir (lit "README.md")] /\
   exists printed,
     Apl.script p fs = printed ++ Apl.report all_variants /\
     hd_error (Apl.report all_variants)
       = Some (nl :: lit "Generated 7 archetypal variants:")).
Proof.
  cbn zeta. split.
  - intros e D. unfold Apl.script, Apl.create_apl_archetypal_variants. rewrite D.
    now repeat split.
  - intros D H.
    assert (Apl.raised (Apl.create_apl_archetypal_variants p fs) = None /\
            Apl.created_files (Apl.create_apl_archetypal_variants p fs) = all_variants /\
            map fst (Apl.written (Apl.create_apl_archetypal_variants p fs))
              = all_variants ++ [join Apl.apl_arc_dir (lit "README.md")]) as (R & C & Wr).
    { unfold Apl.create_apl_archetypal_variants. rewrite D.
      destruct (process_documents_ok fs Apl.documents (Apl.mk_run [] [] [] None) H eq_refl)
        as (A1 & A2 & A3).
      rewrite A3. unfold Apl.create_apl_archetypal_readme.
      cbn [Apl.raised Apl.created_files Apl.written]. rewrite !map_app, A1, A2.
      now repeat split. }
    repeat split; try assumption.
    exists ([lit "Generating APL archetypal variants..."]
              ++ Apl.stdout (Apl.create_apl_archetypal_variants p fs)).
    unfold Apl.script. rewrite R, C, <- app_assoc. split; reflexivity.
Qed.

(** X12.  When a source exists and cannot be read, the run of the
    second generator ends there with the exception: the files written
    are those of the documents before it, neither the Timeless Way
    nor the README is written, and the script prints no report. *)
Theorem run_stops_at_first_unreadable_source
        (p : Apl.place) (fs : str -> Apl.file) (ds1 ds2 : list Apl.document)
        (d : Apl.document) (e : str) :
  Apl.mkdir p = None ->
  Apl.documents = ds1 ++ d :: ds2 ->
  forallb (fun d => negb (unreadable fs d)) ds1 = true ->
  fs (Apl.source d) = Apl.Unreadable e ->
  let st := Apl.create_apl_archetypal_variants p fs in
  Apl.raised st = Some e /\
  Apl.created_files st = map output_path ds1 /\
  map fst (Apl.written st) = map output_path ds1 /\
  Apl.script p fs = [lit "Generating APL archetypal variants..."] ++ Apl.stdout st.
Proof.
  intros D E H U. cbn zeta. unfold Apl.script, Apl.create_apl_archetypal_variants.
  rewrite D, E.
  destruct (process_documents_raise fs ds1 ds2 d e (Apl.mk_run [] [] [] None) H U eq_refl)
    as (A1 & A2 & A3).
  rewrite A3. cbn [Apl.raised]. rewrite A1, A2, A3, app_nil_r. now repeat split.
Qed.

Lemma run_stops_at_first_unreadable_source_witness :
  let fs := fun p => if str_eqb p (lit "markdown/apl/aplsummary.md")
                     then Apl.Unreadable (lit "denied") else Apl.Missing in
  Apl.raised (Apl.create_apl_archetypal_variants Apl.Directory fs) = Some (lit "denied") /\
  Apl.created_files (Apl.create_apl_archetypal_variants Apl.Directory fs)
    = [lit "markdown/apl_arc/apl_arc_5-fold_pattern_language.md"].
Proof.
  intros fs.
  pose proof (run_stops_at_first_unreadable_source Apl.Directory fs
                [Apl.mk_document (lit "pattern/5-foldpatt.md")
                   (lit "apl_arc_5-fold_pattern_language.md")
                   (lit "5-fold Pattern Language")]
                (skipn 2 Apl.documents)
                (Apl.mk_document (lit "markdown/apl/aplsummary.md")
                   (lit "apl_arc_apl_summary.md")
                   (lit "APL Pattern Language Summary"))
                (lit "denied") eq_refl eq_refl eq_refl eq_refl) as (A & B & _).
  split; [exact A|exact B].
Defined.

Section VariantTexts.

(** A text between two characters that are not white space is left
    as it is by [strip]. *)
Lemma strip_between (a z : ascii) (s : str) :
  is_space a = false -> is_space z = false ->
  strip (a :: s ++ [z]) = a :: s ++ [z].
Proof.
  intros A Z. unfold strip, lstrip, rstrip.
  change (a :: s ++ [z]) with ((a :: s) ++ [z]).
  rewrite rev_app_distr. cbn [rev app drop_while]. rewrite Z.
  change (z :: rev s ++ [a]) with (rev [z] ++ rev (a :: s)).
  rewrite <- rev_app_distr, rev_involutive. cbn [app drop_while]. now rewrite A.
Qed.

Lemma composed_text (t u : str) :
  let text := lit "# " ++ t ++ [nl; nl] ++ lit "This document represents " ++ u in
  forall tail, text ++ tail ++ lit "." <> [] /\ text ++ tail ++ lit "." <> lit "list" /\
               strip (text ++ tail ++ lit ".") = text ++ tail ++ lit ".".
Proof.
  intros text tail. split; [discriminate|]. split; [discriminate|].
  unfold text. cbn [lit app list_ascii_of_string].
  rewrite !app_comm_cons, !app_assoc. apply strip_between; reflexivity.
Qed.

Lemma placeholder_content_text (d : Apl.document) :
  Apl.placeholder_content d <> [] /\ Apl.placeholder_content d <> lit "list" /\
  strip (Apl.placeholder_content d) = Apl.placeholder_content d.
Proof.
  pose proof (composed_text (Apl.title d) (str_lower (Apl.title d))
                            (lit " organizational principles")) as H.
  cbn zeta in H. unfold Apl.placeholder_content.
  change (lit " organizational principles.")
    with (lit " organizational principles" ++ lit ".").
  now rewrite <- !app_assoc in *.
Qed.

Lemma minimal_content_text (d : Apl.document) :
  Apl.minimal_content d <> [] /\ Apl.minimal_content d <> lit "list" /\
  strip (Apl.minimal_content d) = Apl.minimal_content d.
Proof.
  pose proof (composed_text (Apl.title d) (str_lower (Apl.title d))
                            (lit " organizational principles and patterns")) as H.
  cbn zeta in H. unfold Apl.minimal_content.
  change (lit " organizational principles and patterns.")
    with (lit " organizational principles and patterns" ++ lit ".").
  now rewrite <- !app_assoc in *.
Qed.

End VariantTexts.

(** X13.  Whatever a source holds, the document written for it is
    generated from a text that is not empty, is not the word [list]
    and has no white space at either end.  That text is the source
    stripped of the white space around it when this is neither empty
    nor the word [list], and a text composed from the title
    otherwise and when the source does not exist. *)
Theorem variant_text_is_never_empty
        (fs : str -> Apl.file) (st : Apl.run) (d : Apl.document) :
  unreadable fs d = false ->
  exists content,
    Apl.written (Apl.process_document fs st d)
      = Apl.written st
          ++ [(output_path d, Apl.generate_archetypal_variant (Apl.title d) content)] /\
    content <> [] /\ content <> lit "list" /\ strip content = content /\
    (forall c, fs (Apl.source d) = Apl.Readable c ->
               content = if blank c || str_eqb (strip c) (lit "list")
                         then Apl.minimal_content d else strip c) /\
    (fs (Apl.source d) = Apl.Missing -> content = Apl.placeholder_content d).
Proof.
  unfold unreadable, Apl.process_document.
  destruct (fs (Apl.source d)) as [|e|c] eqn:F; [|discriminate|]; intros _.
  - destruct (placeholder_content_text d) as (N & L & S).
    exists (Apl.placeholder_content d).
    assert ((match Apl.placeholder_content d with [] => true | _ => false end
             || str_eqb (Apl.placeholder_content d) (lit "list")) = false) as ->.
    { destruct (Apl.placeholder_content d) as [|x t] eqn:E; [easy|].
      cbn [orb]. destruct (str_eqb (x :: t) (lit "list")) eqn:Q; [|reflexivity].
      apply str_eqb_eq in Q. congruence. }
    cbn [Apl.written]. repeat split; try assumption. discriminate.
  - rewrite strip_truth.
    exists (if blank c || str_eqb (strip c) (lit "list")
            then Apl.minimal_content d else strip c).
    cbn [Apl.written]. split; [reflexivity|].
    destruct (blank c) eqn:B; cbn [orb].
    + destruct (minimal_content_text d) as (N & L & S).
      repeat split; try assumption; [|discriminate]. intros c' E. injection E as <-.
      now rewrite B.
    + destruct (str_eqb (strip c) (lit "list")) eqn:Q.
      * destruct (minimal_content_text d) as (N & L & S).
        repeat split; try assumption; [|discriminate]. intros c' E. injection E as <-.
        now rewrite B, Q.
      * split; [|split; [|split; [apply strip_strip|split; [|discriminate]]]].
        -- intros E. apply strip_blank in E. congruence.
        -- intros E. rewrite E in Q. discriminate.
        -- intros c' E. injection E as <-. now rewrite B, Q.
Qed.

Lemma variant_text_is_never_empty_witness :
  let d := Apl.mk_document (lit "markdown/apl/aplbullets.md")
                           (lit "apl_arc_patterns_list.md") (lit "Patterns List - APL") in
  let fs := fun _ : str => Apl.Readable (lit " list" ++ [nl]) in
  unreadable fs d = false /\
  exists content,
    Apl.written (Apl.process_document fs (Apl.mk_run [] [] [] None) d)
      = [(lit "markdown/apl_arc/apl_arc_patterns_list.md",
          Apl.generate_archetypal_variant (lit "Patterns List - APL") content)] /\
    content <> [] /\ content <> lit "list".
Proof.
  intros d fs. split; [reflexivity|].
  destruct (variant_text_is_never_empty fs (Apl.mk_run [] [] [] None) d eq_refl)
    as (content & W & N & L & _).
  exists content. split; [exact W|]. split; assumption.
Defined.

(* ================================================================== *)
(** * The analysis script: sections, titles and the report *)
(* ================================================================== *)

Section FirstLines.





Lemma first_title_anywhere_at (s : str) (t : str * str) :
  first_title_anywhere s = Some t -> exists a b, s = a ++ b /\ title_at b = Some t.
Proof.
  induction s as [|x s IH]; cbn [first_title_anywhere].
  - destruct (title_at []) eqn:E; [|discriminate]. intros H. injection H as <-.
    now exists [], [].
  - destruct (title_at (x :: s)) eqn:E.
    + intros H. injection H as <-. now exists [], (x :: s).
    + intros H. destruct (IH H) as (a & b & -> & T). now exists (x :: a), b.
Qed.

(** The title kept by the analysis script is not empty and has no
    newline, if the file name is so. *)
Lemma extract_title_line (pattern_file content : str) :
  pattern_file <> [] -> one_line pattern_file = true ->
  Analyze.extract_title pattern_file content <> [] /\
  one_line (Analyze.extract_title pattern_file content) = true.
Proof.
  intros N L. rewrite analyze_title.
  destruct (first_title_anywhere content) as [[i n]|] eqn:E; [|now split].
  destruct (first_title_anywhere_at _ _ E) as (a & b & _ & T).
  destruct (title_at_shape _ _ _ T) as (_ & _ & H3 & H4). now split.
Qed.

End FirstLines.

Section Report.

Lemma item_get (key : str) (d : list (str * str)) (v : str) :
  Analyze.item key d = Some v -> Analyze.get key d = v.
Proof.
  induction d as [|[k w] d IH]; cbn [Analyze.item Analyze.get]; [discriminate|].
  destruct (str_eqb k key); [congruence|exact IH].
Qed.

Lemma write_section_found (heading key : str) (sections : list (str * str)) (text v : str) :
  Analyze.item key sections = Some v ->
  Analyze.write_section heading key sections text
    = Analyze.Written (text ++ section_block heading (Analyze.get key sections)).
Proof.
  intros H. unfold Analyze.write_section. rewrite H, (item_get _ _ _ H).
  destruct v; cbn [truthy section_block]; [now rewrite app_nil_r|reflexivity].
Qed.

Lemma write_sections_found (sections : list (str * str)) (ds : list str) :
  forall text,
    forallb (fun key => match Analyze.item key sections with Some _ => true | None => false end) ds
      = true ->
    fold_left (fun r domain => Analyze.bind r (Analyze.write_section (domain ++ lit " Domain") domain sections))
              ds (Analyze.Written text)
      = Analyze.Written (text ++ flat_map (fun domain =>
                                     section_block (domain ++ lit " Domain")
                                                   (Analyze.get domain sections)) ds).
Proof.
  induction ds as [|d ds IH]; intros text H; cbn [fold_left flat_map].
  - now rewrite app_nil_r.
  - cbn [forallb] in H. apply andb_true_iff in H. destruct H as [H1 H2].
    destruct (Analyze.item d sections) as [v|] eqn:E; [|discriminate].
    cbn [Analyze.bind]. rewrite (write_section_found _ _ _ _ _ E), (IH _ H2).
    now rewrite <- app_assoc.
Qed.

Lemma write_example_complete (text : str) (e : Analyze.example) :
  complete_sections e = true -> Analyze.write_example text e = Analyze.Written (text ++ example_block e).
Proof.
  unfold complete_sections. cbn [forallb]. intros H.
  apply andb_true_iff in H. destruct H as [H1 H2].
  destruct (Analyze.item (lit "Template") (Analyze.sections e)) as [v|] eqn:E; [|discriminate].
  unfold Analyze.write_example. rewrite (write_section_found _ _ _ _ _ E). cbn [Analyze.bind].
  rewrite (write_sections_found _ _ _ H2). cbn [Analyze.bind]. unfold example_block.
  now rewrite <- !app_assoc.
Qed.

Lemma report_complete (examples : list Analyze.example) :
  forall text,
    forallb complete_sections examples = true ->
    fold_left (fun r e => Analyze.bind r (fun text => Analyze.write_example text e)) examples (Analyze.Written text)
      = Analyze.Written (text ++ flat_map example_block examples).
Proof.
  induction examples as [|e es IH]; intros text H; cbn [fold_left flat_map].
  - now rewrite app_nil_r.
  - cbn [forallb] in H. apply andb_true_iff in H. destruct H as [H1 H2].
    cbn [Analyze.bind]. rewrite (write_example_complete _ _ H1), (IH _ H2).
    now rewrite <- app_assoc.
Qed.

Lemma report_raised (examples : list Analyze.example) (text key : str) :
  fold_left (fun r e => Analyze.bind r (fun text => Analyze.write_example text e)) examples
            (Analyze.KeyError text key)
    = Analyze.KeyError text key.
Proof. induction examples as [|e es IH]; [reflexivity|exact IH]. Qed.

Lemma extracted_sections_complete (pattern_file title content : str) :
  complete_sections
    (Analyze.mk_example pattern_file title (Analyze.extract_domain_sections content)) = true.
Proof. reflexivity. Qed.

Lemma analysed_complete (fs : str -> Analyze.sample) (l : list str) :
  forall acc examples,
    forallb complete_sections acc = true ->
    Analyze.analyze_samples fs acc l = Analyze.Examples examples ->
    forallb complete_sections examples = true.
Proof.
  induction l as [|p l IH]; intros acc examples A H; cbn [Analyze.analyze_samples] in H.
  - now injection H as <-.
  - destruct (fs p) as [|e|content]; [now apply (IH acc)|discriminate|].
    apply (IH _ _) in H; [assumption|].
    rewrite forallb_app, A. cbn [forallb]. now rewrite extracted_sections_complete.
Qed.

(** The loop over sample files none of which raises. *)
Lemma analysed_samples (fs : str -> Analyze.sample) (l : list str) :
  forall acc,
    forallb (fun p => negb (raises_in fs p)) l = true ->
    exists examples,
      Analyze.analyze_samples fs acc l = Analyze.Examples (acc ++ examples) /\
      map Analyze.file examples = filter (exists_in fs) l /\
      forall e, In e examples ->
        In (Analyze.file e) l /\
        exists content,
          fs (Analyze.file e) = Analyze.Readable content /\
          Analyze.title e = Analyze.extract_title (Analyze.file e) content /\
          Analyze.sections e = Analyze.extract_domain_sections content.
Proof.
  induction l as [|p l IH]; intros acc H; cbn [Analyze.analyze_samples filter].
  - exists []. rewrite app_nil_r. split; [reflexivity|]. split; [reflexivity|]. intros e [].
  - cbn [forallb] in H. apply andb_true_iff in H. destruct H as [H1 H2].
    unfold raises_in in H1. unfold exists_in at 1.
    destruct (fs p) as [|e0|content] eqn:F; [|discriminate|].
    + destruct (IH acc H2) as (examples & E & M & I). exists examples.
      split; [assumption|]. split; [assumption|].
      intros e Ie. destruct (I e Ie) as [I1 I2]. split; [now right|assumption].
    + destruct (IH (acc ++ [Analyze.mk_example p (Analyze.extract_title p content)
                              (Analyze.extract_domain_sections content)]) H2)
        as (examples & E & M & I).
      exists (Analyze.mk_example p (Analyze.extract_title p content)
                (Analyze.extract_domain_sections content) :: examples).
      split; [now rewrite E, <- app_assoc|]. split; [cbn [map Analyze.file]; now rewrite M|].
      intros e [<-|Ie].
      * split; [now left|]. now exists content.
      * destruct (I e Ie) as [I1 I2]. split; [now right|assumption].
Qed.

(** The loop over sample files the first unreadable of which is [p]. *)
Lemma analysed_samples_raise (fs : str -> Analyze.sample) (l1 l2 : list str)
      (p e : str) :
  forall acc,
    forallb (fun p => negb (raises_in fs p)) l1 = true ->
    fs p = Analyze.Unreadable e ->
    Analyze.analyze_samples fs acc (l1 ++ p :: l2) = Analyze.Raised e.
Proof.
  induction l1 as [|q l1 IH]; intros acc H U; cbn [Analyze.analyze_samples app].
  - now rewrite U.
  - cbn [forallb] in H. apply andb_true_iff in H. destruct H as [H1 H2].
    unfold raises_in in H1.
    destruct (fs q); [now apply IH|discriminate|now apply IH].
Qed.

End Report.


(** X15.  When no sample file that exists fails to be read,
    [analyze_pattern_variations] returns one example for each sample
    file that exists, in the order of the sample list; each holds the
    title and the sections extracted from the content of its file,
    and its title is not empty and has no newline.  When a sample
    file exists and cannot be read, the exception of the first such
    file leaves the function, which has no handler: no list is
    returned. *)
Theorem analysed_examples (fs : str -> Analyze.sample) :
  (forallb (fun p => negb (raises_in fs p)) Analyze.sample_patterns = true ->
   exists examples,
     Analyze.analyze_pattern_variations fs = Analyze.Examples examples /\
     map Analyze.file examples = filter (exists_in fs) Analyze.sample_patterns /\
     forall e,
       In e examples ->
       (exists content,
          fs (Analyze.file e) = Analyze.Readable content /\
          Analyze.title e = Analyze.extract_title (Analyze.file e) content /\
          Analyze.sections e = Analyze.extract_domain_sections content) /\
       Analyze.title e <> [] /\ one_line (Analyze.title e) = true) /\
  (forall ps1 p ps2 e,
     Analyze.sample_patterns = ps1 ++ p :: ps2 ->
     forallb (fun p => negb (raises_in fs p)) ps1 = true ->
     fs p = Analyze.Unreadable e ->
     Analyze.analyze_pattern_variations fs = Analyze.Raised e).
Proof.
  unfold Analyze.analyze_pattern_variations. split.
  - intros H.
    assert (forall p, In p Analyze.sample_patterns -> p <> [] /\ one_line p = true) as Names.
    { intros p [<-|[<-|[<-|[<-|[<-|[]]]]]]; split; try discriminate; reflexivity. }
    destruct (analysed_samples fs Analyze.sample_patterns [] H) as (examples & E & M & I).
    exists examples. split; [exact E|]. split; [exact M|].
    intros e Ie. destruct (I e Ie) as (I1 & content & F & T & S).
    split; [now exists content|].
    destruct (Names _ I1) as [N L]. rewrite T. now apply extract_title_line.
  - intros ps1 p ps2 e -> H U. now apply analysed_samples_raise.
Qed.

(** X16.  On the examples that [analyze_pattern_variations] returns,
    [create_variation_examples_report] raises no [KeyError]: the
    report is the heading followed by one part for each example, in
    which a section with an empty body has no block. *)
Theorem report_of_the_analysis (fs : str -> Analyze.sample) (examples : list Analyze.example) :
  Analyze.analyze_pattern_variations fs = Analyze.Examples examples ->
  Analyze.create_variation_examples_report examples
    = Analyze.Written (Analyze.report_head ++ flat_map example_block examples).
Proof.
  intros H. unfold Analyze.create_variation_examples_report. apply report_complete.
  now apply (analysed_complete fs Analyze.sample_patterns [] examples).
Qed.

Lemma report_of_the_analysis_witness :
  let fs := fun p => if str_eqb p (lit "12610010.md")
                     then Analyze.Readable complete else Analyze.Missing in
  let e := Analyze.mk_example (lit "12610010.md") (lit "Independent domains")
             (Analyze.extract_domain_sections complete) in
  Analyze.analyze_pattern_variations fs = Analyze.Examples [e] /\
  Analyze.create_variation_examples_report [e]
    = Analyze.Written (Analyze.report_head ++ example_block e).
Proof.
  intros fs e.
  assert (Analyze.analyze_pattern_variations fs = Analyze.Examples [e]) as H
      by (vm_compute; reflexivity).
  split; [exact H|].
  rewrite (report_of_the_analysis fs [e] H). cbn [flat_map]. now rewrite app_nil_r.
Defined.

(** X17.  On an example whose sections lack the key [Template] the
    report function raises [KeyError] for that key, after the parts
    of the examples before it and the two heading lines of this one
    are written; nothing of the examples after it is written. *)
Theorem missing_section_key_raises
        (examples rest : list Analyze.example) (e : Analyze.example) (text : str) :
  Analyze.create_variation_examples_report examples = Analyze.Written text ->
  Analyze.item (lit "Template") (Analyze.sections e) = None ->
  Analyze.create_variation_examples_report (examples ++ e :: rest)
    = Analyze.KeyError (text ++ example_head e) (lit "Template").
Proof.
  unfold Analyze.create_variation_examples_report. intros H K.
  rewrite fold_left_app, H. cbn [fold_left Analyze.bind].
  unfold Analyze.write_example, Analyze.write_section. rewrite K.
  cbn [Analyze.bind]. apply report_raised.
Qed.

Lemma missing_section_key_raises_witness :
  let e := Analyze.mk_example (lit "1.md") (lit "One") [(lit "Physical", lit "Land.")] in
  Analyze.create_variation_examples_report [e]
    = Analyze.KeyError (Analyze.report_head ++ example_head e) (lit "Template").
Proof.
  intros e.
  apply (missing_section_key_raises [] [] e Analyze.report_head eq_refl eq_refl).
Defined.

(* ================================================================== *)
(** * Forms that never fire, words that are left *)
(* ================================================================== *)

Section Scan.

Variable r : regex.
Variable repl : str.
Hypothesis shape : word_pattern r = true.

Lemma word_match_ends (c c' : cursor) :
  In c' (m ic r c) ->
  exists w, w <> [] /\ reaches c c' w /\ word_opt (before c) = false /\
            word_opt (last_of w (before c)) = true /\
            word_opt (hd_error (rest c')) = false.
Proof.
  intros H. destruct (word_match_sound _ _ _ _ shape H) as (t & w & I & F & N & R & B1 & B2).
  exists w. repeat split; try assumption; try apply R.
  destruct (word_pattern_inv _ shape) as (y & _ & _ & Wy & Hs).
  rewrite Hs in I. rewrite forallb_forall in Wy.
  destruct (wordy_match _ _ _ (Wy t I) F) as (_ & _ & Hl).
  now rewrite last_of_rev.
Qed.

(** [re.sub] with a word rule runs as [Scanned] tells. *)
Lemma sub_loop_scanned (fuel : nat) :
  forall b s, steps_left false s <= fuel ->
              Scanned r repl b s (sub_loop fuel ic r repl false b s).
Proof.
  induction fuel as [|fuel IH]; intros b s L; [unfold steps_left in L; lia|].
  cbn [sub_loop].
  destruct (match_here ic r false (mk_cursor b s [])) as [c'|] eqn:E.
  - apply match_here_in in E.
    destruct (word_match_ends _ _ E) as (w & N & R & B1 & Bl & B2).
    rewrite (reaches_length _ _ _ R). destruct R as [R1 R2]. cbn [rest before] in *.
    replace (length w =? 0) with false by (destruct w; [now destruct N|reflexivity]).
    rewrite R2. rewrite R1 at 1. apply scanned_span; try assumption.
    apply IH. unfold steps_left in *. rewrite R1, length_app in L.
    destruct w; [now destruct N|cbn [length] in L; lia].
  - apply match_here_none in E. destruct s as [|x s]; [constructor|].
    apply scanned_copy; [exact E|]. apply IH.
    unfold steps_left in *. cbn [length] in L. lia.
Qed.

Lemma sub_scanned (s : str) : Scanned r repl None s (sub r repl s ic).
Proof. apply sub_loop_scanned. unfold steps_left. lia. Qed.

(** After a word character no span starts: the text and the output go
    on alike. *)
Lemma scanned_head (b : option ascii) (s out : str) :
  Scanned r repl b s out -> word_opt b = true ->
  word_opt (hd_error s) = word_opt (hd_error out).
Proof.
  intros Sc B. destruct Sc as [b|b x s out N Sc|b w s out N B1 Bl B2 Sc];
    [reflexivity|reflexivity|congruence].
Qed.

Hypothesis opens : hd_error repl = Some "{"%char.

(** A run of letters and blanks read at the head of the output was
    copied from the text. *)
Lemma scanned_letters (l : str) :
  forallb letter_or_blank l = true ->
  forall b s out,
    Scanned r repl b s out -> lit_match ic l out = true ->
    exists w s' out',
      s = w ++ s' /\ out = w ++ out' /\
      Forall2 (fun p x => eq_char ic p x = true) l w /\
      Scanned r repl (last_of w b) s' out' /\
      (l <> [] -> m ic r (mk_cursor b s []) = []).
Proof.
  induction l as [|p l IH]; intros L b s out Sc H.
  - exists [], s, out. repeat split; [constructor|assumption|easy].
  - cbn [forallb] in L. apply andb_true_iff in L. destruct L as [L1 L2].
    destruct Sc as [b|b x s out N Sc|b w s out N B1 Bl B2 Sc].
    + discriminate.
    + cbn [lit_match] in H. apply andb_true_iff in H. destruct H as [H1 H2].
      destruct (IH L2 _ _ _ Sc H2) as (w & s' & out' & -> & -> & F & Sc' & _).
      exists (x :: w), s', out'. repeat split; try assumption; [now constructor|].
      intros _. exact N.
    + exfalso. destruct repl as [|y repl']; [discriminate|]. injection opens as ->.
      cbn [lit_match app] in H.
      rewrite (letter_or_blank_misses ic p "{"%char L1 eq_refl) in H by discriminate.
      discriminate.
Qed.

End Scan.

Section Positions.

Lemma nowhere_search (r : regex) (s : str) :
  forall b, nowhere r b s -> search_from ic r b s = None.
Proof.
  induction s as [|x s IH]; intros b H; apply search_from_none.
  - split; [apply (H [] []); reflexivity|exact I].
  - split; [apply (H [] (x :: s)); reflexivity|].
    apply IH. intros p q E. apply (H (x :: p) q). now rewrite E.
Qed.

(** A position in [a ++ o] lies inside [a] or in [o]. *)
Lemma split_position (p q a o : str) :
  p ++ q = a ++ o ->
  (length p < length a /\ q = skipn (length p) a ++ o) \/
  (exists p', p = a ++ p' /\ o = p' ++ q).
Proof.
  intros E. destruct (Nat.lt_ge_cases (length p) (length a)) as [L|L].
  - left. split; [assumption|].
    apply (f_equal (skipn (length p))) in E.
    rewrite skipn_length_app, skipn_app in E.
    replace (length p - length a) with 0 in E by lia. exact E.
  - right. exists (skipn (length a) p).
    assert (firstn (length a) p = a) as F.
    { apply (f_equal (firstn (length a))) in E.
      rewrite firstn_length_app, firstn_app in E.
      replace (length a - length p) with 0 in E by lia.
      cbn [firstn] in E. now rewrite app_nil_r in E. }
    split; [now rewrite <- F at 1; rewrite firstn_skipn|].
    rewrite <- (firstn_skipn (length a) p), F, <- app_assoc in E.
    now apply app_inv_head in E.
Qed.

(** Where the form does not read, the term pattern does not match. *)
Lemma term_pattern_unread (t : str) (c : cursor) :
  lit_match ic t (rest c) = false -> m ic (Uia.term_pattern t) c = [].
Proof.
  intros H. unfold Uia.term_pattern, escape. cbn [m].
  destruct (at_boundary c); [|reflexivity]. cbn [flat_map]. now rewrite H.
Qed.

Lemma term_pattern_word (t : str) :
  wordy t = true -> word_pattern (Uia.term_pattern t) = true.
Proof. intros H. cbn. now rewrite H. Qed.

(** A form of letters and blanks that reads nowhere in a braced
    placeholder does not read from inside it either, whatever
    follows. *)
Lemma absent_inside (t repl o : str) (j : nat) :
  forallb letter_or_blank t = true -> braced repl = true -> absent t repl = true ->
  j < length repl -> lit_match ic t (skipn j repl ++ o) = false.
Proof.
  intros L B A J. unfold braced in B.
  destruct repl as [|x0 r0]; [discriminate|].
  destruct (rev (x0 :: r0)) as [|y l] eqn:R; [discriminate|].
  apply andb_true_iff in B. destruct B as [_ B]. apply eqc_eq in B. subst y.
  assert (x0 :: r0 = rev l ++ ["}"%char]) as E
      by (rewrite <- (rev_involutive (x0 :: r0)), R; reflexivity).
  rewrite E in *. clear E R. unfold absent in A.
  rewrite removelast_last in A. rewrite length_app in A, J. cbn [length] in A, J.
  rewrite skipn_app. replace (j - length (rev l)) with 0 by lia.
  cbn [skipn]. rewrite <- app_assoc. cbn [app].
  rewrite (lit_match_ext ic "}"%char o eq_refl ltac:(discriminate) t L).
  rewrite forallb_forall in A. apply negb_true_iff, A, in_seq. lia.
Qed.

Lemma lit_match_tail (v t wv o : str) :
  Forall2 (fun p x => eq_char ic p x = true) v wv ->
  lit_match ic (v ++ t) (wv ++ o) = lit_match ic t o.
Proof.
  induction 1 as [|p x v wv E F IH]; [reflexivity|].
  cbn [app lit_match]. now rewrite E, IH.
Qed.

Lemma braced_opens (repl : str) : braced repl = true -> hd_error repl = Some "{"%char.
Proof.
  unfold braced. destruct repl as [|x repl0]; [discriminate|].
  destruct (rev (x :: repl0)); [discriminate|]. intros H.
  apply andb_true_iff in H. destruct H as [H _]. apply eqc_eq in H. now subst.
Qed.

End Positions.

Section DeadTerm.

Variable t v repl : str.
Hypothesis t_wordy : wordy t = true.
Hypothesis t_letters : forallb letter_or_blank t = true.
Hypothesis v_letters : forallb letter_or_blank v = true.
Hypothesis v_blank : hd_error (rev v) = Some " "%char.
Hypothesis long_wordy : wordy (v ++ t) = true.
Hypothesis repl_braced : braced repl = true.
Hypothesis long_absent : absent (v ++ t) repl = true.

Lemma long_letters : forallb letter_or_blank (v ++ t) = true.
Proof. now rewrite forallb_app, v_letters, t_letters. Qed.

(** After a position without word character, the short form read at
    the head of the output is followed by a word character. *)
Lemma short_form_goes_on (b : option ascii) (s out : str) :
  Scanned (Uia.term_pattern t) repl b s out -> word_opt b = false ->
  lit_match ic t out = true ->
  word_opt (hd_error (skipn (length t) out)) = true.
Proof.
  intros Sc B H.
  pose proof (term_pattern_word t t_wordy) as W.
  destruct (scanned_letters _ _ (braced_opens repl repl_braced) t t_letters _ _ _ Sc H)
    as (w & s' & out' & -> & -> & F & Sc' & N).
  rewrite (Forall2_length F), skipn_length_app.
  destruct (wordy_match _ _ _ t_wordy F) as (Nw & _ & Hl).
  assert (word_opt (last_of w b) = true) as Bl by now rewrite last_of_rev.
  rewrite <- (scanned_head _ _ _ _ _ Sc' Bl).
  destruct (word_opt (hd_error s')) eqn:B2; [reflexivity|exfalso].
  apply (word_match_complete ic (Uia.term_pattern t) (mk_cursor b (w ++ s') []) t w s' W);
    try assumption; try reflexivity.
  - now left.
  - apply N. intros ->. discriminate.
Qed.

(** The long form matches at no position of the output. *)
Lemma long_form_here (bs bo : option ascii) (s out : str) :
  Scanned (Uia.term_pattern t) repl bs s out ->
  m ic (Uia.term_pattern (v ++ t)) (mk_cursor bo out []) = [].
Proof.
  intros Sc.
  destruct (m ic (Uia.term_pattern (v ++ t)) (mk_cursor bo out [])) as [|c' l] eqn:E;
    [reflexivity|exfalso].
  assert (In c' (m ic (Uia.term_pattern (v ++ t)) (mk_cursor bo out []))) as I
      by (rewrite E; now left).
  destruct (word_match_sound _ _ _ _ (term_pattern_word _ long_wordy) I)
    as (t2 & w2 & [<-|[]] & F2 & _ & [R _] & _ & B2).
  cbn [rest] in R.
  assert (lit_match ic (v ++ t) out = true) as H by (rewrite R; now apply lit_match_app).
  assert (lit_match ic v out = true) as Hv.
  { rewrite R. destruct (Forall2_app_inv_l _ _ F2) as (wv & wt & Fv & _ & ->).
    rewrite <- app_assoc. now apply lit_match_app. }
  destruct (scanned_letters _ _ (braced_opens repl repl_braced) v v_letters _ _ _ Sc Hv)
    as (wv & s1 & out1 & -> & -> & Fv & Sc1 & _).
  rewrite (lit_match_tail v t wv out1 Fv) in H.
  assert (word_opt (last_of wv bs) = false) as Bv.
  { pose proof (Forall2_rev_both _ _ _ _ _ Fv) as Fr.
    destruct (rev v) as [|p rv] eqn:Ev; [discriminate|]. injection v_blank as ->.
    inversion Fr as [|p0 x rv0 rw Ex Fr' E1 E2]; subst.
    assert (wv <> []) as Nw by (intros ->; discriminate).
    rewrite last_of_rev by assumption. rewrite <- E2. cbn [hd_error word_opt].
    unfold eq_char in Ex. cbn in Ex. apply eqc_eq in Ex. symmetry in Ex.
    apply lower_blank in Ex. now subst. }
  pose proof (short_form_goes_on _ _ _ Sc1 Bv H) as G.
  assert (rest c' = skipn (length t) out1) as Hr.
  { apply (f_equal (skipn (length w2))) in R.
    rewrite skipn_length_app in R. rewrite <- R.
    replace (length w2) with (length t + length wv).
    - now rewrite <- skipn_skipn, skipn_length_app.
    - rewrite <- (Forall2_length F2), length_app, (Forall2_length Fv). lia. }
  rewrite Hr in B2. congruence.
Qed.

Lemma long_form_nowhere (bs : option ascii) (s out : str) :
  Scanned (Uia.term_pattern t) repl bs s out ->
  forall bo, nowhere (Uia.term_pattern (v ++ t)) bo out.
Proof.
  induction 1 as [b|b x s out N Sc IH|b w s out N B1 Bl B2 Sc IH]; intros bo p q E.
  - destruct p; [|discriminate]. destruct q; [|discriminate].
    apply (long_form_here b bo [] []). constructor.
  - destruct p as [|y p].
    + cbn [app] in E. subst q. apply (long_form_here b bo (x :: s)). now constructor.
    + injection E as <- E. apply (IH (Some x) p q E).
  - symmetry in E. destruct (split_position _ _ _ _ E) as [[L ->]|(p' & -> & ->)].
    + apply term_pattern_unread. cbn [rest].
      apply absent_inside; try assumption. apply long_letters.
    + rewrite last_of_app. now apply IH.
Qed.

(** After [re.sub] with the short form, the long form is found
    nowhere. *)
Lemma long_form_dead (text : str) :
  search (Uia.term_pattern (v ++ t)) (sub (Uia.term_pattern t) repl text ic) ic = None.
Proof.
  apply nowhere_search.
  apply (long_form_nowhere None text). apply sub_scanned. now apply term_pattern_word.
Qed.

End DeadTerm.

Lemma rewrite_all_app (l1 l2 : list (regex * str)) (text : str) :
  rewrite_all (l1 ++ l2) text = rewrite_all l2 (rewrite_all l1 text).
Proof. apply fold_left_app. Qed.

(** The first engine is its first ten rules. *)
Lemma uia_live_engine (text : str) :
  Uia.identify_domain_specific_terms text = rewrite_all uia_live_rules text.
Proof.
  rewrite (uia_engine text).
  change uia_rules
    with (firstn 9 uia_rules
            ++ [(Uia.term_pattern (lit "patterns"), lit "{{patterns}}")]
            ++ [(Uia.term_pattern (lit "established " ++ lit "patterns"),
                 lit "{{established-patterns}}");
                (Uia.term_pattern (lit "major " ++ lit "patterns"),
                 lit "{{major-patterns}}")]).
  change uia_live_rules
    with (firstn 9 uia_rules
            ++ [(Uia.term_pattern (lit "patterns"), lit "{{patterns}}")]).
  rewrite !rewrite_all_app.
  set (text9 := rewrite_all (firstn 9 uia_rules) text).
  unfold rewrite_all at 1. cbn [fold_left fst snd].
  unfold rewrite_all at 1. cbn [fold_left fst snd].
  rewrite (sub_unmatched ic _ _ _
             (long_form_dead (lit "patterns") (lit "established ") (lit "{{patterns}}")
                eq_refl eq_refl eq_refl eq_refl eq_refl eq_refl eq_refl text9)).
  rewrite (sub_unmatched ic _ _ _
             (long_form_dead (lit "patterns") (lit "major ") (lit "{{patterns}}")
                eq_refl eq_refl eq_refl eq_refl eq_refl eq_refl eq_refl text9)).
  reflexivity.
Qed.

(** X18.  The last two rules of the first engine, for [established
    patterns] and [major patterns], never fire: on every text the
    engine returns what the loop over its first ten rules returns,
    the rule for [patterns] having left no place where one of the two
    longer forms reads as whole words. *)
Theorem multi_word_terms_never_fire (text : str) :
  Uia.identify_domain_specific_terms text
    = fold_left Uia.replace_term (firstn 10 Uia.replaceable_terms) text.
Proof.
  change (fold_left Uia.replace_term (firstn 10 Uia.replaceable_terms) text)
    with (rewrite_all uia_live_rules text).
  apply uia_live_engine.
Qed.

Section Occurrences.

Lemma nowhere_only_after (r : regex) (b : option ascii) (s : str) :
  nowhere r b s <-> only_after r (fun _ => False) b s.
Proof.
  split; intros H p q E.
  - intros N. apply N. now apply H.
  - destruct (m ic r (mk_cursor (last_of p b) q [])) eqn:Em; [reflexivity|exfalso].
    apply (H p q E). rewrite Em. discriminate.
Qed.

Lemma only_after_tail (r : regex) (ok : option ascii -> Prop)
      (b : option ascii) (p q : str) :
  only_after r ok b (p ++ q) -> only_after r ok (last_of p b) q.
Proof.
  intros H p' q' E. rewrite <- last_of_app. apply H. now rewrite E, app_assoc.
Qed.

Lemma term_pattern_read (t : str) (c : cursor) :
  m ic (Uia.term_pattern t) c <> [] -> lit_match ic t (rest c) = true.
Proof.
  intros H. destruct (lit_match ic t (rest c)) eqn:E; [reflexivity|].
  now rewrite term_pattern_unread in H.
Qed.

Lemma inside_position (p q a o : str) :
  p ++ q = a ++ o -> length p < length a -> p = firstn (length p) a.
Proof.
  intros E L. apply (f_equal (firstn (length p))) in E.
  rewrite firstn_length_app, firstn_app in E.
  replace (length p - length a) with 0 in E by lia.
  cbn [firstn] in E. now rewrite app_nil_r in E.
Qed.

(** Inside a braced placeholder a form of letters and blanks reads
    only where it reads in the placeholder without its last brace. *)
Lemma read_inside (t repl o : str) (j : nat) :
  forallb letter_or_blank t = true -> braced repl = true -> j < length repl ->
  lit_match ic t (skipn j repl ++ o) = lit_match ic t (skipn j (removelast repl)).
Proof.
  intros L B J. unfold braced in B.
  destruct repl as [|x0 r0]; [discriminate|].
  destruct (rev (x0 :: r0)) as [|y l] eqn:R; [discriminate|].
  apply andb_true_iff in B. destruct B as [_ B]. apply eqc_eq in B. subst y.
  assert (x0 :: r0 = rev l ++ ["}"%char]) as E
      by (rewrite <- (rev_involutive (x0 :: r0)), R; reflexivity).
  rewrite E in *. clear E R.
  rewrite removelast_last. rewrite length_app in J. cbn [length] in J.
  rewrite skipn_app. replace (j - length (rev l)) with 0 by lia.
  cbn [skipn]. rewrite <- app_assoc. cbn [app].
  apply (lit_match_ext ic "}"%char o eq_refl ltac:(discriminate) t L).
Qed.

(** A whole-word occurrence of a form that starts inside a braced
    placeholder lies in the placeholder. *)
Lemma word_inside (t repl o : str) (j : nat) (b : option ascii) :
  wordy t = true -> forallb letter_or_blank t = true -> braced repl = true ->
  j < length repl ->
  m ic (Uia.term_pattern t) (mk_cursor b (skipn j repl ++ o) []) <> [] ->
  word_reads t repl j = true.
Proof.
  intros W L B J H.
  destruct (m ic (Uia.term_pattern t) (mk_cursor b (skipn j repl ++ o) []))
    as [|c' l] eqn:E; [easy|].
  assert (In c' (m ic (Uia.term_pattern t) (mk_cursor b (skipn j repl ++ o) []))) as I
      by (rewrite E; now left).
  destruct (word_match_sound _ _ _ _ (term_pattern_word _ W) I)
    as (t2 & w2 & [<-|[]] & F2 & _ & [R _] & _ & B2).
  cbn [rest] in R.
  assert (lit_match ic t (skipn j (removelast repl)) = true) as Hm.
  { rewrite <- (read_inside t repl o j L B J), R. now apply lit_match_app. }
  unfold word_reads. rewrite Hm. cbn [andb]. apply negb_true_iff.
  destruct (lit_match_split _ _ _ Hm) as (w & s1 & Ha & Lw & _).
  assert (skipn j repl = w ++ s1 ++ ["}"%char]) as Hr.
  { unfold braced in B. destruct repl as [|x0 r0]; [discriminate|].
    destruct (rev (x0 :: r0)) as [|y l0] eqn:Rv; [discriminate|].
    apply andb_true_iff in B. destruct B as [_ B]. apply eqc_eq in B. subst y.
    assert (x0 :: r0 = rev l0 ++ ["}"%char]) as Er
        by (rewrite <- (rev_involutive (x0 :: r0)), Rv; reflexivity).
    rewrite Er in *. rewrite removelast_last in Ha.
    rewrite length_app in J. cbn [length] in J.
    rewrite skipn_app. replace (j - length (rev l0)) with 0 by lia.
    cbn [skipn]. now rewrite Ha, <- app_assoc. }
  replace (j + length t) with (length t + j) by lia.
  rewrite <- skipn_skipn, Hr, <- Lw, skipn_length_app.
  rewrite Hr, <- !app_assoc in R.
  apply (f_equal (skipn (length w))) in R.
  rewrite skipn_length_app in R.
  replace (length w) with (length w2) in R
    by (rewrite Lw; symmetry; apply (Forall2_length F2)).
  rewrite skipn_length_app in R. rewrite <- R in B2.
  destruct s1; exact B2.
Qed.

End Occurrences.

Section ScanOccurrences.

Variable r : regex.
Variable repl t : str.
Variable ok : option ascii -> Prop.
Hypothesis shape : word_pattern r = true.
Hypothesis t_wordy : wordy t = true.
Hypothesis t_letters : forallb letter_or_blank t = true.
Hypothesis repl_braced : braced repl = true.
Hypothesis inside :
  forall j o bo, j < length repl ->
    m ic (Uia.term_pattern t)
      (mk_cursor (last_of (firstn j repl) bo) (skipn j repl ++ o) []) <> [] ->
    ok (last_of (firstn j repl) bo).

(** A whole-word occurrence of [t] at the head of the output is one
    at the head of the text, where the rule matched nothing. *)
Lemma occurrence_was_there (bs bo : option ascii) (s out : str) :
  Scanned r repl bs s out -> aligned bs bo s ->
  m ic (Uia.term_pattern t) (mk_cursor bo out []) <> [] ->
  exists w s',
    s = w ++ s' /\ Forall2 (fun p x => eq_char ic p x = true) t w /\
    word_opt bs = false /\ word_opt (hd_error s') = false /\
    m ic r (mk_cursor bs s []) = [] /\ bo = bs.
Proof.
  intros Sc A H.
  destruct (m ic (Uia.term_pattern t) (mk_cursor bo out [])) as [|c' l] eqn:E; [easy|].
  assert (In c' (m ic (Uia.term_pattern t) (mk_cursor bo out []))) as I
      by (rewrite E; now left).
  destruct (word_match_sound _ _ _ _ (term_pattern_word _ t_wordy) I)
    as (t2 & w2 & [<-|[]] & F2 & _ & [R _] & B1 & B2).
  cbn [rest before] in R, B1.
  assert (lit_match ic t out = true) as Hm by (rewrite R; now apply lit_match_app).
  destruct (scanned_letters r repl (braced_opens repl repl_braced) t t_letters _ _ _ Sc Hm)
    as (w & s' & out' & -> & -> & F & Sc' & N).
  destruct (wordy_match _ _ _ t_wordy F) as (Nw & Hh & Hl).
  exists w, s'. split; [reflexivity|]. split; [assumption|].
  assert (bo = bs) as Eb.
  { destruct A as [A|A]; [assumption|].
    rewrite hd_error_app in A by assumption. congruence. }
  split; [now rewrite <- Eb|]. split; [|split; [|exact Eb]].
  - assert (word_opt (last_of w bs) = true) as Bl by now rewrite last_of_rev.
    rewrite (scanned_head _ _ _ _ _ Sc' Bl).
    assert (rest c' = out') as Hr.
    { apply (f_equal (skipn (length w2))) in R. rewrite skipn_length_app in R.
      rewrite <- R, <- (Forall2_length F2), (Forall2_length F).
      apply skipn_length_app. }
    now rewrite <- Hr.
  - apply N. intros ->. discriminate.
Qed.

Variable Q : option ascii -> str -> Prop.
Hypothesis Q_tail : forall b p q, Q b (p ++ q) -> Q (last_of p b) q.
Hypothesis Q_head :
  forall b w s', Q b (w ++ s') ->
    Forall2 (fun p x => eq_char ic p x = true) t w ->
    word_opt b = false -> word_opt (hd_error s') = false ->
    m ic r (mk_cursor b (w ++ s') []) = [] -> ok b.

Lemma scan_only_after (bs : option ascii) (s out : str) :
  Scanned r repl bs s out ->
  forall bo, Q bs s -> aligned bs bo s -> only_after (Uia.term_pattern t) ok bo out.
Proof.
  induction 1 as [b|b x s out N Sc IH|b w s out N B1 Bl B2 Sc IH];
    intros bo HQ A p q E Hm.
  - destruct p; [|discriminate]. destruct q; [|discriminate].
    apply term_pattern_read in Hm. cbn [rest] in Hm.
    destruct t; discriminate.
  - destruct p as [|y p].
    + cbn [app] in E. subst q.
      destruct (occurrence_was_there b bo (x :: s) (x :: out)
                  (scanned_copy r repl b x s out N Sc) A Hm)
        as (w & s' & Es & F & Bs & Bh & Nm & ->).
      rewrite Es in HQ, Nm. exact (Q_head b w s' HQ F Bs Bh Nm).
    + injection E as <- E. apply (IH (Some x)) with (q := q); try assumption.
      * apply (Q_tail b [x] s HQ).
      * now left.
  - symmetry in E. destruct (split_position _ _ _ _ E) as [[L Eq]|(p' & -> & ->)].
    + rewrite (inside_position _ _ _ _ E L). apply (inside (length p) out bo L).
      rewrite <- Eq, <- (inside_position _ _ _ _ E L). exact Hm.
    + rewrite last_of_app. rewrite last_of_app in Hm.
      apply (IH (last_of repl bo)) with (q := q); try assumption; try reflexivity.
      * apply (Q_tail b w s HQ).
      * now right.
Qed.

End ScanOccurrences.

Section Settled.

Variable t : str.
Variable ok : option ascii -> Prop.
Variable keeps : regex * str -> bool.
Hypothesis t_form : word_form t = true.
Hypothesis keeps_ok :
  forall rule, keeps rule = true ->
    word_pattern (fst rule) = true /\ braced (snd rule) = true /\
    forall j o bo, j < length (snd rule) ->
      m ic (Uia.term_pattern t)
        (mk_cursor (last_of (firstn j (snd rule)) bo) (skipn j (snd rule) ++ o) []) <> [] ->
      ok (last_of (firstn j (snd rule)) bo).

Lemma word_form_inv : wordy t = true /\ forallb letter_or_blank t = true.
Proof. unfold word_form in t_form. now apply andb_true_iff in t_form. Qed.

(** A rule one of whose forms is [t] leaves no whole-word occurrence
    of [t] but those it writes. *)
Lemma form_settled (rule : regex * str) (text : str) :
  keeps rule = true -> In t (surface_forms (fst rule)) ->
  only_after (Uia.term_pattern t) ok None (sub (fst rule) (snd rule) text ic).
Proof.
  intros K I. destruct (keeps_ok rule K) as (W & B & In'). destruct word_form_inv as [Wt Lt].
  apply (scan_only_after (fst rule) (snd rule) t ok Wt Lt B In' (fun _ _ => True)
           (fun _ _ _ _ => Logic.I)) with (bs := None) (s := text).
  - intros b w s' _ F Bs Bh Nm. exfalso. revert Nm.
    now apply (word_match_complete ic (fst rule) (mk_cursor b (w ++ s') []) t w s').
  - now apply sub_scanned.
  - exact Logic.I.
  - now left.
Qed.

(** A kept rule makes no whole-word occurrence of [t] but those it
    writes. *)
Lemma form_stays_settled (rule : regex * str) (text : str) :
  keeps rule = true ->
  only_after (Uia.term_pattern t) ok None text ->
  only_after (Uia.term_pattern t) ok None (sub (fst rule) (snd rule) text ic).
Proof.
  intros K H. destruct (keeps_ok rule K) as (W & B & In'). destruct word_form_inv as [Wt Lt].
  apply (scan_only_after (fst rule) (snd rule) t ok Wt Lt B In'
           (only_after (Uia.term_pattern t) ok) (only_after_tail (Uia.term_pattern t) ok))
    with (bs := None) (s := text).
  - intros b w s' Hn F Bs Bh _. apply (Hn [] (w ++ s') eq_refl).
    apply (word_match_complete ic (Uia.term_pattern t) (mk_cursor b (w ++ s') []) t w s'
             (term_pattern_word t Wt)); try assumption; try reflexivity.
    now left.
  - now apply sub_scanned.
  - exact H.
  - now left.
Qed.

Lemma rewrite_all_stays_settled (rules : list (regex * str)) :
  forallb keeps rules = true ->
  forall text,
    only_after (Uia.term_pattern t) ok None text ->
    only_after (Uia.term_pattern t) ok None (rewrite_all rules text).
Proof.
  unfold rewrite_all.
  induction rules as [|rule rs IH]; intros K text H; [exact H|].
  cbn [forallb] in K. apply andb_true_iff in K. destruct K as [K1 K2].
  cbn [fold_left]. apply (IH K2). now apply form_stays_settled.
Qed.

Lemma settled_sound (rules : list (regex * str)) :
  settled keeps t rules = true ->
  forall text, only_after (Uia.term_pattern t) ok None (rewrite_all rules text).
Proof.
  induction rules as [|rule rs IH]; cbn [settled]; [discriminate|].
  intros H text. change (rewrite_all (rule :: rs) text)
    with (rewrite_all rs (sub (fst rule) (snd rule) text ic)).
  apply orb_true_iff in H. destruct H as [H|H]; [|now apply IH].
  apply andb_true_iff in H. destruct H as [H K2].
  apply andb_true_iff in H. destruct H as [I K1].
  apply (rewrite_all_stays_settled rs K2). apply (form_settled rule text K1).
  apply existsb_exists in I. destruct I as (t' & I & E).
  apply str_eqb_eq in E. now subst.
Qed.

End Settled.

Section Kept.

Variable t : str.
Hypothesis t_form : word_form t = true.

Lemma keeps_away_ok (rule : regex * str) :
  keeps_away t rule = true ->
  word_pattern (fst rule) = true /\ braced (snd rule) = true /\
  forall j o (bo : option ascii), j < length (snd rule) ->
    m ic (Uia.term_pattern t)
      (mk_cursor (last_of (firstn j (snd rule)) bo) (skipn j (snd rule) ++ o) []) <> [] ->
    False.
Proof.
  unfold keeps_away. intros H. apply andb_true_iff in H. destruct H as [H A].
  apply andb_true_iff in H. destruct H as [W B]. repeat split; try assumption.
  intros j o bo J H. unfold word_form in t_form. apply andb_true_iff in t_form.
  destruct t_form as [Wt Lt].
  pose proof (word_inside t (snd rule) o j _ Wt Lt B J H) as R.
  unfold absent_word in A. rewrite forallb_forall in A.
  assert (In j (seq 0 (length (snd rule)))) as I by (apply in_seq; lia).
  specialize (A j I). rewrite R in A. discriminate.
Qed.

Lemma keeps_guard_ok (rule : regex * str) :
  keeps_guard t rule = true ->
  word_pattern (fst rule) = true /\ braced (snd rule) = true /\
  forall j o bo, j < length (snd rule) ->
    m ic (Uia.term_pattern t)
      (mk_cursor (last_of (firstn j (snd rule)) bo) (skipn j (snd rule) ++ o) []) <> [] ->
    after_brace (last_of (firstn j (snd rule)) bo).
Proof.
  unfold keeps_guard. intros H. apply andb_true_iff in H. destruct H as [H G].
  apply andb_true_iff in H. destruct H as [W B]. repeat split; try assumption.
  intros j o bo J H. unfold word_form in t_form. apply andb_true_iff in t_form.
  destruct t_form as [Wt Lt].
  pose proof (word_inside t (snd rule) o j _ Wt Lt B J H) as R.
  unfold guarded_in in G. rewrite forallb_forall in G.
  assert (In j (seq 0 (length (snd rule)))) as I by (apply in_seq; lia).
  specialize (G j I). rewrite R in G. cbn [negb orb] in G.
  destruct (rev (firstn j (snd rule))) as [|x l] eqn:Er; [discriminate|].
  cbn [hd_error] in G. apply eqc_eq in G. subst x.
  unfold after_brace. rewrite last_of_rev by (intros En; rewrite En in Er; discriminate).
  now rewrite Er.
Qed.

(** A form settled with rules that keep away from it is a whole word
    nowhere in the output. *)
Lemma cleared_nowhere (rules : list (regex * str)) (text : str) :
  settled (keeps_away t) t rules = true ->
  nowhere (Uia.term_pattern t) None (rewrite_all rules text).
Proof.
  intros H. apply nowhere_only_after.
  apply (settled_sound t (fun _ => False) (keeps_away t) t_form keeps_away_ok rules H).
Qed.

Lemma guarded_after_brace (rules : list (regex * str)) (text : str) :
  settled (keeps_guard t) t rules = true ->
  only_after (Uia.term_pattern t) after_brace None (rewrite_all rules text).
Proof.
  intros H.
  apply (settled_sound t after_brace (keeps_guard t) t_form keeps_guard_ok rules H).
Qed.

End Kept.

Section DeadAlternative.

Variable a t u d : str.
Hypothesis t_wordy : wordy t = true.

Lemma long_form_unread (c : cursor) :
  m ic (Uia.term_pattern t) c = [] -> at_boundary c = true ->
  lit_match ic (t ++ " "%char :: u) (rest c) = false.
Proof.
  intros H B. destruct (lit_match ic (t ++ " "%char :: u) (rest c)) eqn:E; [exfalso|reflexivity].
  destruct (lit_match_split _ _ _ E) as (w & s' & Hs & _ & F).
  destruct (Forall2_app_inv_l _ _ F) as (wt & w' & Ft & F' & ->).
  inversion F' as [|p x l wu Ex Fu]; subst.
  unfold eq_char in Ex. cbn in Ex. apply eqc_eq in Ex. symmetry in Ex.
  apply lower_blank in Ex. subst x.
  destruct (wordy_match _ _ _ t_wordy Ft) as (Nw & Hh & _).
  rewrite <- app_assoc in Hs.
  apply (word_match_complete ic (Uia.term_pattern t) c t wt ((" "%char :: wu) ++ s')
           (term_pattern_word t t_wordy)); try assumption; try reflexivity.
  - now left.
  - unfold at_boundary in B. rewrite Hs, hd_error_app, Hh in B by assumption.
    now destruct (word_opt (before c)).
Qed.

(** Where [t] is no whole word, the form [t u] adds no match. *)
Lemma dead_alternative_here (c : cursor) :
  m ic (Uia.term_pattern t) c = [] ->
  m ic (three_forms a (t ++ " "%char :: u) d) c = m ic (two_forms a d) c.
Proof.
  intros H. unfold three_forms, two_forms. cbn [m].
  destruct (at_boundary c) eqn:B; [|reflexivity].
  cbn [flat_map]. now rewrite (long_form_unread c H B).
Qed.

End DeadAlternative.

Section SameMatches.

Variable r r' : regex.
Variable repl : str.

(** Two patterns with the same matches at every position of the text
    are replaced alike. *)
Lemma sub_loop_same (fuel : nat) :
  forall adv b s,
    (forall p q, s = p ++ q ->
       m ic r (mk_cursor (last_of p b) q []) = m ic r' (mk_cursor (last_of p b) q [])) ->
    sub_loop fuel ic r repl adv b s = sub_loop fuel ic r' repl adv b s.
Proof.
  induction fuel as [|fuel IH]; intros adv b s H; [reflexivity|].
  cbn [sub_loop]. unfold match_here.
  pose proof (H [] s eq_refl) as H0. unfold last_of in H0. cbn [fold_left] in H0.
  rewrite <- H0.
  destruct (hd_error _) as [c'|] eqn:E.
  - f_equal. apply IH. intros p q Ep.
    assert (In c' (m ic r (mk_cursor b s []))) as I.
    { destruct (filter _ _) as [|c0 l] eqn:Ef; [discriminate|]. injection E as ->.
      assert (In c' (c' :: l)) as I0 by now left.
      rewrite <- Ef in I0. now apply filter_In in I0. }
    destruct (m_reaches _ _ _ _ I) as [w [R1 R2]]. cbn [rest before] in R1, R2.
    rewrite R2, <- last_of_app. apply H. now rewrite R1, Ep, app_assoc.
  - destruct s as [|x s]; [reflexivity|]. f_equal. apply IH. intros p q Ep.
    apply (H (x :: p) q). now rewrite Ep.
Qed.

End SameMatches.

(** X19.  In the second engine the form [building process] of the
    ninth rule never fires: on every text the engine returns what it
    returns with that form taken out of the rule, the third rule
    having replaced every whole word [building] and no later rule
    bringing one back. *)
Theorem building_process_never_fires (text : str) :
  Apl.identify_architectural_terms text
    = fold_left Apl.replace_pattern apl_live_rules text.
Proof.
  change (fold_left Apl.replace_pattern apl_live_rules text)
    with (rewrite_all apl_live_rules text).
  rewrite (apl_engine text).
  change apl_rules
    with (firstn 8 apl_rules
            ++ [(three_forms (lit "construction")
                   (lit "building" ++ " "%char :: lit "process") (lit "development"),
                 lit "{{creation}}")]
            ++ skipn 9 apl_rules).
  unfold apl_live_rules.
  change (Apl.words "construction" ["development"%string])
    with (two_forms (lit "construction") (lit "development")).
  rewrite !rewrite_all_app.
  assert (nowhere (Uia.term_pattern (lit "building")) None
            (rewrite_all (firstn 8 apl_rules) text)) as H
      by (apply cleared_nowhere; reflexivity).
  set (text8 := rewrite_all (firstn 8 apl_rules) text) in *.
  f_equal. unfold rewrite_all. cbn [fold_left fst snd]. unfold sub.
  apply sub_loop_same. intros p q E. apply dead_alternative_here; [reflexivity|].
  now apply H.
Qed.

(** X20.  The second engine replaces every occurrence: in its output
    a surface form of its table other than [regions], [structures]
    and [spaces], which its placeholders hold, is found nowhere as a
    whole word, whatever the case. *)
Theorem replaced_words_are_gone (text t : str) :
  In t (all_forms apl_rules) -> ~ In t token_words ->
  search (Uia.term_pattern t) (Apl.identify_architectural_terms text) ic = None.
Proof.
  intros I N. rewrite (apl_engine text). apply nowhere_search.
  assert (forallb (fun t => existsb (str_eqb t) token_words
                            || (word_form t && settled (keeps_away t) t apl_rules))
                  (all_forms apl_rules) = true) as A by (vm_compute; reflexivity).
  rewrite forallb_forall in A. specialize (A t I).
  apply orb_true_iff in A. destruct A as [A|A].
  - exfalso. apply N. apply existsb_exists in A. destruct A as (t' & I' & E).
    apply str_eqb_eq in E. now subst.
  - apply andb_true_iff in A. destruct A as [F S]. now apply cleared_nowhere.
Qed.

Lemma replaced_words_are_gone_witness :
  In (lit "town") (all_forms apl_rules) /\ ~ In (lit "town") token_words /\
  search (Uia.term_pattern (lit "town"))
         (Apl.identify_architectural_terms (lit "Town and {town} by town")) ic = None.
Proof.
  assert (In (lit "town") (all_forms apl_rules)) as I by (vm_compute; tauto).
  assert (~ In (lit "town") token_words) as N
      by (intros [H|[H|[H|[]]]]; discriminate).
  split; [exact I|]. split; [exact N|].
  apply (replaced_words_are_gone (lit "Town and {town} by town") (lit "town") I N).
Defined.

(** X21.  In the output of either engine a surface form of its table
    stands as a whole word, whatever the case, only just after an
    opening brace, as it does in a placeholder. *)
Theorem remaining_words_follow_a_brace (text t p q : str) :
  (In t (all_forms apl_rules) ->
   Apl.identify_architectural_terms text = p ++ q -> whole_word_at t p q ->
   exists p', p = p' ++ ["{"%char]) /\
  (In t (map fst Uia.replaceable_terms) ->
   Uia.identify_domain_specific_terms text = p ++ q -> whole_word_at t p q ->
   exists p', p = p' ++ ["{"%char]).
Proof.
  assert (forall b, after_brace (last_of p b) -> b = None ->
                    exists p', p = p' ++ ["{"%char]) as Last.
  { intros b H ->. unfold after_brace in H.
    destruct p as [|x p0] using rev_ind; [discriminate|].
    rewrite last_of_snoc in H. injection H as ->. now exists p0. }
  split; intros I E H.
  - apply (Last None); [|reflexivity].
    assert (forallb (fun t => word_form t && settled (keeps_guard t) t apl_rules)
                    (all_forms apl_rules) = true) as A by (vm_compute; reflexivity).
    rewrite forallb_forall in A. specialize (A t I).
    apply andb_true_iff in A. destruct A as [F S].
    rewrite (apl_engine text) in E.
    apply (guarded_after_brace t F apl_rules text S p q E H).
  - apply (Last None); [|reflexivity].
    rewrite uia_live_engine in E.
    assert (forallb (fun t => word_form t && settled (keeps_guard t) t uia_live_rules)
                    (firstn 10 (map fst Uia.replaceable_terms)) = true) as A
        by (vm_compute; reflexivity).
    rewrite forallb_forall in A.
    change (map fst Uia.replaceable_terms)
      with (firstn 10 (map fst Uia.replaceable_terms)
              ++ [lit "established " ++ lit "patterns"; lit "major " ++ lit "patterns"]) in I.
    apply in_app_or in I. destruct I as [I|I].
    + specialize (A t I). apply andb_true_iff in A. destruct A as [F S].
      apply (guarded_after_brace t F uia_live_rules text S p q E H).
    + exfalso. apply H.
      revert E. change uia_live_rules
        with (firstn 9 uia_rules
                ++ [(Uia.term_pattern (lit "patterns"), lit "{{patterns}}")]).
      rewrite rewrite_all_app. unfold rewrite_all at 1. cbn [fold_left fst snd].
      intros E.
      destruct I as [<-|[<-|[]]].
      * apply (long_form_nowhere (lit "patterns") (lit "established ") (lit "{{patterns}}")
                 eq_refl eq_refl eq_refl eq_refl eq_refl eq_refl eq_refl None _ _
                 (sub_scanned (Uia.term_pattern (lit "patterns")) (lit "{{patterns}}") eq_refl
                    (rewrite_all (firstn 9 uia_rules) text)) None p q E).
      * apply (long_form_nowhere (lit "patterns") (lit "major ") (lit "{{patterns}}")
                 eq_refl eq_refl eq_refl eq_refl eq_refl eq_refl eq_refl None _ _
                 (sub_scanned (Uia.term_pattern (lit "patterns")) (lit "{{patterns}}") eq_refl
                    (rewrite_all (firstn 9 uia_rules) text)) None p q E).
Qed.

Lemma remaining_words_follow_a_brace_witness :
  In (lit "regions") (all_forms apl_rules) /\
  Apl.identify_architectural_terms (lit "Regions") = lit "{{" ++ lit "regions}}" /\
  whole_word_at (lit "regions") (lit "{{") (lit "regions}}") /\
  exists p', lit "{{" = p' ++ ["{"%char].
Proof.
  assert (In (lit "regions") (all_forms apl_rules)) as I by (vm_compute; tauto).
  assert (Apl.identify_architectural_terms (lit "Regions") = lit "{{" ++ lit "regions}}")
    as E by (vm_compute; reflexivity).
  assert (whole_word_at (lit "regions") (lit "{{") (lit "regions}}")) as H
      by (vm_compute; discriminate).
  split; [exact I|]. split; [exact E|]. split; [exact H|].
  apply (proj1 (remaining_words_follow_a_brace (lit "Regions") (lit "regions")
                  (lit "{{") (lit "regions}}")) I E H).
Defined.
